(** * codex-manager: scanner, session parser, search index and handlers

    A shallow embedding of the core packages of codex-manager
    (internal/sessions: the directory scanner, the session parser and the
    header-only parse; internal/search: the incremental search index;
    internal/web: what the handlers compute) together with the properties
    that their specification states about them and further properties that
    the code has.

    Conventions.
    - A Go [string] is a byte sequence: Rocq's [string] (a list of 8-bit
      [ascii]).  Go [int]/[int64] values are [Z].  A [time.Time] is the
      instant it denotes, a [Z]; [Equal] and [After] compare instants.
    - A Go [map] is a stdpp [gmap]; [m[k] = v] is [<[k:=v]> m] and the
      two-result lookup [v, ok := m[k]] is [m !! k].
    - A Go [error] is its message.  A function returning [(T, error)] returns
      [error + T] ([inl] is the failure).
    - What lives outside the repository (the Unicode tables behind
      [strings.TrimSpace] and [strings.ToLower], [encoding/json], the file
      system) is an interface: a type class whose methods are the calls the
      code makes. *)

From Stdlib Require Import ZArith Lia Ascii String Permutation.
From stdpp Require Import gmap strings list fin_maps sorting.

Local Open Scope Z_scope.

Definition error : Type := string.

(** ** The Go standard library, as far as the code uses it *)
Module Go.

Definition LF : ascii := "010"%char.
Definition CR : ascii := "013"%char.

(** [strings.HasPrefix]. *)
Fixpoint HasPrefix (s prefix : string) : bool :=
  match prefix, s with
  | EmptyString, _ => true
  | String p prefix', String c s' => if Ascii.eqb p c then HasPrefix s' prefix' else false
  | String _ _, EmptyString => false
  end.

(** [strings.Index]: the byte offset of the first occurrence of [substr]
    in [s], or -1. *)
Fixpoint IndexFrom (i : Z) (s substr : string) : Z :=
  if HasPrefix s substr then i
  else match s with
       | EmptyString => -1
       | String _ s' => IndexFrom (i + 1) s' substr
       end.

Definition Index (s substr : string) : Z := IndexFrom 0 s substr.

Definition len (s : string) : Z := Z.of_nat (String.length s).

(** The slice expression [s[i:]], for [0 <= i <= len s]. *)
Definition sliceFrom (s : string) (i : Z) : string :=
  String.substring (Z.to_nat i) (String.length s - Z.to_nat i) s.

(** The slice expression [s[i:j]], for [0 <= i <= j <= len s]. *)
Definition slice (s : string) (i j : Z) : string :=
  String.substring (Z.to_nat i) (Z.to_nat j - Z.to_nat i) s.

(** [strings.HasSuffix]. *)
Definition HasSuffix (s suffix : string) : bool :=
  HasPrefix (String.rev s) (String.rev suffix).

(** [strings.Join]. *)
Fixpoint Join (elems : list string) (sep : string) : string :=
  match elems with
  | [] => ""
  | [e] => e
  | e :: rest => e +:+ sep +:+ Join rest sep
  end.

(** [strings.Split] with a one-byte separator. *)
Fixpoint SplitByte (s : string) (sep : ascii) : list string :=
  match s with
  | EmptyString => [""]
  | String c s' =>
      if Ascii.eqb c sep then "" :: SplitByte s' sep
      else match SplitByte s' sep with
           | [] => [String c ""]
           | w :: ws => String c w :: ws
           end
  end.

(** [strings.TrimRight(s, "\r\n")]: bytes of the cutset are removed from
    the end. *)
Fixpoint TrimRightCRLF (s : string) : string :=
  match s with
  | EmptyString => ""
  | String c s' =>
      match TrimRightCRLF s' with
      | EmptyString =>
          if Ascii.eqb c CR || Ascii.eqb c LF then "" else String c ""
      | r => String c r
      end
  end.

(** [strings.ReplaceAll] of one byte by another. *)
Fixpoint ReplaceByte (s : string) (old new : ascii) : string :=
  match s with
  | EmptyString => ""
  | String c s' => String (if Ascii.eqb c old then new else c) (ReplaceByte s' old new)
  end.

(** The Unicode-aware functions: [strings.TrimSpace] removes leading and
    trailing white space, [strings.ToLower] maps to lower case; both depend
    on the Unicode tables. *)
Class Text := {
  TrimSpace : string → string;
  ToLower : string → string;
}.

(** Two facts about [strings.TrimSpace] that the merge rule relies on: the
    placeholder text has a visible character, and a string with a visible
    character still has one after a blank line and more text are appended
    (the line feed is a full code point, so the decoding of the first part
    does not change). *)
Class TextLaws `{!Text} : Prop := {
  TrimSpace_placeholder : TrimSpace "(empty)" ≠ "";
  TrimSpace_blank_line : ∀ a b,
    TrimSpace a ≠ "" → TrimSpace (a +:+ String LF (String LF "") +:+ b) ≠ "";
}.

(** [strconv.Atoi] on a 64-bit platform: an optional sign and decimal
    digits; any other input is an error with value 0, a value outside
    [int64] is an error with the nearest bound. *)
Definition isDigit (c : ascii) : bool :=
  (48 <=? Z.of_N (N_of_ascii c)) && (Z.of_N (N_of_ascii c) <=? 57).

Fixpoint digitsValue (acc : Z) (s : string) : option Z :=
  match s with
  | EmptyString => Some acc
  | String c s' =>
      if isDigit c then digitsValue (10 * acc + (Z.of_N (N_of_ascii c) - 48)) s'
      else None
  end.

Definition maxInt : Z := 2 ^ 63 - 1.
Definition minInt : Z := - 2 ^ 63.

Definition Atoi (s : string) : Z * bool :=
  let '(neg, body) :=
    match s with
    | String c s' =>
        if Ascii.eqb c "-" then (true, s')
        else if Ascii.eqb c "+" then (false, s')
        else (false, s)
    | EmptyString => (false, s)
    end in
  match body with
  | EmptyString => (0, false)
  | _ =>
      match digitsValue 0 body with
      | None => (0, false)
      | Some v =>
          let n := if neg then - v else v in
          if n <? minInt then (minInt, false)
          else if maxInt <? n then (maxInt, false)
          else (n, true)
      end
  end.

(** [sort.Slice]: the library sorts in place with an unstable algorithm
    driven by [less] alone.  The model is insertion sort; every sorting
    algorithm returns the same slice when [less] is a strict total order on
    the elements ([sorted_permutation_unique] below). *)
Fixpoint insertSorted {A} (less : A → A → bool) (x : A) (l : list A) : list A :=
  match l with
  | [] => [x]
  | y :: l' => if less y x then y :: insertSorted less x l' else x :: y :: l'
  end.

Definition sortSlice {A} (less : A → A → bool) (l : list A) : list A :=
  foldr (insertSorted less) [] l.

(** [strings.Contains]. *)
Definition Contains (s substr : string) : bool := 0 <=? Index s substr.

(** [strings.TrimPrefix]. *)
Definition TrimPrefix (s prefix : string) : string :=
  if HasPrefix s prefix then sliceFrom s (len prefix) else s.

(** [strings.Trim] with a one-byte cutset. *)
Fixpoint TrimLeftByte (s : string) (cut : ascii) : string :=
  match s with
  | EmptyString => ""
  | String c s' => if Ascii.eqb c cut then TrimLeftByte s' cut else s
  end.

Fixpoint TrimRightByte (s : string) (cut : ascii) : string :=
  match s with
  | EmptyString => ""
  | String c s' =>
      match TrimRightByte s' cut with
      | EmptyString => if Ascii.eqb c cut then "" else String c ""
      | r => String c r
      end
  end.

Definition TrimByte (s : string) (cut : ascii) : string :=
  TrimRightByte (TrimLeftByte s cut) cut.

(** [strings.ReplaceAll] of one byte by a string. *)
Fixpoint ReplaceAllByte (s : string) (old : ascii) (new : string) : string :=
  match s with
  | EmptyString => ""
  | String c s' =>
      if Ascii.eqb c old then new +:+ ReplaceAllByte s' old new
      else String c (ReplaceAllByte s' old new)
  end.

(** [hex.EncodeToString]: two digits of "0123456789abcdef" for every byte,
    the high half first. *)
Definition hextable : string := "0123456789abcdef".

Definition hexDigit (n : N) : ascii :=
  default "0"%char (String.get (N.to_nat n) hextable).

Fixpoint EncodeToString (src : string) : string :=
  match src with
  | EmptyString => ""
  | String v src' =>
      String (hexDigit (N.shiftr (N_of_ascii v) 4))
        (String (hexDigit (N.land (N_of_ascii v) 15)) (EncodeToString src'))
  end.

End Go.

(** The text functions on ASCII: white space is the six ASCII space bytes
    and case mapping touches [A-Z] only, which is what the Go functions do
    on ASCII input.  Examples compute with this instance. *)
Module AsciiText.

Definition isSpace (c : ascii) : bool :=
  let n := N_of_ascii c in
  ((9 <=? n) && (n <=? 13) || (n =? 32))%N.

Fixpoint trimLeft (s : string) : string :=
  match s with
  | EmptyString => ""
  | String c s' => if isSpace c then trimLeft s' else s
  end.

Fixpoint trimRight (s : string) : string :=
  match s with
  | EmptyString => ""
  | String c s' =>
      match trimRight s' with
      | EmptyString => if isSpace c then "" else String c ""
      | r => String c r
      end
  end.

Definition TrimSpace (s : string) : string := trimRight (trimLeft s).

Definition lowerByte (c : ascii) : ascii :=
  let n := N_of_ascii c in
  if ((65 <=? n) && (n <=? 90))%N then ascii_of_N (n + 32) else c.

Fixpoint ToLower (s : string) : string :=
  match s with
  | EmptyString => ""
  | String c s' => String (lowerByte c) (ToLower s')
  end.

Fixpoint allSpace (s : string) : bool :=
  match s with
  | EmptyString => true
  | String c s' => isSpace c && allSpace s'
  end.

End AsciiText.

Definition asciiText : Go.Text :=
  {| Go.TrimSpace := AsciiText.TrimSpace; Go.ToLower := AsciiText.ToLower |}.

(** ** Package sessions *)
Module sessions.

(** *** The session parser *)

(** [SessionMeta]: the header of a session.  The Go field [Timestamp] is
    [MetaTimestamp] here (the name is taken by [RenderItem]). *)
Record SessionMeta := {
  ID : string;
  MetaTimestamp : string;
  Cwd : string;
  Originator : string;
  CliVersion : string;
  Instructions : string;
}.

(** [RenderItem]: a display-ready entry.  The Go fields [Type] and
    [Class] are keywords here and carry a trailing underscore. *)
Record RenderItem := {
  Line : Z;
  Timestamp : string;
  Type_ : string;
  Subtype : string;
  Role : string;
  Title : string;
  Content : string;
  Raw : string;
  Class_ : string;
}.

(** [Session]: a parsed conversation file; [Meta] is a nilable pointer. *)
Record Session := {
  Path : string;
  Meta : option SessionMeta;
  Items : list RenderItem;
}.

Record envelope := {
  envTimestamp : string;
  envType : string;
  envPayload : string;
}.

Record responseContent := {
  rcType : string;
  rcText : string;
}.

Record responseItemPayload := {
  pType : string;
  pRole : string;
  pContent : list responseContent;
  pName : string;
  pArguments : string;
  pCallID : string;
  pOutput : string;
}.

(** [encoding/json]: each method is one [json.Unmarshal] target type
    ([None] is a decoding error); [Indent] is [json.Indent] with an empty
    prefix and a two-space indent. *)
Class JSON := {
  Unmarshal_envelope : string → option envelope;
  Unmarshal_SessionMeta : string → option SessionMeta;
  Unmarshal_responseItemPayload : string → option responseItemPayload;
  Unmarshal_summary : string → option (list responseContent);
  Indent : string → option string;
}.

(** The file system as the parser sees it: [Open path] fails, or gives
    the bytes that [ReadBytes] delivers before it stops, and why it
    stops: [None] is [io.EOF], [Some e] a read error. *)
Class Files := {
  Open : string → error + (string * option error);
}.

Section Parser.
Context `{!Go.Text} `{!JSON} `{!Files}.

(** The package variable [trimUserRequestEnabled] is set once at boot
    through [SetTrimUserRequestEnabled]; the parser takes its value as
    an argument. *)
Variable trimUserRequestEnabled : bool.

Definition isUserMessage (item : RenderItem) : bool :=
  String.eqb (Subtype item) "message" && String.eqb (Role item) "user".

Definition marker : string := "## My request for Codex:".

Definition trimUserRequest (content : string) : string :=
  if negb trimUserRequestEnabled then content
  else
    let index := Go.Index content marker in
    if index =? -1 then content
    else
      let trimmed := Go.sliceFrom content (index + Go.len marker) in
      Go.TrimSpace trimmed.

Definition titleForType (eventType subType : string) : string :=
  if String.eqb eventType "response_item" then
    if String.eqb subType "message" then "Message"
    else if String.eqb subType "function_call" then "Tool call"
    else if String.eqb subType "function_call_output" then "Tool output"
    else if String.eqb subType "reasoning" then "Reasoning"
    else "Response item"
  else if String.eqb eventType "event_msg" then
    if String.eqb subType "user_message" then "User context" else "Event"
  else Go.ReplaceByte eventType "_" " ".

Definition roleClass (role : string) : string :=
  let r := Go.ToLower role in
  if String.eqb r "user" then "role-user"
  else if String.eqb r "assistant" then "role-assistant"
  else if String.eqb r "system" then "role-system"
  else if String.eqb r "tool" then "role-tool"
  else if String.eqb r "error" then "role-error"
  else "role-unknown".

Definition prettyJSON (raw : string) : string :=
  match Indent raw with
  | None => raw
  | Some buf => buf
  end.

Definition nonEmptyTexts (contents : list responseContent) : list string :=
  filter (λ t, t ≠ "") (map rcText contents).

Definition extractContentText (contents : list responseContent) : string :=
  match contents with
  | [] => ""
  | _ => Go.TrimSpace (Go.Join (nonEmptyTexts contents) (String Go.LF ""))
  end.

Definition extractReasoningSummary (raw : string) : string :=
  match Unmarshal_summary raw with
  | None => ""
  | Some [] => ""
  | Some summary => Go.TrimSpace (Go.Join (nonEmptyTexts summary) (String Go.LF ""))
  end.

Definition withContent (item : RenderItem) (content : string) : RenderItem :=
  {| Line := Line item; Timestamp := Timestamp item; Type_ := Type_ item;
     Subtype := Subtype item; Role := Role item; Title := Title item;
     Content := content; Raw := Raw item; Class_ := Class_ item |}.

Definition fallbackEmpty (content : string) : string :=
  if String.eqb (Go.TrimSpace content) "" then "(empty)" else content.

Definition parseResponseItem (env : envelope) (lineText : string) (lineNum : Z)
  : option RenderItem :=
  match Unmarshal_responseItemPayload (envPayload env) with
  | None => None
  | Some payload =>
      let item (title role content class : string) :=
        {| Line := lineNum; Timestamp := envTimestamp env; Type_ := envType env;
           Subtype := pType payload; Role := role; Title := title;
           Content := content; Raw := lineText; Class_ := class |} in
      if String.eqb (pType payload) "message" then
        if negb (String.eqb (pRole payload) "user")
           && negb (String.eqb (pRole payload) "assistant")
        then None
        else
          let isUser := String.eqb (pRole payload) "user" in
          let title := if isUser then "User" else "Agent" in
          let content := extractContentText (pContent payload) in
          let content := if isUser then trimUserRequest content else content in
          let content :=
            if String.eqb content "" then prettyJSON (envPayload env) else content in
          Some (item title (pRole payload) (fallbackEmpty content)
                  (roleClass (pRole payload)))
      else if String.eqb (pType payload) "reasoning" then
        let content := extractReasoningSummary (envPayload env) in
        let content :=
          if String.eqb content "" then prettyJSON (envPayload env) else content in
        Some (item (titleForType (envType env) (pType payload)) "assistant"
                (fallbackEmpty content) (roleClass "assistant"))
      else None
  end.

(** [parseLine]: the item of the line, if any, and the session after
    the line (only its header can change). *)
Definition parseLine (lineText : string) (lineNum : Z) (session : Session)
  : option RenderItem * Session :=
  match Unmarshal_envelope lineText with
  | None => (None, session)
  | Some env =>
      if String.eqb (envType env) "session_meta" then
        match Unmarshal_SessionMeta (envPayload env) with
        | Some meta =>
            (None, {| Path := Path session; Meta := Some meta; Items := Items session |})
        | None => (None, session)
        end
      else if String.eqb (envType env) "response_item" then
        (parseResponseItem env lineText lineNum, session)
      else (None, session)
  end.

(** One pass of the loop body of [mergeConsecutive] when the key of
    [item] equals the key of [current]. *)
Definition absorb (inUserGroup : bool) (current item : RenderItem) : RenderItem :=
  if inUserGroup && isUserMessage item then
    {| Line := Line item; Timestamp := Timestamp item; Type_ := Type_ current;
       Subtype := Subtype current; Role := Role current; Title := Title current;
       Content := Content item; Raw := Raw item; Class_ := Class_ current |}
  else if negb (String.eqb (Go.TrimSpace (Content item)) "") then
    if negb (String.eqb (Go.TrimSpace (Content current)) "") then
      withContent current
        (Content current +:+ String Go.LF (String Go.LF "") +:+ Content item)
    else withContent current (Content item)
  else current.

Definition sameKey (current item : RenderItem) : bool :=
  String.eqb (Type_ current) (Type_ item)
  && String.eqb (Subtype current) (Subtype item)
  && String.eqb (Role current) (Role item).

(** The loop of [mergeConsecutive] over [items[1:]]. *)
Fixpoint mergeLoop (current : RenderItem) (inUserGroup : bool)
    (out items : list RenderItem) : list RenderItem :=
  match items with
  | [] => out ++ [current]
  | item :: rest =>
      if sameKey current item then
        mergeLoop (absorb inUserGroup current item) inUserGroup out rest
      else mergeLoop item (isUserMessage item) (out ++ [current]) rest
  end.

Definition mergeConsecutive (items : list RenderItem) : list RenderItem :=
  match items with
  | [] => items
  | current :: rest => mergeLoop current (isUserMessage current) [] rest
  end.

(** The chunks that successive [reader.ReadBytes('\n')] calls return
    on [content]: every chunk but the last ends with the line feed; the
    last one (returned together with the reason for stopping) may be
    empty. *)
Fixpoint readChunks (content : string) : list string :=
  match content with
  | EmptyString => [""]
  | String c rest =>
      if Ascii.eqb c Go.LF then String c "" :: readChunks rest
      else match readChunks rest with
           | [] => [String c ""]
           | chunk :: chunks => String c chunk :: chunks
           end
  end.

(** The body of the read loop of [ParseSession] for one chunk. *)
Definition parseChunk (st : Z * Session) (line : string) : Z * Session :=
  let '(lineNum, session) := st in
  if 0 <? Go.len line then
    let lineNum := lineNum + 1 in
    let lineText := Go.TrimRightCRLF line in
    match parseLine lineText lineNum session with
    | (Some item, session') =>
        (lineNum, {| Path := Path session'; Meta := Meta session';
                     Items := Items session' ++ [item] |})
    | (None, session') => (lineNum, session')
    end
  else (lineNum, session).

Definition ParseSession (path : string) : error + Session :=
  match Open path with
  | inl err => inl err
  | inr (content, stop) =>
      let session := {| Path := path; Meta := None; Items := [] |} in
      let '(_, session) := fold_left parseChunk (readChunks content) (0, session) in
      match stop with
      | Some err => inl err
      | None =>
          inr {| Path := Path session; Meta := Meta session;
                 Items := mergeConsecutive (Items session) |}
      end
  end.

End Parser.

(** *** The header-only parse

    [ParseSessionMeta] reads a session file up to the line that completes
    its header.  The repository's helpers [mergeMeta] and
    [extractCwdFromText] and the two payload types are taken as given:
    [mergeMeta dst src] is the header that the call [mergeMeta(dst, src)]
    leaves behind its first argument, the payload types have the fields
    that the code reads. *)
Module header.

Record metaLinePayload := {
  mlID : string;
  mlTimestamp : string;
  mlCwd : string;
  mlOriginator : string;
  mlCliVersion : string;
  mlInstructions : option string;
}.

Record directMessagePayload := {
  dmType : string;
  dmContent : list responseContent;
}.

Class Helpers := {
  Unmarshal_metaLinePayload : string → option metaLinePayload;
  Unmarshal_directMessagePayload : string → option directMessagePayload;
  mergeMeta : SessionMeta → SessionMeta → SessionMeta;
  extractCwdFromText : string → string;
}.

Section HeaderParser.
Context `{!Go.Text} `{!JSON} `{!Files} `{!Helpers}.

Definition metaFromLine (lineText : string) : option SessionMeta :=
  match Unmarshal_envelope lineText with
  | None => None
  | Some env =>
      if String.eqb (envType env) "session_meta" then
        Unmarshal_SessionMeta (envPayload env)
      else if negb (String.eqb (envType env) "") then None
      else
        match Unmarshal_metaLinePayload lineText with
        | None => None
        | Some metaLine =>
            if String.eqb (mlID metaLine) "" && String.eqb (mlTimestamp metaLine) ""
               && String.eqb (mlCwd metaLine) "" && String.eqb (mlOriginator metaLine) ""
               && String.eqb (mlCliVersion metaLine) ""
               && negb (bool_decide (is_Some (mlInstructions metaLine)))
            then None
            else
              Some {| ID := mlID metaLine; MetaTimestamp := mlTimestamp metaLine;
                      Cwd := mlCwd metaLine; Originator := mlOriginator metaLine;
                      CliVersion := mlCliVersion metaLine;
                      Instructions := default "" (mlInstructions metaLine) |}
        end
  end.

Definition extractMessageTextFromLine (lineText : string) : string :=
  match Unmarshal_envelope lineText with
  | None => ""
  | Some env =>
      if String.eqb (envType env) "response_item" then
        match Unmarshal_responseItemPayload (envPayload env) with
        | None => ""
        | Some payload =>
            if negb (String.eqb (pType payload) "message") then ""
            else extractContentText (pContent payload)
        end
      else if String.eqb (envType env) "message" then
        match Unmarshal_directMessagePayload lineText with
        | None => ""
        | Some payload =>
            if negb (String.eqb (dmType payload) "message") then ""
            else extractContentText (dmContent payload)
        end
      else ""
  end.

(** The assignment [meta.Cwd = cwd]. *)
Definition withCwd (meta : SessionMeta) (cwd : string) : SessionMeta :=
  {| ID := ID meta; MetaTimestamp := MetaTimestamp meta; Cwd := cwd;
     Originator := Originator meta; CliVersion := CliVersion meta;
     Instructions := Instructions meta |}.

(** The test that ends the read loop early. *)
Definition complete (meta : option SessionMeta) : bool :=
  match meta with
  | Some m => negb (String.eqb (ID m) "") && negb (String.eqb (Cwd m) "")
  | None => false
  end.

(** The body of the read loop for one chunk: the variables [meta] and
    [cwdCandidate] after it, and whether it leaves the loop through the
    first [break]. *)
Definition scanLine (st : option SessionMeta * string) (line : string)
  : option SessionMeta * string * bool :=
  let '(meta, cwdCandidate) := st in
  if 0 <? Go.len line then
    let lineText := Go.TrimRightCRLF line in
    let cwdCandidate :=
      if String.eqb cwdCandidate "" then
        let content := extractMessageTextFromLine lineText in
        if negb (String.eqb content "") then
          let cwd := extractCwdFromText content in
          if negb (String.eqb cwd "") then cwd else cwdCandidate
        else cwdCandidate
      else cwdCandidate in
    let meta :=
      match meta with
      | None => metaFromLine lineText
      | Some m =>
          if String.eqb (ID m) "" || String.eqb (Cwd m) ""
             || String.eqb (MetaTimestamp m) ""
          then match metaFromLine lineText with
               | Some parsed => Some (mergeMeta m parsed)
               | None => Some m
               end
          else Some m
      end in
    let meta :=
      match meta with
      | Some m =>
          if String.eqb (Cwd m) "" && negb (String.eqb cwdCandidate "")
          then Some (withCwd m cwdCandidate) else Some m
      | None => None
      end in
    (meta, cwdCandidate, complete meta)
  else (meta, cwdCandidate, false).

(** The read loop over the chunks of the file, up to the first [break]. *)
Fixpoint scanLoop (chunks : list string) (st : option SessionMeta * string)
  : option SessionMeta * string * bool :=
  match chunks with
  | [] => (st, false)
  | line :: rest =>
      let '(st', stopped) := scanLine st line in
      if stopped then (st', true) else scanLoop rest st'
  end.

(** The loop on a file that delivers [content] and then stops for
    [stop]: the read error counts only when the loop gets to it. *)
Definition scanMeta (content : string) (stop : option error) : error + option SessionMeta :=
  let '(meta, _, stopped) := scanLoop (readChunks content) (None, "") in
  if stopped then inr meta
  else match stop with
       | Some err => inl err
       | None => inr meta
       end.

Definition ParseSessionMeta (path : string) : error + option SessionMeta :=
  match Open path with
  | inl err => inl err
  | inr (content, stop) => scanMeta content stop
  end.

End HeaderParser.

End header.

(** *** Working directories *)

Definition UnknownCwd : string := "(unknown)".

(** *** The directory scanner (index.go) *)

(** [DateKey] identifies a sessions date folder. *)
Record DateKey := {
  Year : string;
  Month : string;
  Day : string;
}.

(** [SessionFile]: a jsonl file on disk.  The Go fields [Path] and [Meta]
    are [FilePath] and [FileMeta] here (the names are taken by [Session]). *)
Record SessionFile := {
  Date : DateKey;
  Name : string;
  FilePath : string;
  Size : Z;
  ModTime : Z;
  FileMeta : option SessionMeta;
}.

#[export] Instance DateKey_eq_dec : EqDecision DateKey.
Proof. solve_decision. Defined.

#[export] Instance DateKey_countable : Countable DateKey.
Proof.
  refine (inj_countable' (λ d, (Year d, Month d, Day d))
            (λ t, {| Year := t.1.1; Month := t.1.2; Day := t.2 |}) _).
  intros []; reflexivity.
Defined.

(** [Index]: a snapshot of the sessions on disk (the mutex guards the
    four fields that [Refresh] replaces). *)
Record Index := {
  baseDir : string;
  byDate : gmap DateKey (list SessionFile);
  byName : gmap string SessionFile;
  byCwd : gmap string (list SessionFile);
  updated : Z;
}.

Record FileInfo := {
  InfoSize : Z;
  InfoModTime : Z;
}.

(** [fs.DirEntry], as far as the scanner calls it. *)
Record DirEntry := {
  EntryName : string;
  EntryIsDir : bool;
  EntryInfo : error + FileInfo;
}.

(** The arguments of one call of the walk function. *)
Record walkCall := {
  callPath : string;
  callEntry : DirEntry;
  callErr : option error;
}.

(** The operating system as the scanner sees it.  [Stat] is [None] when
    [os.Stat] succeeds.  [WalkDir root] lists the calls [filepath.WalkDir]
    makes, in its order, to a function that keeps returning nil; the walk
    stops at the first call that returns an error.  [Rel], [ToSlash] and
    [Join] are [filepath.Rel], [filepath.ToSlash] and [path.Join];
    [ParseSessionMeta] is the header-only parse of a session file, of which
    the scanner uses nothing but the result. *)
Class System := {
  Stat : string → option error;
  WalkDir : string → list walkCall;
  Rel : string → string → error + string;
  ToSlash : string → string;
  Join : list string → string;
  ParseSessionMeta : string → error + option SessionMeta;
}.

Section Scanner.
Context `{!Go.Text} `{!System}.

Definition DateKey_String (d : DateKey) : string :=
  Year d +:+ "-" +:+ Month d +:+ "-" +:+ Day d.

Definition DateKey_Path (d : DateKey) : string :=
  Join [Year d; Month d; Day d].

Definition NormalizeCwd (value : string) : string :=
  if String.eqb (Go.TrimSpace value) "" then UnknownCwd else value.

Definition CwdForFile (file : SessionFile) : string :=
  match FileMeta file with
  | Some meta => NormalizeCwd (Cwd meta)
  | None => UnknownCwd
  end.

Definition NewIndex (baseDir : string) : Index :=
  {| baseDir := baseDir; byDate := ∅; byName := ∅; byCwd := ∅; updated := 0 |}.

(** [isDigits] ranges over the runes of [value]; a rune is in ['0','9']
    exactly when it is a single byte in that range, so the test is the same
    on the bytes. *)
Fixpoint isDigits (value : string) : bool :=
  match value with
  | EmptyString => true
  | String ch rest => if negb (Go.isDigit ch) then false else isDigits rest
  end.

Definition ParseDate (year month day : string) : option DateKey :=
  if negb (Go.len year =? 4) || negb (Go.len month =? 2) || negb (Go.len day =? 2)
  then None
  else if negb (isDigits year) || negb (isDigits month) || negb (isDigits day)
  then None
  else Some {| Year := year; Month := month; Day := day |}.

Definition dateGreater (a b : DateKey) : bool :=
  let ay := (Go.Atoi (Year a)).1 in
  let by_ := (Go.Atoi (Year b)).1 in
  if negb (ay =? by_) then by_ <? ay
  else
    let am := (Go.Atoi (Month a)).1 in
    let bm := (Go.Atoi (Month b)).1 in
    if negb (am =? bm) then bm <? am
    else
      let ad := (Go.Atoi (Day a)).1 in
      let bd := (Go.Atoi (Day b)).1 in
      if negb (ad =? bd) then bd <? ad
      else String.ltb (DateKey_String b) (DateKey_String a).

(** The [less] function that [Refresh] hands to [sort.Slice]. *)
Definition fileLess (fi fj : SessionFile) : bool :=
  if ModTime fi =? ModTime fj then String.ltb (Name fi) (Name fj)
  else ModTime fj <? ModTime fi.

(** The three maps under construction. *)
Definition maps : Type :=
  gmap DateKey (list SessionFile) * gmap string SessionFile * gmap string (list SessionFile).

(** The function literal that [Refresh] passes to [filepath.WalkDir]:
    [inl] is the error it returns, [inr] the maps after a nil return. *)
Definition walkFn (base : string) (m : maps) (call : walkCall) : error + maps :=
  match callErr call with
  | Some err => inl err
  | None =>
      let d := callEntry call in
      if EntryIsDir d then inr m
      else if negb (Go.HasSuffix (EntryName d) ".jsonl") then inr m
      else
        match Rel base (callPath call) with
        | inl err => inl err
        | inr rel =>
            match Go.SplitByte (ToSlash rel) "/" with
            | [p0; p1; p2; p3] =>
                match ParseDate p0 p1 p2 with
                | None => inr m
                | Some date =>
                    match EntryInfo d with
                    | inl err => inl err
                    | inr info =>
                        let meta :=
                          match ParseSessionMeta (callPath call) with
                          | inl _ => None
                          | inr meta => meta
                          end in
                        let file :=
                          {| Date := date; Name := p3; FilePath := callPath call;
                             Size := InfoSize info; ModTime := InfoModTime info;
                             FileMeta := meta |} in
                        let '(byDate, byName, byCwd) := m in
                        let byDate := <[date := default [] (byDate !! date) ++ [file]]> byDate in
                        let byName := <[Join [DateKey_Path date; Name file] := file]> byName in
                        let cwd := CwdForFile file in
                        let byCwd := <[cwd := default [] (byCwd !! cwd) ++ [file]]> byCwd in
                        inr (byDate, byName, byCwd)
                    end
                end
            | _ => inr m
            end
        end
  end.

(** [filepath.WalkDir]: the calls are made in order until one returns an
    error, which is the result of the walk. *)
Fixpoint walk (base : string) (calls : list walkCall) (m : maps) : error + maps :=
  match calls with
  | [] => inr m
  | call :: rest =>
      match walkFn base m call with
      | inl err => inl err
      | inr m' => walk base rest m'
      end
  end.

(** [Refresh]: the index after the call and the error returned; [now] is
    the reading of [time.Now]. *)
Definition Refresh (now : Z) (idx : Index) : Index * option error :=
  if String.eqb (baseDir idx) "" then (idx, Some "sessions base directory is empty")
  else
    match Stat (baseDir idx) with
    | Some err => (idx, Some err)
    | None =>
        match walk (baseDir idx) (WalkDir (baseDir idx)) (∅, ∅, ∅) with
        | inl walkErr => (idx, Some walkErr)
        | inr (byDate, byName, byCwd) =>
            let byDate := Go.sortSlice fileLess <$> byDate in
            ({| baseDir := baseDir idx; byDate := byDate; byName := byName;
                byCwd := byCwd; updated := now |}, None)
        end
    end.

(** [Dates]: the keys come out of the map in an unspecified order and are
    then sorted; for the keys of an index the order in which they come out
    does not matter ([sortSlice_dateGreater_any_order] below). *)
Definition Dates (idx : Index) : list DateKey :=
  Go.sortSlice dateGreater (map_to_list (byDate idx)).*1.

(** [SessionsByDate] and [SessionsByCwd] copy the stored slice into a
    fresh one and return the copy: as a value the result is the stored
    list, and no caller holds a reference into the index. *)
Definition SessionsByDate (idx : Index) (date : DateKey) : list SessionFile :=
  let files := default [] (byDate idx !! date) in
  files.

Definition SessionsByCwd (idx : Index) (cwd : string) : list SessionFile :=
  let key := NormalizeCwd cwd in
  let files := default [] (byCwd idx !! key) in
  files.

Definition Lookup (idx : Index) (date : DateKey) (filename : string) : option SessionFile :=
  byName idx !! Join [DateKey_Path date; filename].

(** The [less] function that [Cwds] hands to [sort.Slice]. *)
Definition cwdLess (ki kj : string) : bool :=
  if String.eqb ki UnknownCwd then false
  else if String.eqb kj UnknownCwd then true
  else String.ltb ki kj.

(** [Cwds]: the keys of the map, sorted. *)
Definition Cwds (idx : Index) : list string :=
  Go.sortSlice cwdLess (map_to_list (byCwd idx)).*1.

Definition CwdCounts (idx : Index) : gmap string Z :=
  (λ files, Z.of_nat (length files)) <$> byCwd idx.

End Scanner.

End sessions.


(** ** Package search *)
Module search.

Import sessions.

Definition defaultLimit : Z := 50.
Definition maxLimit : Z := 200.
Definition snippetRadius : Z := 60.
Definition snippetMax : Z := 180.

(** [Result]: a single search match. *)
Record Result := {
  ResDate : string;
  ResPath : string;
  ResFile : string;
  ResLine : Z;
  ResRole : string;
  Preview : string;
}.

Record entry := {
  date : string;
  path : string;
  file : string;
  line : Z;
  role : string;
  content : string;
  lower : string;
}.

Record fileIndex := {
  size : Z;
  modTime : Z;
  entries : list entry;
}.

(** [Index]: a searchable snapshot of the sessions. *)
Record Index := {
  files : gmap string fileIndex;
  ordered : list entry;
}.

Definition NewIndex : Index := {| files := ∅; ordered := [] |}.

Section SearchIndex.
Context `{!Go.Text} `{!JSON} `{!Files} `{!System}.
Variable trimUserRequestEnabled : bool.

Definition buildEntries (f : SessionFile) : error + list entry :=
  match ParseSession trimUserRequestEnabled (FilePath f) with
  | inl err => inl err
  | inr session =>
      let dateLabel := DateKey_String (Date f) in
      let datePath := DateKey_Path (Date f) in
      inr (omap (λ item,
                   let content := Go.TrimSpace (Content item) in
                   if String.eqb content "" then None
                   else Some {| date := dateLabel; path := datePath; file := Name f;
                                line := Line item; role := Role item;
                                content := content; lower := Go.ToLower content |})
             (Items session))
  end.

(** The snapshot [RefreshFrom] reads: the files of every date, dates in
    the order of [Dates]. *)
Definition snapshotFiles (sessionsIdx : sessions.Index) : list SessionFile :=
  concat (map (SessionsByDate sessionsIdx) (Dates sessionsIdx)).

(** The first loop of [RefreshFrom]: cache hits go to [next], the other
    files to [toParse]. *)
Fixpoint selectFiles (existing : gmap string fileIndex) (fs : list SessionFile)
    (next : gmap string fileIndex) (toParse : list SessionFile)
    : gmap string fileIndex * list SessionFile :=
  match fs with
  | [] => (next, toParse)
  | f :: rest =>
      let key := FilePath f in
      match existing !! key with
      | Some meta =>
          if (size meta =? Size f) && (modTime meta =? ModTime f)
          then selectFiles existing rest (<[key := meta]> next) toParse
          else selectFiles existing rest next (toParse ++ [f])
      | None => selectFiles existing rest next (toParse ++ [f])
      end
  end.

(** The second loop: every file of [toParse] is handed to
    [buildEntries]. *)
Fixpoint parseFiles (existing : gmap string fileIndex) (toParse : list SessionFile)
    (next : gmap string fileIndex) (firstErr : option error)
    : gmap string fileIndex * option error :=
  match toParse with
  | [] => (next, firstErr)
  | f :: rest =>
      match buildEntries f with
      | inl err =>
          let firstErr := match firstErr with None => Some err | Some _ => firstErr end in
          let next :=
            match existing !! FilePath f with
            | Some meta => <[FilePath f := meta]> next
            | None => next
            end in
          parseFiles existing rest next firstErr
      | inr entries =>
          parseFiles existing rest
            (<[FilePath f := {| size := Size f; modTime := ModTime f; entries := entries |}]> next)
            firstErr
      end
  end.

(** The third loop: the flattened list, in snapshot order. *)
Definition flatten (next : gmap string fileIndex) (fs : list SessionFile) : list entry :=
  concat (map (λ f, match next !! FilePath f with
                    | Some meta => entries meta
                    | None => []
                    end) fs).

(** [RefreshFrom]: the index after the call and the error returned. *)
Definition RefreshFrom (sessionsIdx : sessions.Index) (idx : Index) : Index * option error :=
  let fs := snapshotFiles sessionsIdx in
  let existing := files idx in
  let '(next, toParse) := selectFiles existing fs ∅ [] in
  let '(next, firstErr) := parseFiles existing toParse next None in
  let ordered := flatten next fs in
  ({| files := next; ordered := ordered |}, firstErr).

(** The files that one [RefreshFrom] hands to the parser. *)
Definition parsedFiles (sessionsIdx : sessions.Index) (idx : Index) : list SessionFile :=
  (selectFiles (files idx) (snapshotFiles sessionsIdx) ∅ []).2.

Definition truncate (value : string) (max : Z) : string :=
  if Go.len value <=? max then value
  else if max <=? 3 then Go.slice value 0 max
  else Go.slice value 0 (max - 3) +:+ "...".

Definition makePreview (content : string) (matchIndex queryLen : Z) : string :=
  let cleaned := Go.ReplaceByte content Go.CR " " in
  let cleaned := Go.ReplaceByte cleaned Go.LF " " in
  let cleaned := Go.TrimSpace cleaned in
  if String.eqb cleaned "" then ""
  else if (matchIndex <? 0) || (Go.len cleaned <=? matchIndex) || (queryLen <=? 0)
  then truncate cleaned snippetMax
  else
    let start := matchIndex - snippetRadius in
    let start := if start <? 0 then 0 else start in
    let end_ := matchIndex + queryLen + snippetRadius in
    let end_ := if Go.len cleaned <? end_ then Go.len cleaned else end_ in
    let snippet := Go.TrimSpace (Go.slice cleaned start end_) in
    let snippet := if 0 <? start then "..." +:+ snippet else snippet in
    let snippet := if end_ <? Go.len cleaned then snippet +:+ "..." else snippet in
    snippet.

Definition resultOf (q : string) (item : entry) (matchIndex : Z) : Result :=
  {| ResDate := date item; ResPath := path item; ResFile := file item;
     ResLine := line item; ResRole := role item;
     Preview := makePreview (content item) matchIndex (Go.len q) |}.

(** The scan loop of [Search]. *)
Fixpoint searchLoop (q lowerq : string) (limit : Z) (results : list Result)
    (items : list entry) : list Result :=
  match items with
  | [] => results
  | item :: rest =>
      let matchIndex := Go.Index (lower item) lowerq in
      if matchIndex =? -1 then searchLoop q lowerq limit results rest
      else
        let results := results ++ [resultOf q item matchIndex] in
        if limit <=? Z.of_nat (length results) then results
        else searchLoop q lowerq limit results rest
  end.

Definition Search (idx : Index) (query : string) (limit : Z) : list Result :=
  let q := Go.TrimSpace query in
  if String.eqb q "" then []
  else
    let limit := if limit <=? 0 then defaultLimit else limit in
    let limit := if maxLimit <? limit then maxLimit else limit in
    let lowerq := Go.ToLower q in
    searchLoop q lowerq limit [] (ordered idx).

End SearchIndex.

End search.


(** ** Package web

    The handlers, as far as they compute: the request is the values that
    the handler reads from it, the response the data that it hands to the
    template or to the JSON encoder.  The fields [Label], [Path] and [Count]
    of the Go type [dateView] carry the prefix [Date] here (the names are
    taken by [dirView]). *)
Module web.

Import sessions.

Record dateView := {
  DateLabel : string;
  DatePath : string;
  DateCount : Z;
}.

Record dirView := {
  Label : string;
  Value : string;
  Count : Z;
  RecentCount : Z;
  HeatColor : string;
}.

Record dirPageView := {
  Dir : dirView;
  PageDates : list dateView;
  ThemeClass : string;
}.

(** What [handleSearch] answers. *)
Inductive searchAnswer :=
| NotFound
| ServiceUnavailable (message : string)
| searchResponse (Query : string) (Results : list search.Result).

(** [net.SplitHostPort]. *)
Class Net := {
  SplitHostPort : string → error + (string * string);
}.

Definition doubleQuote : ascii := "034"%char.

(** The replacement text of [shellQuote]: a single quote between double
    quotes, between the quote that closes the word so far and the quote
    that opens the rest. *)
Definition quotedQuote : string :=
  String "'" (String doubleQuote (String "'" (String doubleQuote (String "'" "")))).

Definition shellQuote (value : string) : string :=
  if String.eqb value "" then "''"
  else "'" +:+ Go.ReplaceAllByte value "'" quotedQuote +:+ "'".

Definition formatUUID (token : string) : string :=
  if negb (Go.len token =? 32) then token
  else Go.slice token 0 8 +:+ "-" +:+ Go.slice token 8 12 +:+ "-"
       +:+ Go.slice token 12 16 +:+ "-" +:+ Go.slice token 16 20 +:+ "-"
       +:+ Go.slice token 20 32.

(** [randomToken]: [random] is what [rand.Read] leaves in the buffer,
    or its error. *)
Definition randomToken (random : error + string) : error + string :=
  match random with
  | inl err => inl err
  | inr buf => inr (Go.EncodeToString buf)
  end.

(** The name of the file that [handleShare] writes for a token. *)
Definition shareFileName (token : string) : string := formatUUID token +:+ ".html".

(** The handler of [NewShareServer] up to its call of [os.Stat]: the name
    that it looks up in the share directory, [None] when it answers "not
    found" without looking. *)
Definition sharedName (method urlPath : string) : option string :=
  if negb (String.eqb method "GET") && negb (String.eqb method "HEAD") then None
  else
    let path := Go.TrimPrefix urlPath "/" in
    if String.eqb path "" || Go.Contains path "/" || Go.Contains path "\"
       || Go.Contains path ".."
    then None
    else Some path.

(** [sharePort] (tailscale.go). *)
Definition sharePort `{!Net} (shareAddr : string) : error + string :=
  if String.eqb shareAddr "" then inl "share-addr is empty"
  else
    let port :=
      if Go.HasPrefix shareAddr ":" then inr (Go.TrimPrefix shareAddr ":")
      else if Go.Contains shareAddr ":" then
        match SplitHostPort shareAddr with
        | inl err => inl err
        | inr (_, p) => inr p
        end
      else inr shareAddr in
    match port with
    | inl err => inl err
    | inr port =>
        if String.eqb port "" then inl "share-addr missing port"
        else if negb (Go.Atoi port).2 then inl "share-addr port is not numeric"
        else inr port
    end.

Section Handlers.
Context `{!Go.Text} `{!System}.

(** The arithmetic on floating-point numbers and the formatting in
    [heatColor], for a positive count and maximum. *)
Variable heatRGBA : Z → Z → string.

Definition heatColor (count max : Z) : string :=
  if (max <=? 0) || (count <=? 0) then "" else heatRGBA count max.

Definition dirLabel (cwd : string) : string :=
  if String.eqb (NormalizeCwd cwd) UnknownCwd then "Unknown (no CWD)" else cwd.

(** The statement [counts[key]++] on a map of counters. *)
Definition increment {K} `{Countable K} (key : K) (counts : gmap K Z) : gmap K Z :=
  <[key := default 0 (counts !! key) + 1]> counts.

Definition buildDirViewsFromCounts (counts recentCounts : gmap string Z)
    (recentMax : Z) (withHeat : bool) : list dirView :=
  let keys := Go.sortSlice cwdLess (map_to_list counts).*1 in
  map (λ key,
         let recent := if withHeat then default 0 (recentCounts !! key) else 0 in
         {| Label := dirLabel key; Value := key; Count := default 0 (counts !! key);
            RecentCount := recent;
            HeatColor := if withHeat then heatColor recent recentMax else "" |})
      keys.

Definition buildDirViewsFromFiles (files : list SessionFile) : list dirView :=
  let counts := fold_left (λ counts file, increment (CwdForFile file) counts) files ∅ in
  buildDirViewsFromCounts counts ∅ 0 false.

(** The body of the inner loop of [recentCwdCounts] and of
    [recentCwdCountsFromLatestDates] for a file that counts. *)
Definition countFile (st : gmap string Z * Z) (file : SessionFile) : gmap string Z * Z :=
  let '(counts, max) := st in
  let cwd := CwdForFile file in
  let counts := increment cwd counts in
  let max := if max <? default 0 (counts !! cwd) then default 0 (counts !! cwd) else max in
  (counts, max).

Definition recentCwdCounts (idx : Index) (since : Z) : gmap string Z * Z :=
  fold_left
    (λ st date,
       fold_left (λ st file, if ModTime file <? since then st else countFile st file)
         (SessionsByDate idx date) st)
    (Dates idx) (∅, 0).

Definition recentCwdCountsFromLatestDates (idx : Index) (limit : Z) : gmap string Z * Z :=
  if limit <=? 0 then (∅, 0)
  else
    let dates := Dates idx in
    let dates :=
      if limit <? Z.of_nat (length dates) then take (Z.to_nat limit) dates else dates in
    fold_left (λ st date, fold_left countFile (SessionsByDate idx date) st) dates (∅, 0).

(** The view that [handleDir] renders for a working directory ([cwd] is
    the request's parameter after [normalizeCwdParam], not empty). *)
Definition handleDir (idx : Index) (themeClass cwd : string) : dirPageView :=
  let files := SessionsByCwd idx cwd in
  let counts := fold_left (λ counts file, increment (Date file) counts) files ∅ in
  let dates := Dates idx in
  let dateViews :=
    omap (λ date,
            match counts !! date with
            | Some count =>
                Some {| DateLabel := DateKey_String date; DatePath := DateKey_Path date;
                        DateCount := count |}
            | None => None
            end) dates in
  {| Dir := {| Label := dirLabel cwd; Value := cwd; Count := Z.of_nat (length files);
               RecentCount := 0; HeatColor := "" |};
     PageDates := dateViews; ThemeClass := themeClass |}.

(** [handleRaw]: the indexed file that it serves ([http.ServeFile] is
    called with its path), [None] when it answers "not found". *)
Definition handleRaw (idx : Index) (rawPath : string) : option SessionFile :=
  match Go.SplitByte (Go.TrimByte rawPath "/") "/" with
  | [p0; p1; p2; filename] =>
      match ParseDate p0 p1 p2 with
      | None => None
      | Some date =>
          if String.eqb filename "" || Go.Contains filename ".."
             || Go.Contains filename "/" || Go.Contains filename "\"
          then None
          else Lookup idx date filename
      end
  | _ => None
  end.

(** [handleSearch]: [rawQuery] and [rawLimit] are the values of the
    request's parameters "query" and "limit" ([""] when absent). *)
Definition handleSearch (method : string) (searchIdx : option search.Index)
    (rawQuery rawLimit : string) : searchAnswer :=
  if negb (String.eqb method "GET") then NotFound
  else
    match searchIdx with
    | None => ServiceUnavailable "search index not available"
    | Some searchIdx =>
        let query := Go.TrimSpace rawQuery in
        let limit := 50 in
        let limit :=
          if negb (String.eqb rawLimit "") then
            let '(parsed, ok) := Go.Atoi rawLimit in
            if ok && (0 <? parsed) then parsed else limit
          else limit in
        let limit := if 200 <? limit then 200 else limit in
        let results :=
          if 2 <=? Go.len query then search.Search searchIdx query limit else [] in
        searchResponse query results
    end.

End Handlers.

End web.


(** ** The specification's vocabulary *)
Module Spec.

Import sessions.

Section MergeRule.
Context `{!Go.Text}.

(** The (type, subtype, role) triple that the merge rule compares. *)
Definition key (item : RenderItem) : string * string * string :=
  (Type_ item, Subtype item, Role item).

(** The maximal runs of adjacent entries with one key, each as its first
    entry and the entries that follow it. *)
Fixpoint runs (items : list RenderItem) : list (RenderItem * list RenderItem) :=
  match items with
  | [] => []
  | x :: rest =>
      match runs rest with
      | (y, ys) :: rs =>
          if decide (key x = key y) then (x, y :: ys) :: rs
          else (x, []) :: (y, ys) :: rs
      | [] => [(x, [])]
      end
  end.

Definition blankLine : string := String Go.LF (String Go.LF "").

(** A content is non-empty when something is left after trimming, the
    test the parser applies everywhere. *)
Definition nonEmpty (c : string) : Prop := Go.TrimSpace c ≠ "".

(** What one run collapses to.  A run of user messages: the entry of the
    run with the content, line, timestamp and raw text of its last message.
    Any other run: the first entry with the non-empty contents of the run
    joined by a blank line (a run without any non-empty content keeps the
    first entry as it is). *)
Definition collapseRun (r : RenderItem * list RenderItem) : RenderItem :=
  let '(first, rest) := r in
  if isUserMessage first then
    let final := List.last rest first in
    {| Line := Line final; Timestamp := Timestamp final; Type_ := Type_ first;
       Subtype := Subtype first; Role := Role first; Title := Title first;
       Content := Content final; Raw := Raw final; Class_ := Class_ first |}
  else
    match filter nonEmpty (map Content (first :: rest)) with
    | [] => first
    | texts => withContent first (Go.Join texts blankLine)
    end.

(** The loop body of [mergeConsecutive] iterated over one run. *)
Definition foldRun (r : RenderItem * list RenderItem) : RenderItem :=
  fold_left (absorb (isUserMessage r.1)) r.2 r.1.

(** The entries of a list of runs, in order. *)
Definition unruns (rs : list (RenderItem * list RenderItem)) : list RenderItem :=
  concat (map (λ r, r.1 :: r.2) rs).

(** An entry as the parser makes it: a message of the user, a message of
    the assistant or a reasoning summary, of type "response_item", with the
    title and the class of its role and a content that is not empty. *)
Definition wellFormed (item : RenderItem) : Prop :=
  Type_ item = "response_item"
  ∧ ((Subtype item = "message" ∧ Role item = "user" ∧ Title item = "User")
     ∨ (Subtype item = "message" ∧ Role item = "assistant" ∧ Title item = "Agent")
     ∨ (Subtype item = "reasoning" ∧ Role item = "assistant"
        ∧ Title item = "Reasoning"))
  ∧ Class_ item = roleClass (Role item)
  ∧ nonEmpty (Content item).

End MergeRule.

Section Header.
Context `{!JSON}.

(** The lines of a file: what is read up to each line feed, without the
    trailing carriage returns and line feeds; an empty last chunk is not a
    line. *)
Definition lines (content : string) : list string :=
  map Go.TrimRightCRLF (filter (λ chunk, chunk ≠ "") (readChunks content)).

(** The header that a line carries: its envelope decodes, has the type
    "session_meta", and its payload decodes as a header. *)
Definition headerOfLine (lineText : string) : option SessionMeta :=
  match Unmarshal_envelope lineText with
  | Some env =>
      if decide (envType env = "session_meta")
      then Unmarshal_SessionMeta (envPayload env)
      else None
  | None => None
  end.

(** The entry records a line of the file: its number, counted from 1, and
    its text. *)
Definition recordsLine (texts : list string) (item : RenderItem) : Prop :=
  1 ≤ Line item ∧ texts !! Z.to_nat (Line item - 1) = Some (Raw item).

End Header.

Section Scan.
Context `{!Go.Text} `{!System}.

(** The order of the files of one date: later modification first, and on
    equal modification times the smaller name first. *)
Definition fileBefore (a b : SessionFile) : Prop :=
  ModTime b < ModTime a ∨ (ModTime a = ModTime b ∧ String.le (Name a) (Name b)).

(** The numbers that the three segments of a date denote. *)
Definition dateNumbers (d : DateKey) : Z * Z * Z :=
  ((Go.Atoi (Year d)).1, (Go.Atoi (Month d)).1, (Go.Atoi (Day d)).1).

(** [a] is a later date than [b], numerically on (year, month, day). *)
Definition dateAfter (a b : DateKey) : Prop :=
  let '(ya, ma, da) := dateNumbers a in
  let '(yb, mb, db) := dateNumbers b in
  yb < ya ∨ (ya = yb ∧ (mb < ma ∨ (ma = mb ∧ db < da))).

(** The number that a string of decimal digits denotes. *)
Fixpoint digitsNum (s : string) : Z :=
  match s with
  | EmptyString => 0
  | String c s' =>
      (Z.of_N (N_of_ascii c) - 48) * 10 ^ Z.of_nat (String.length s') + digitsNum s'
  end.

(** A date key made of a four-digit year and two-digit month and day. *)
Definition validDate (d : DateKey) : Prop :=
  ParseDate (Year d) (Month d) (Day d) = Some d.

(** The session file that a call of the walk contributes: the call is for
    a file (not a directory) with the suffix ".jsonl" whose path relative to
    the base has exactly the four segments year/month/day/name, the first
    three forming a valid date; its size and modification time come from
    the entry, its header from the header-only parse when that succeeds. *)
Definition fileOfCall (base : string) (call : walkCall) : option SessionFile :=
  let d := callEntry call in
  if EntryIsDir d || negb (Go.HasSuffix (EntryName d) ".jsonl") then None
  else
    match Rel base (callPath call) with
    | inr rel =>
        match Go.SplitByte (ToSlash rel) "/" with
        | [year; month; day; name] =>
            match ParseDate year month day, EntryInfo d with
            | Some date, inr info =>
                Some {| Date := date; Name := name; FilePath := callPath call;
                        Size := InfoSize info; ModTime := InfoModTime info;
                        FileMeta := match ParseSessionMeta (callPath call) with
                                    | inr meta => meta
                                    | inl _ => None
                                    end |}
            | _, _ => None
            end
        | _ => None
        end
    | inl _ => None
    end.

(** The session files of a walk, in the order in which the walk visits
    them. *)
Definition walkedFiles (base : string) : list SessionFile :=
  omap (fileOfCall base) (WalkDir base).

(** Appending [x] to the slice stored under [k]. *)
Definition pushTo {K} `{Countable K} {A} (k : K) (x : A) (m : gmap K (list A))
  : gmap K (list A) :=
  <[k := default [] (m !! k) ++ [x]]> m.

(** What the walk function does to the three maps for one file. *)
Definition addFile (m : maps) (f : SessionFile) : maps :=
  let '(dates, names, cwds) := m in
  (pushTo (Date f) f dates,
   <[Join [DateKey_Path (Date f); Name f] := f]> names,
   pushTo (CwdForFile f) f cwds).

End Scan.

Section Directories.
Context `{!Go.Text} `{!System}.

(** The order of the working directories: ascending by bytes, with
    "(unknown)" after every other key. *)
Definition cwdBefore (a b : string) : Prop :=
  a ≠ UnknownCwd ∧ (b = UnknownCwd ∨ String.ltb a b = true).

(** The key under which the index files a session by name. *)
Definition nameKey (date : DateKey) (filename : string) : string :=
  Join [DateKey_Path date; filename].

(** The working directory that the header of a file records
    ("(unknown)" when the file has no header). *)
Definition recordedCwd (f : SessionFile) : string :=
  match FileMeta f with
  | Some meta => Cwd meta
  | None => UnknownCwd
  end.

(** A string of decimal digits of the given length. *)
Definition digits (n : nat) (s : string) : Prop :=
  String.length s = n ∧ isDigits s = true.

(** Counting the files of a list by working directory, together with the
    largest count so far, as [recentCwdCounts] does. *)
Definition tally (files : list SessionFile) : gmap string Z * Z :=
  fold_left web.countFile files (∅, 0).

(** The largest count is at least every count and is the count of some
    directory, unless nothing has been counted. *)
Definition largest (st : gmap string Z * Z) : Prop :=
  (∀ cwd n, st.1 !! cwd = Some n → 1 ≤ n ≤ st.2)
  ∧ ((st.1 = ∅ ∧ st.2 = 0) ∨ ∃ cwd, st.1 !! cwd = Some st.2).

End Directories.

(** How a POSIX shell reads a word that consists of quoted parts only:
    between single quotes every byte stands for itself; between double
    quotes every byte other than the dollar sign, the backquote and the
    backslash does.  [None]: the word has an unquoted byte, a byte with a
    special meaning between double quotes, or an open quote. *)
Inductive quoting := Unquoted | SingleQuoted | DoubleQuoted.

Fixpoint shellWord (mode : quoting) (word : string) : option string :=
  match word with
  | EmptyString =>
      match mode with
      | Unquoted => Some ""
      | _ => None
      end
  | String c rest =>
      match mode with
      | Unquoted =>
          if Ascii.eqb c "'" then shellWord SingleQuoted rest
          else if Ascii.eqb c web.doubleQuote then shellWord DoubleQuoted rest
          else None
      | SingleQuoted =>
          if Ascii.eqb c "'" then shellWord Unquoted rest
          else String c <$> shellWord SingleQuoted rest
      | DoubleQuoted =>
          if Ascii.eqb c web.doubleQuote then shellWord Unquoted rest
          else if Ascii.eqb c "$" || Ascii.eqb c "`" || Ascii.eqb c "\" then None
          else String c <$> shellWord DoubleQuoted rest
      end
  end.

(** The number of elements of a list of files, as a Go [int]. *)
Definition count {A} (l : list A) : Z := Z.of_nat (length l).

(** The sum of a list of numbers. *)
Definition sumOf (l : list Z) : Z := foldr Z.add 0 l.

(** Every byte of [s] satisfies [P]. *)
Definition allBytes (P : ascii → Prop) (s : string) : Prop :=
  Forall P (list_ascii_of_string s).

(** A text without a line break. *)
Definition oneLine (s : string) : Prop :=
  allBytes (λ c, c ≠ Go.LF ∧ c ≠ Go.CR) s.

(** The bytes that a share name is made of, apart from its extension:
    no dot and no path separator. *)
Definition nameByte (c : ascii) : Prop :=
  c ≠ "."%char ∧ c ≠ "/"%char ∧ c ≠ "\"%char.

(** The limit that a search request asks for: the number in its "limit"
    parameter, 0 when the parameter is absent or not a number. *)
Definition requestedLimit (rawLimit : string) : Z :=
  if (Go.Atoi rawLimit).2 then (Go.Atoi rawLimit).1 else 0.

(** [m] occurs in [s] at byte offset [i]. *)
Definition occursAt (s m : string) (i : nat) : Prop :=
  ∃ pre suf, s = pre +:+ m +:+ suf ∧ String.length pre = i.

(** [m] is a substring of [s]. *)
Fixpoint contains (s m : string) : bool :=
  Go.HasPrefix s m
  || match s with
     | EmptyString => false
     | String _ s' => contains s' m
     end.

Section UserMessage.
Context `{!Go.Text} `{!JSON}.

(** What an entry shows for a message of which the parser kept the text
    [kept]: the text itself; when nothing was kept, the payload of the
    line, pretty-printed; and "(empty)" when what would be shown is blank. *)
Definition shown (payload kept : string) : string :=
  let text := if decide (kept = "") then prettyJSON payload else kept in
  if decide (Go.TrimSpace text = "") then "(empty)" else text.

End UserMessage.

Section SearchIndex.
Import search.
Context `{!Go.Text} `{!JSON} `{!Files} `{!System}.
Variable trimUserRequestEnabled : bool.

(** The cache has a record for the file whose (size, modification time)
    pair is the current pair of the file. *)
Definition cached (existing : gmap string fileIndex) (f : SessionFile) : bool :=
  match existing !! FilePath f with
  | Some meta => (size meta =? Size f) && (modTime meta =? ModTime f)
  | None => false
  end.

(** The failure of parsing a file, if it fails. *)
Definition parseError (f : SessionFile) : option error :=
  match buildEntries trimUserRequestEnabled f with
  | inl err => Some err
  | inr _ => None
  end.

(** The limit that a search applies. *)
Definition effectiveLimit (limit : Z) : Z :=
  if decide (limit ≤ 0) then 50
  else if decide (200 < limit) then 200
  else limit.

(** [q] is a substring of the content of [item], letter case ignored. *)
Definition matches (q : string) (item : entry) : bool :=
  contains (Go.ToLower (content item)) (Go.ToLower q).

(** The result for a matching entry: its coordinates and the preview
    around the match. *)
Definition hit (q : string) (item : entry) : Result :=
  resultOf q item (Go.Index (Go.ToLower (content item)) (Go.ToLower q)).

(** The reference definition of [Search] over the flattened list. *)
Definition SearchReference (ordered : list entry) (query : string) (limit : Z)
  : list Result :=
  let q := Go.TrimSpace query in
  if decide (q = "") then []
  else
    map (hit q)
      (take (Z.to_nat (effectiveLimit limit))
         (filter (λ item, matches q item = true) ordered)).

(** The result for an entry whose lower-case copy contains the lower-case
    query, as the loop of [Search] makes it. *)
Definition found (q lowerq : string) (item : entry) : option Result :=
  let matchIndex := Go.Index (lower item) lowerq in
  if matchIndex =? -1 then None else Some (resultOf q item matchIndex).

(** An entry as [buildEntries] makes it: the lower-case copy is the
    lower-case of the content. *)
Definition entryOK (item : entry) : Prop := lower item = Go.ToLower (content item).

(** A cache all of whose entries are as [buildEntries] makes them. *)
Definition cacheOK (m : gmap string fileIndex) : Prop :=
  map_Forall (λ _ fi, Forall entryOK (entries fi)) m.

(** The search indexes that the program can hold: the empty one and the
    result of refreshing one of them from a sessions index. *)
Inductive built : search.Index → Prop :=
| built_new : built search.NewIndex
| built_refresh sessionsIdx idx :
    built idx → built (RefreshFrom trimUserRequestEnabled sessionsIdx idx).1.

End SearchIndex.

End Spec.

(** ** A sample installation

    Two sessions of one day, written 100 time units apart by sessions that
    recorded no working directory; [a.jsonl] is the older one and the walk,
    which is lexical, visits it first.  A third file lies directly in the
    base directory, where the scanner does not look for sessions. *)
Module Sample.

Import sessions.

Definition entryA : DirEntry :=
  {| EntryName := "a.jsonl"; EntryIsDir := false;
     EntryInfo := inr {| InfoSize := 10; InfoModTime := 100 |} |}.

Definition entryB : DirEntry :=
  {| EntryName := "b.jsonl"; EntryIsDir := false;
     EntryInfo := inr {| InfoSize := 20; InfoModTime := 200 |} |}.

Definition entryStray : DirEntry :=
  {| EntryName := "stray.jsonl"; EntryIsDir := false;
     EntryInfo := inr {| InfoSize := 30; InfoModTime := 300 |} |}.

Definition dirEntry (name : string) : DirEntry :=
  {| EntryName := name; EntryIsDir := true;
     EntryInfo := inr {| InfoSize := 0; InfoModTime := 0 |} |}.

Definition calls : list walkCall :=
  [ {| callPath := "/s"; callEntry := dirEntry "s"; callErr := None |};
    {| callPath := "/s/2024"; callEntry := dirEntry "2024"; callErr := None |};
    {| callPath := "/s/2024/01"; callEntry := dirEntry "01"; callErr := None |};
    {| callPath := "/s/2024/01/02"; callEntry := dirEntry "02"; callErr := None |};
    {| callPath := "/s/2024/01/02/a.jsonl"; callEntry := entryA; callErr := None |};
    {| callPath := "/s/2024/01/02/b.jsonl"; callEntry := entryB; callErr := None |};
    {| callPath := "/s/stray.jsonl"; callEntry := entryStray; callErr := None |} ].

Definition system : System :=
  {| Stat := λ _, None;
     WalkDir := λ _, calls;
     Rel := λ base target, inr (Go.sliceFrom target (Go.len base + 1));
     ToSlash := λ p, p;
     Join := λ elems, Go.Join elems "/";
     ParseSessionMeta := λ _, inr None |}.

Definition day : DateKey := {| Year := "2024"; Month := "01"; Day := "02" |}.

Definition fileA : SessionFile :=
  {| Date := day; Name := "a.jsonl"; FilePath := "/s/2024/01/02/a.jsonl";
     Size := 10; ModTime := 100; FileMeta := None |}.

Definition fileB : SessionFile :=
  {| Date := day; Name := "b.jsonl"; FilePath := "/s/2024/01/02/b.jsonl";
     Size := 20; ModTime := 200; FileMeta := None |}.

(** The older session holds a user message and an answer; the newer one
    cannot be opened; the stray file holds a header, a user message and a
    second header. *)
Definition contentA : string :=
  "U1" +:+ String Go.LF ("A1" +:+ String Go.LF "").

Definition contentStray : string :=
  "M1" +:+ String Go.LF ("U1" +:+ String Go.CR (String Go.LF ("M2" +:+ String Go.LF ""))).

Definition files : Files :=
  {| Open := λ path,
       if String.eqb path "/s/2024/01/02/a.jsonl" then inr (contentA, None)
       else if String.eqb path "/s/stray.jsonl" then inr (contentStray, None)
       else inl "permission denied" |}.

Definition userPayload : responseItemPayload :=
  {| pType := "message"; pRole := "user";
     pContent := [ {| rcType := "input_text"; rcText := "say Hello there" |} ];
     pName := ""; pArguments := ""; pCallID := ""; pOutput := "" |}.

Definition agentPayload : responseItemPayload :=
  {| pType := "message"; pRole := "assistant";
     pContent := [ {| rcType := "output_text"; rcText := "Here is a search result" |} ];
     pName := ""; pArguments := ""; pCallID := ""; pOutput := "" |}.

Definition json : JSON :=
  {| Unmarshal_envelope := λ lineText,
       if String.eqb lineText "U1"
       then Some {| envTimestamp := "t1"; envType := "response_item"; envPayload := "PU" |}
       else if String.eqb lineText "A1"
       then Some {| envTimestamp := "t2"; envType := "response_item"; envPayload := "PA" |}
       else if String.eqb lineText "M1"
       then Some {| envTimestamp := "t0"; envType := "session_meta"; envPayload := "PM1" |}
       else if String.eqb lineText "M2"
       then Some {| envTimestamp := "t3"; envType := "session_meta"; envPayload := "PM2" |}
       else None;
     Unmarshal_SessionMeta := λ raw,
       if String.eqb raw "PM1"
       then Some {| ID := "abc"; MetaTimestamp := "t0"; Cwd := "/tmp";
                    Originator := "cli"; CliVersion := "0.1"; Instructions := "" |}
       else if String.eqb raw "PM2"
       then Some {| ID := "def"; MetaTimestamp := "t3"; Cwd := "/home";
                    Originator := "cli"; CliVersion := "0.1"; Instructions := "" |}
       else None;
     Unmarshal_responseItemPayload := λ raw,
       if String.eqb raw "PU" then Some userPayload
       else if String.eqb raw "PA" then Some agentPayload
       else None;
     Unmarshal_summary := λ _, None;
     Indent := λ _, None |}.

(** The sessions index after the first scan and the search index after
    the first reindexing. *)
Definition sessionsIdx : sessions.Index :=
  (@Refresh asciiText system 7 (NewIndex "/s")).1.

Definition searchIdx : search.Index :=
  (@search.RefreshFrom asciiText json files system true sessionsIdx search.NewIndex).1.

(** The cache that an earlier reindexing left behind when [b.jsonl] had 5
    bytes and could still be read. *)
Definition staleEntry : search.entry :=
  {| search.date := "2024-01-02"; search.path := "2024/01/02";
     search.file := "b.jsonl"; search.line := 1; search.role := "user";
     search.content := "old text"; search.lower := "old text" |}.

Definition staleRecord : search.fileIndex :=
  {| search.size := 5; search.modTime := 50; search.entries := [staleEntry] |}.

Definition staleIdx : search.Index :=
  {| search.files := {[ "/s/2024/01/02/b.jsonl" := staleRecord ]};
     search.ordered := [staleEntry] |}.

(** The scenario of the parser's test: two user messages, a reasoning
    summary, two more user messages. *)
Definition message (n : Z) (subtype role text : string) : RenderItem :=
  {| Line := n; Timestamp := ""; Type_ := "response_item"; Subtype := subtype;
     Role := role; Title := ""; Content := text; Raw := ""; Class_ := "" |}.

Definition scenario : list RenderItem :=
  [ message 2 "message" "user" "noise";
    message 3 "message" "user" "keep";
    message 6 "reasoning" "assistant" "Reason";
    message 7 "message" "user" "Earlier";
    message 8 "message" "user" "Later" ].

(** The same files when [a.jsonl] carries a header that names the
    working directory "/proj". *)
Definition headerA : SessionMeta :=
  {| ID := "abc"; MetaTimestamp := "t0"; Cwd := "/proj"; Originator := "cli";
     CliVersion := "0.1"; Instructions := "" |}.

Definition systemCwd : System :=
  {| Stat := λ _, None;
     WalkDir := λ _, calls;
     Rel := λ base target, inr (Go.sliceFrom target (Go.len base + 1));
     ToSlash := λ p, p;
     Join := λ elems, Go.Join elems "/";
     ParseSessionMeta := λ path,
       if String.eqb path "/s/2024/01/02/a.jsonl" then inr (Some headerA)
       else inr None |}.

Definition fileACwd : SessionFile :=
  {| Date := day; Name := "a.jsonl"; FilePath := "/s/2024/01/02/a.jsonl";
     Size := 10; ModTime := 100; FileMeta := Some headerA |}.

Definition sessionsIdxCwd : sessions.Index :=
  (@Refresh asciiText systemCwd 7 (NewIndex "/s")).1.

(** The stray file on a disk that fails after the last line. *)
Definition filesBroken : Files :=
  {| Open := λ path,
       if String.eqb path "/s/stray.jsonl"
       then inr (contentStray, Some "input/output error")
       else inl "permission denied" |}.

(** Helpers of the header-only parse: no line is a header in the old
    format, no message names a working directory, and merging fills the
    empty fields of the first header from the second. *)
Definition helpers : header.Helpers :=
  {| header.Unmarshal_metaLinePayload := λ _, None;
     header.Unmarshal_directMessagePayload := λ _, None;
     header.mergeMeta := λ dst src,
       let pick (a b : string) := if String.eqb a "" then b else a in
       {| ID := pick (ID dst) (ID src);
          MetaTimestamp := pick (MetaTimestamp dst) (MetaTimestamp src);
          Cwd := pick (Cwd dst) (Cwd src);
          Originator := pick (Originator dst) (Originator src);
          CliVersion := pick (CliVersion dst) (CliVersion src);
          Instructions := pick (Instructions dst) (Instructions src) |};
     header.extractCwdFromText := λ _, "" |}.

(** [net.SplitHostPort] on addresses of the form host:port. *)
Definition net : web.Net :=
  {| web.SplitHostPort := λ addr,
       let i := Go.Index addr ":" in
       if i <? 0 then inl "missing port in address"
       else inr (Go.slice addr 0 i, Go.sliceFrom addr (i + 1)) |}.

(** Sixteen bytes from the random source. *)
Definition randomBytes : string := "0123456789abcdef".

(** An installation with sessions of three days: one of the last day of
    2023, the two of 2024/01/02, one of 2024/02/01.  The walk is lexical,
    so it meets the days from the earliest to the latest. *)
Definition entryC : DirEntry :=
  {| EntryName := "c.jsonl"; EntryIsDir := false;
     EntryInfo := inr {| InfoSize := 40; InfoModTime := 50 |} |}.

Definition entryD : DirEntry :=
  {| EntryName := "d.jsonl"; EntryIsDir := false;
     EntryInfo := inr {| InfoSize := 50; InfoModTime := 400 |} |}.

Definition callsDays : list walkCall :=
  [ {| callPath := "/s"; callEntry := dirEntry "s"; callErr := None |};
    {| callPath := "/s/2023"; callEntry := dirEntry "2023"; callErr := None |};
    {| callPath := "/s/2023/12"; callEntry := dirEntry "12"; callErr := None |};
    {| callPath := "/s/2023/12/31"; callEntry := dirEntry "31"; callErr := None |};
    {| callPath := "/s/2023/12/31/c.jsonl"; callEntry := entryC; callErr := None |};
    {| callPath := "/s/2024"; callEntry := dirEntry "2024"; callErr := None |};
    {| callPath := "/s/2024/01"; callEntry := dirEntry "01"; callErr := None |};
    {| callPath := "/s/2024/01/02"; callEntry := dirEntry "02"; callErr := None |};
    {| callPath := "/s/2024/01/02/a.jsonl"; callEntry := entryA; callErr := None |};
    {| callPath := "/s/2024/01/02/b.jsonl"; callEntry := entryB; callErr := None |};
    {| callPath := "/s/2024/02"; callEntry := dirEntry "02"; callErr := None |};
    {| callPath := "/s/2024/02/01"; callEntry := dirEntry "01"; callErr := None |};
    {| callPath := "/s/2024/02/01/d.jsonl"; callEntry := entryD; callErr := None |} ].

Definition systemDays : System :=
  {| Stat := λ _, None;
     WalkDir := λ _, callsDays;
     Rel := λ base target, inr (Go.sliceFrom target (Go.len base + 1));
     ToSlash := λ p, p;
     Join := λ elems, Go.Join elems "/";
     ParseSessionMeta := λ _, inr None |}.

Definition dayEarlier : DateKey := {| Year := "2023"; Month := "12"; Day := "31" |}.

Definition dayLater : DateKey := {| Year := "2024"; Month := "02"; Day := "01" |}.

Definition sessionsIdxDays : sessions.Index :=
  (@Refresh asciiText systemDays 7 (NewIndex "/s")).1.

(** Two more lines of a session: a user message whose text ends with the
    marker, and one with a request after the marker.  Pretty-printing
    puts a payload between braces. *)
Definition markerPayload : responseItemPayload :=
  {| pType := "message"; pRole := "user";
     pContent := [ {| rcType := "input_text";
                      rcText := "Context" +:+ String Go.LF marker |} ];
     pName := ""; pArguments := ""; pCallID := ""; pOutput := "" |}.

Definition requestPayload : responseItemPayload :=
  {| pType := "message"; pRole := "user";
     pContent := [ {| rcType := "input_text";
                      rcText := "Hello" +:+ String Go.LF (String Go.LF "") +:+ marker
                                +:+ String Go.LF "Only this" |} ];
     pName := ""; pArguments := ""; pCallID := ""; pOutput := "" |}.

Definition jsonMarker : JSON :=
  {| Unmarshal_envelope := λ lineText,
       if String.eqb lineText "U2"
       then Some {| envTimestamp := "t4"; envType := "response_item"; envPayload := "PX" |}
       else if String.eqb lineText "U3"
       then Some {| envTimestamp := "t5"; envType := "response_item"; envPayload := "PY" |}
       else None;
     Unmarshal_SessionMeta := λ _, None;
     Unmarshal_responseItemPayload := λ raw,
       if String.eqb raw "PX" then Some markerPayload
       else if String.eqb raw "PY" then Some requestPayload
       else None;
     Unmarshal_summary := λ _, None;
     Indent := λ raw, Some ("{ " +:+ raw +:+ " }") |}.

End Sample.

(** * Properties *)

(** ** The ASCII text instance *)
Section AsciiTextFacts.
Import AsciiText.

Lemma trimLeft_allSpace s : allSpace (trimLeft s) = allSpace s.
Proof.
  induction s as [|c s IH]; [done|]. cbn [trimLeft allSpace].
  destruct (isSpace c) eqn:Hc; [done|]. cbn [allSpace]. by rewrite Hc.
Qed.

Lemma trimRight_nil s : trimRight s = "" ↔ allSpace s = true.
Proof.
  induction s as [|c s IH]; [done|]. cbn [trimRight allSpace].
  destruct (trimRight s) eqn:Hr.
  - destruct (isSpace c); [|done]. cbn [andb]. split; [intros _; by apply IH|done].
  - split; [done|]. intros [_ Hs]%andb_true_iff. by apply IH in Hs.
Qed.

Lemma TrimSpace_nil_iff s : TrimSpace s = "" ↔ allSpace s = true.
Proof. unfold TrimSpace. by rewrite trimRight_nil, trimLeft_allSpace. Qed.

Lemma allSpace_app a b : allSpace (a +:+ b) = allSpace a && allSpace b.
Proof.
  induction a as [|c a IH]; [done|].
  change (allSpace (String c (a +:+ b)) = allSpace (String c a) && allSpace b).
  cbn [allSpace]. by rewrite IH, andb_assoc.
Qed.

Lemma TrimSpace_app a b : TrimSpace a ≠ "" → TrimSpace (a +:+ b) ≠ "".
Proof.
  rewrite !TrimSpace_nil_iff, allSpace_app.
  destruct (allSpace a); [done|]. by cbn.
Qed.

End AsciiTextFacts.

(** The ASCII functions have the two properties of [strings.TrimSpace]. *)
Lemma asciiText_laws : @Go.TextLaws asciiText.
Proof.
  split.
  - by vm_compute.
  - intros a b. apply TrimSpace_app.
Qed.

(** ** The merge rule *)
Section MergeFacts.
Context `{!Go.Text} `{!Go.TextLaws}.
Import sessions Spec.

Lemma sameKey_key a b : sameKey a b = true ↔ key a = key b.
Proof.
  unfold sameKey, key. rewrite !andb_true_iff, !String.eqb_eq.
  split; [intros [[-> ->] ->]; reflexivity | intros [= -> -> ->]; auto].
Qed.

Lemma isUserMessage_key a b : key a = key b → isUserMessage a = isUserMessage b.
Proof. unfold key, isUserMessage. intros [= _ -> ->]. reflexivity. Qed.

Lemma absorb_key iu cur item : key (absorb iu cur item) = key cur.
Proof.
  unfold absorb.
  repeat match goal with |- context [if ?b then _ else _] => destruct b end;
    reflexivity.
Qed.

Lemma runs_head x l : ∃ a rs, runs (x :: l) = (x, a) :: rs.
Proof.
  simpl. destruct (runs l) as [|[y ys] rs]; [eauto|].
  destruct (decide (key x = key y)); eauto.
Qed.

Lemma runs_cons_key x y l a rs :
  key x = key y → runs (x :: l) = (x, a) :: rs → runs (y :: l) = (y, a) :: rs.
Proof.
  intros Hk. simpl. destruct (runs l) as [|[z zs] rs']; [congruence|].
  rewrite <- Hk. destruct (decide (key x = key z)); congruence.
Qed.

(** The loop against the runs: what is left of the loop emits the current
    entry, folded over the rest of its run, and then the later runs. *)
Lemma mergeLoop_runs l : ∀ cur out,
  mergeLoop cur (isUserMessage cur) out l = out ++ map foldRun (runs (cur :: l)).
Proof.
  induction l as [|item l IH]; intros cur out; [reflexivity|].
  cbn [mergeLoop]. destruct (sameKey cur item) eqn:Hs.
  - apply sameKey_key in Hs.
    pose proof (absorb_key (isUserMessage cur) cur item) as Hk.
    pose proof (isUserMessage_key _ _ Hk) as Hu.
    specialize (IH (absorb (isUserMessage cur) cur item) out).
    rewrite Hu in IH. rewrite IH.
    destruct (runs_head item l) as (a & rs & Hr).
    rewrite (runs_cons_key item _ l a rs) by congruence.
    change (runs (cur :: item :: l)) with
      (match runs (item :: l) with
       | (y, ys) :: rs =>
           if decide (key cur = key y) then (cur, y :: ys) :: rs
           else (cur, []) :: (y, ys) :: rs
       | [] => [(cur, [])]
       end).
    rewrite Hr, decide_True by done. cbn [map]. do 2 f_equal.
    unfold foldRun. cbn [fst snd fold_left]. rewrite Hu. reflexivity.
  - assert (key cur ≠ key item) as Hne.
    { intros Hk. apply sameKey_key in Hk. congruence. }
    rewrite IH. destruct (runs_head item l) as (a & rs & Hr).
    change (runs (cur :: item :: l)) with
      (match runs (item :: l) with
       | (y, ys) :: rs =>
           if decide (key cur = key y) then (cur, y :: ys) :: rs
           else (cur, []) :: (y, ys) :: rs
       | [] => [(cur, [])]
       end).
    rewrite Hr, decide_False by done.
    cbn [map]. rewrite <- app_assoc. reflexivity.
Qed.

Lemma append_assoc (a b c : string) : (a +:+ b) +:+ c = a +:+ (b +:+ c).
Proof.
  induction a as [|ch a IH]; [reflexivity|].
  change (String ch ((a +:+ b) +:+ c) = String ch (a +:+ (b +:+ c))).
  by rewrite IH.
Qed.

Lemma Join_cons_cons t u ts sep :
  Go.Join (t :: u :: ts) sep = t +:+ sep +:+ Go.Join (u :: ts) sep.
Proof. reflexivity. Qed.

Lemma withContent_same cur : withContent cur (Content cur) = cur.
Proof. by destruct cur. Qed.

Lemma withContent_twice cur c c' :
  withContent (withContent cur c) c' = withContent cur c'.
Proof. reflexivity. Qed.

Lemma last_cons_default {A} (x : A) (l : list A) (d d' : A) :
  List.last (x :: l) d = List.last (x :: l) d'.
Proof.
  revert x. induction l as [|y l IH]; intros x; [done|]. exact (IH y).
Qed.

(** A run of user messages folds to the fields of its last message. *)
Lemma fold_absorb_user rest : ∀ cur,
  Forall (λ item, isUserMessage item = true) rest →
  fold_left (absorb true) rest cur =
    let final := List.last rest cur in
    {| Line := Line final; Timestamp := Timestamp final; Type_ := Type_ cur;
       Subtype := Subtype cur; Role := Role cur; Title := Title cur;
       Content := Content final; Raw := Raw final; Class_ := Class_ cur |}.
Proof.
  induction rest as [|item rest IH]; intros cur Hall.
  - by destruct cur.
  - apply Forall_cons in Hall as [Hu Hall].
    cbn [fold_left]. rewrite IH by done.
    unfold absorb. rewrite Hu. cbn [andb].
    change (List.last (item :: rest) cur) with
      (match rest with [] => item | _ => List.last rest cur end).
    destruct rest as [|x rest]; [reflexivity|].
    cbn zeta. cbn [Type_ Subtype Role Title Class_].
    set (cur' := {| Line := Line item |}).
    by rewrite (last_cons_default x rest cur' cur).
Qed.

Lemma absorb_other cur item :
  absorb false cur item =
    if decide (nonEmpty (Content item)) then
      if decide (nonEmpty (Content cur)) then
        withContent cur (Content cur +:+ blankLine +:+ Content item)
      else withContent cur (Content item)
    else cur.
Proof.
  unfold absorb, nonEmpty. cbn [andb].
  destruct (String.eqb_spec (Go.TrimSpace (Content item)) "");
    destruct (String.eqb_spec (Go.TrimSpace (Content cur)) "");
    repeat case_decide; done.
Qed.

(** Any other run folds to the first entry with the joined non-empty
    contents. *)
Lemma fold_absorb_other rest : ∀ cur,
  fold_left (absorb false) rest cur =
    match filter nonEmpty (map Content (cur :: rest)) with
    | [] => cur
    | texts => withContent cur (Go.Join texts blankLine)
    end.
Proof.
  induction rest as [|item rest IH]; intros cur.
  - cbn [fold_left map]. rewrite filter_cons, filter_nil.
    destruct (decide (nonEmpty (Content cur))); [|done].
    by rewrite <- (withContent_same cur) at 1.
  - cbn [fold_left]. rewrite absorb_other. cbn [map]. rewrite !filter_cons.
    destruct (decide (nonEmpty (Content item))) as [Hi|Hi].
    + destruct (decide (nonEmpty (Content cur))) as [Hc|Hc].
      * rewrite IH. cbn [map withContent Content]. rewrite filter_cons.
        rewrite decide_True by (apply Go.TrimSpace_blank_line; done).
        destruct (filter nonEmpty (map Content rest)) as [|t ts]; [done|].
        rewrite withContent_twice. f_equal.
        rewrite !Join_cons_cons. by rewrite !append_assoc.
      * rewrite IH. cbn [map withContent Content]. rewrite filter_cons.
        by rewrite decide_True by done.
    + rewrite IH. cbn [map]. by rewrite filter_cons.
Qed.

Lemma runs_keys items :
  Forall (λ r, Forall (λ item, key item = key r.1) r.2) (runs items).
Proof.
  induction items as [|x l IH]; [constructor|].
  simpl. destruct (runs l) as [|[y ys] rs]; [repeat constructor|].
  apply Forall_cons in IH as [Hy Hrs]. cbn [fst snd] in Hy.
  destruct (decide (key x = key y)) as [e|n].
  - constructor; [|done]. cbn [fst snd]. constructor; [done|].
    eapply Forall_impl; [exact Hy|]. intros ??; congruence.
  - repeat constructor; done.
Qed.

Lemma runs_maximal items :
  Sorted (λ r1 r2, key r1.1 ≠ key r2.1) (runs items).
Proof.
  induction items as [|x l IH]; [constructor|].
  simpl. destruct (runs l) as [|[y ys] rs]; [repeat constructor|].
  destruct (decide (key x = key y)) as [e|n].
  - apply Sorted_inv in IH as [Hs Hh]. constructor; [done|].
    destruct Hh as [|r rs' Hr]; constructor. cbn [fst] in *. congruence.
  - constructor; [done|]. by constructor.
Qed.

Lemma unruns_runs items : unruns (runs items) = items.
Proof.
  induction items as [|x l IH]; [reflexivity|].
  simpl. destruct (runs l) as [|[y ys] rs].
  - by rewrite <- IH.
  - destruct (decide (key x = key y)); by rewrite <- IH.
Qed.

Lemma foldRun_collapseRun r :
  Forall (λ item, key item = key r.1) r.2 → foldRun r = collapseRun r.
Proof.
  destruct r as [first rest]. unfold foldRun, collapseRun. cbn [fst snd].
  intros Hk. destruct (isUserMessage first) eqn:Hu.
  - apply fold_absorb_user. eapply Forall_impl; [exact Hk|].
    intros item Hi. cbn beta in Hi. by rewrite (isUserMessage_key _ _ Hi).
  - apply fold_absorb_other.
Qed.

Lemma mergeConsecutive_foldRun items :
  mergeConsecutive items = map foldRun (runs items).
Proof.
  destruct items as [|x l]; [reflexivity|].
  unfold mergeConsecutive. by rewrite mergeLoop_runs.
Qed.

(** On contents that are all non-empty, as the parser produces them, a
    run that is not one of user messages collapses to its first entry with
    all the contents of the run joined by a blank line. *)
Lemma collapseRun_all_nonEmpty first rest :
  isUserMessage first = false →
  Forall (λ item, nonEmpty (Content item)) (first :: rest) →
  collapseRun (first, rest) =
    withContent first (Go.Join (map Content (first :: rest)) blankLine).
Proof.
  intros Hu Hall. unfold collapseRun. rewrite Hu.
  assert (filter nonEmpty (map Content (first :: rest)) = map Content (first :: rest))
    as ->.
  { induction Hall as [|x l Hx Hall IH]; [done|]. cbn [map].
    by rewrite filter_cons, decide_True, IH. }
  done.
Qed.

(** C5.  The merge step leaves the entries in order and turns every maximal
    run of adjacent entries with one (type, subtype, role) into one entry:
    the runs of [items], concatenated, are [items]; inside a run all
    entries have the key of the first; neighbouring runs differ in their
    key; and the output is the list of the collapsed runs, where a run of
    user messages collapses to its last message's content, line and
    timestamp and any other run to its first entry with the non-empty
    contents joined by a blank line ([collapseRun]). *)
Theorem mergeConsecutive_collapses_runs (items : list RenderItem) :
  unruns (runs items) = items
  ∧ Forall (λ r, Forall (λ item, key item = key r.1) r.2) (runs items)
  ∧ Sorted (λ r1 r2, key r1.1 ≠ key r2.1) (runs items)
  ∧ mergeConsecutive items = map collapseRun (runs items).
Proof.
  split_and!; [apply unruns_runs|apply runs_keys|apply runs_maximal|].
  rewrite mergeConsecutive_foldRun. apply map_ext_Forall.
  eapply Forall_impl; [apply runs_keys|]. intros r. apply foldRun_collapseRun.
Qed.

Lemma foldRun_key r : key (foldRun r) = key r.1.
Proof.
  destruct r as [first rest]. unfold foldRun. cbn [fst snd].
  generalize (isUserMessage first) as iu. intros iu.
  revert first. induction rest as [|item rest IH]; intros first; [done|].
  cbn [fold_left]. by rewrite IH, absorb_key.
Qed.

Lemma Sorted_map {A B} (R : B → B → Prop) (f : A → B) (l : list A) :
  Sorted (λ a b, R (f a) (f b)) l → Sorted R (map f l).
Proof.
  induction 1 as [|x l Hs IH Hh]; [constructor|].
  cbn [map]. constructor; [done|]. destruct Hh; constructor; done.
Qed.

Lemma runs_distinct l :
  Sorted (λ a b, key a ≠ key b) l → runs l = map (λ x, (x, [])) l.
Proof.
  induction 1 as [|x l Hs IH Hh]; [done|].
  cbn [runs map]. rewrite IH. destruct Hh as [|y l' Hxy]; [done|].
  cbn [map]. by rewrite decide_False.
Qed.

(** C10.  In the output of the merge step no two neighbours have the same
    (type, subtype, role), and merging the output again changes nothing. *)
Theorem mergeConsecutive_idempotent (items : list RenderItem) :
  Sorted (λ a b, key a ≠ key b) (mergeConsecutive items)
  ∧ mergeConsecutive (mergeConsecutive items) = mergeConsecutive items.
Proof.
  assert (Sorted (λ a b, key a ≠ key b) (mergeConsecutive items)) as Hs.
  { rewrite mergeConsecutive_foldRun. apply Sorted_map.
    eapply Sorted_ind with (P := λ rs, Sorted _ rs); [constructor| |apply runs_maximal].
    intros r rs _ IH Hh. constructor; [done|].
    destruct Hh as [|r' rs' Hr]; constructor. by rewrite !foldRun_key. }
  split; [done|].
  rewrite (mergeConsecutive_foldRun (mergeConsecutive items)), runs_distinct by done.
  rewrite map_map. cbn. apply map_id.
Qed.

End MergeFacts.


(** ** The request marker *)
Section TrimFacts.
Context `{!Go.Text}.
Import sessions Spec.

Lemma append_cons c a b : String c a +:+ b = String c (a +:+ b).
Proof. reflexivity. Qed.

Lemma HasPrefix_spec s m : Go.HasPrefix s m = true ↔ ∃ suf, s = m +:+ suf.
Proof.
  revert s. induction m as [|p m IH]; intros s.
  - destruct s; (split; [intros _; eexists; reflexivity|done]).
  - destruct s as [|c s]; cbn [Go.HasPrefix].
    + split; [done|]. intros [suf Hs]. discriminate Hs.
    + destruct (Ascii.eqb_spec p c) as [->|Hne].
      * rewrite IH. split; intros [suf Hs]; exists suf.
        -- by rewrite append_cons, <- Hs.
        -- rewrite append_cons in Hs. congruence.
      * split; [done|]. intros [suf Hs]. rewrite append_cons in Hs. congruence.
Qed.

Lemma occursAt_0 s m : occursAt s m 0 ↔ Go.HasPrefix s m = true.
Proof.
  rewrite HasPrefix_spec. split.
  - intros (pre & suf & -> & Hl). destruct pre; [|done]. by exists suf.
  - intros [suf ->]. by exists "", suf.
Qed.

Lemma occursAt_S c s m i : occursAt (String c s) m (S i) ↔ occursAt s m i.
Proof.
  split.
  - intros (pre & suf & Hs & Hl). destruct pre as [|c' pre]; [done|].
    rewrite append_cons in Hs. cbn in Hl. exists pre, suf. split; congruence.
  - intros (pre & suf & -> & Hl). exists (String c pre), suf.
    split; [done|]. cbn. by rewrite Hl.
Qed.

Lemma IndexFrom_unfold i s m :
  Go.IndexFrom i s m =
    if Go.HasPrefix s m then i
    else match s with
         | EmptyString => -1
         | String _ s' => Go.IndexFrom (i + 1) s' m
         end.
Proof. by destruct s. Qed.

Lemma IndexFrom_none s m i :
  (∀ j, ¬ occursAt s m j) → Go.IndexFrom i s m = -1.
Proof.
  revert i. induction s as [|c s IH]; intros i Hno; cbn [Go.IndexFrom].
  - destruct (Go.HasPrefix "" m) eqn:Hp; [|done].
    by apply occursAt_0, Hno in Hp.
  - destruct (Go.HasPrefix (String c s) m) eqn:Hp.
    + by apply occursAt_0, Hno in Hp.
    + apply IH. intros j Hj. by apply (Hno (S j)), occursAt_S.
Qed.

Lemma IndexFrom_first pre : ∀ s m suf i,
  s = pre +:+ m +:+ suf →
  (∀ j, (j < String.length pre)%nat → ¬ occursAt s m j) →
  Go.IndexFrom i s m = i + Z.of_nat (String.length pre).
Proof.
  induction pre as [|c pre IH]; intros s m suf i -> Hfirst.
  - change ("" +:+ m +:+ suf) with (m +:+ suf).
    rewrite IndexFrom_unfold, (proj2 (HasPrefix_spec _ m)) by (exists suf; done).
    cbn; lia.
  - rewrite append_cons. cbn [Go.IndexFrom].
    destruct (Go.HasPrefix _ m) eqn:Hp.
    + apply occursAt_0 in Hp. exfalso.
      apply (Hfirst 0%nat); [cbn; lia|]. by rewrite append_cons.
    + rewrite (IH _ m suf (i + 1) eq_refl).
      * cbn [String.length]. lia.
      * intros j Hj Hocc. apply (Hfirst (S j)); [cbn; lia|].
        rewrite append_cons. by apply occursAt_S.
Qed.

Lemma string_length_app a b :
  String.length (a +:+ b) = (String.length a + String.length b)%nat.
Proof.
  induction a as [|c a IH]; [done|]. rewrite append_cons. cbn. by rewrite IH.
Qed.

Lemma substring_all s : String.substring 0 (String.length s) s = s.
Proof. induction s as [|c s IH]; [done|]. cbn. by rewrite IH. Qed.

Lemma substring_skip a b n :
  String.substring (String.length a) n (a +:+ b) = String.substring 0 n b.
Proof.
  induction a as [|c a IH]; [done|]. rewrite append_cons. cbn. exact IH.
Qed.

Lemma sliceFrom_app a b : Go.sliceFrom (a +:+ b) (Go.len a) = b.
Proof.
  unfold Go.sliceFrom, Go.len. rewrite Nat2Z.id, substring_skip, string_length_app.
  replace (String.length a + String.length b - String.length a)%nat
    with (String.length b) by lia.
  apply substring_all.
Qed.

(** What [trimUserRequest] returns.  With the trim flag off the text
    passes through; so does a text without the marker, whatever the flag;
    with the flag on, a text with the marker becomes what follows the first
    occurrence of the marker, trimmed. *)
Theorem trimUserRequest_marker (enabled : bool) (content : string) :
  (enabled = false → trimUserRequest enabled content = content)
  ∧ ((∀ i, ¬ occursAt content marker i) → trimUserRequest enabled content = content)
  ∧ (∀ pre suf,
       enabled = true →
       content = pre +:+ marker +:+ suf →
       (∀ j, (j < String.length pre)%nat → ¬ occursAt content marker j) →
       trimUserRequest enabled content = Go.TrimSpace suf).
Proof.
  unfold trimUserRequest, Go.Index. split_and!.
  - by intros ->.
  - intros Hno. rewrite IndexFrom_none by done. by destruct enabled.
  - intros pre suf -> Hc Hfirst.
    rewrite (IndexFrom_first pre content marker suf 0 Hc Hfirst). cbn [negb].
    destruct (Z.eqb_spec (0 + Z.of_nat (String.length pre)) (-1)) as [?|_]; [lia|].
    f_equal. subst content. rewrite <- append_assoc.
    replace (0 + Z.of_nat (String.length pre) + Go.len marker)
      with (Go.len (pre +:+ marker)).
    + apply sliceFrom_app.
    + unfold Go.len. rewrite string_length_app. lia.
Qed.

Lemma IndexFrom_contains m s : ∀ i,
  0 ≤ i →
  if contains s m then i ≤ Go.IndexFrom i s m else Go.IndexFrom i s m = -1.
Proof.
  induction s as [|c s IH]; intros i Hi; cbn [contains Go.IndexFrom].
  - destruct (Go.HasPrefix "" m); cbn [orb]; [lia|done].
  - destruct (Go.HasPrefix (String c s) m); cbn [orb]; [lia|].
    specialize (IH (i + 1) ltac:(lia)). destruct (contains s m); [lia|done].
Qed.

Lemma Index_contains s m : (Go.Index s m =? -1) = negb (contains s m).
Proof.
  unfold Go.Index. pose proof (IndexFrom_contains m s 0 ltac:(lia)) as Hc.
  destruct (contains s m); cbn [negb].
  - apply Z.eqb_neq. lia.
  - by apply Z.eqb_eq.
Qed.

(** When [Index] returns [k], there is no occurrence before offset [k]. *)
Lemma IndexFrom_no_earlier m s : ∀ i k j,
  0 ≤ i → Go.IndexFrom i s m = i + Z.of_nat k → (j < k)%nat → ¬ occursAt s m j.
Proof.
  induction s as [|c s IH]; intros i k j Hi Hk Hj; rewrite IndexFrom_unfold in Hk.
  - destruct (Go.HasPrefix "" m); lia.
  - destruct (Go.HasPrefix (String c s) m) eqn:Hp; [lia|].
    pose proof (IndexFrom_contains m s (i + 1) ltac:(lia)) as Hc.
    destruct k as [|k]; [lia|]. destruct j as [|j].
    + rewrite occursAt_0. congruence.
    + rewrite occursAt_S. apply (IH (i + 1) k j); lia.
Qed.

Lemma Index_no_earlier s m k :
  Go.Index s m = Z.of_nat k → ∀ j, (j < k)%nat → ¬ occursAt s m j.
Proof.
  intros Hk j. apply (IndexFrom_no_earlier m s 0 k j); [lia|]. by rewrite <- Hk.
Qed.

End TrimFacts.


(** ** The content of a user message *)
Section UserMessageFacts.
Import sessions Spec.
Context `{!Go.Text} `{!JSON}.

Lemma fallbackEmpty_decide c :
  fallbackEmpty c = if decide (Go.TrimSpace c = "") then "(empty)" else c.
Proof.
  unfold fallbackEmpty. destruct (String.eqb_spec (Go.TrimSpace c) ""); by case_decide.
Qed.

(** C7, corrected.  A line whose payload is a message of the user becomes
    an entry of the user.  The parser keeps the extracted text of the
    message when the trim flag is off, and when the text does not contain
    the marker, whatever the flag; with the flag on it keeps of a text with
    the marker what follows the first occurrence of the marker, trimmed.
    The content of the entry is the kept text only when that is not empty:
    when nothing is kept (a text that ends with the marker, or an empty
    text) the content is the pretty-printed payload of the line, and
    "(empty)" when what would be shown is blank. *)
Theorem userMessage_content (enabled : bool) (env : envelope) (lineText : string)
    (lineNum : Z) (payload : responseItemPayload) :
  Unmarshal_responseItemPayload (envPayload env) = Some payload →
  pType payload = "message" →
  pRole payload = "user" →
  let text := extractContentText (pContent payload) in
  ∃ item,
    parseResponseItem enabled env lineText lineNum = Some item
    ∧ isUserMessage item = true
    ∧ (enabled = false → Content item = shown (envPayload env) text)
    ∧ ((∀ i, ¬ occursAt text marker i) → Content item = shown (envPayload env) text)
    ∧ (∀ pre suf,
         enabled = true →
         text = pre +:+ marker +:+ suf →
         (∀ j, (j < String.length pre)%nat → ¬ occursAt text marker j) →
         Content item = shown (envPayload env) (Go.TrimSpace suf)).
Proof.
  intros Hp Ht Hr text. unfold parseResponseItem. rewrite Hp. cbv beta iota zeta.
  rewrite Ht, Hr. change (String.eqb "message" "message") with true.
  change (String.eqb "user" "user") with true. cbv beta iota. cbn [negb andb].
  eexists. split; [reflexivity|]. unfold isUserMessage. cbn [Content Subtype Role].
  split; [reflexivity|]. fold text.
  assert (∀ kept, trimUserRequest enabled text = kept →
    fallbackEmpty (if String.eqb (trimUserRequest enabled text) ""
                   then prettyJSON (envPayload env) else trimUserRequest enabled text)
      = shown (envPayload env) kept) as Hk.
  { intros kept ->. rewrite fallbackEmpty_decide. unfold shown.
    destruct (String.eqb_spec kept ""); repeat case_decide; congruence. }
  destruct (trimUserRequest_marker enabled text) as (Hoff & Hno & Hon).
  split_and!.
  - intros He. by apply Hk, Hoff.
  - intros Hn. by apply Hk, Hno.
  - intros pre suf He Htext Hfirst. by apply Hk, Hon with pre.
Qed.

(** A kept text that is not blank is shown as it is; when nothing is kept
    the payload is shown, if it is not blank. *)
Lemma shown_kept payload kept :
  Go.TrimSpace kept ≠ "" → kept ≠ "" → shown payload kept = kept.
Proof. intros Hn He. unfold shown. by repeat case_decide. Qed.

Lemma shown_nothing payload :
  Go.TrimSpace (prettyJSON payload) ≠ "" → shown payload "" = prettyJSON payload.
Proof. intros Hn. unfold shown. by repeat case_decide. Qed.

End UserMessageFacts.


(** ** The header of a parsed session *)
Section HeaderFacts.
Import sessions Spec.
Context `{!Go.Text} `{!JSON} `{!Files}.
Variable enabled : bool.

Lemma parseLine_Meta lineText lineNum session :
  Meta (parseLine enabled lineText lineNum session).2 =
    match headerOfLine lineText with
    | Some meta => Some meta
    | None => Meta session
    end.
Proof.
  unfold parseLine, headerOfLine.
  destruct (Unmarshal_envelope lineText) as [env|]; [|done].
  destruct (String.eqb_spec (envType env) "session_meta") as [He|He].
  - rewrite decide_True by done.
    by destruct (Unmarshal_SessionMeta (envPayload env)).
  - rewrite decide_False by done.
    by destruct (String.eqb (envType env) "response_item").
Qed.

Lemma parseChunk_Meta lineNum session chunk :
  Meta (parseChunk enabled (lineNum, session) chunk).2 =
    if decide (chunk ≠ "") then
      match headerOfLine (Go.TrimRightCRLF chunk) with
      | Some meta => Some meta
      | None => Meta session
      end
    else Meta session.
Proof.
  unfold parseChunk. destruct chunk as [|c chunk].
  - by rewrite decide_False by (intros ?; done).
  - rewrite decide_True by done.
    replace (0 <? Go.len (String c chunk)) with true
      by (symmetry; apply Z.ltb_lt; unfold Go.len; cbn; lia).
    rewrite <- parseLine_Meta with (lineNum := lineNum + 1).
    by destruct (parseLine _ _ _ _) as [[item|] session'].
Qed.

Lemma fold_parseChunk_Meta chunks : ∀ lineNum session,
  Meta (fold_left (parseChunk enabled) chunks (lineNum, session)).2 =
    match last (omap headerOfLine
                  (map Go.TrimRightCRLF (filter (λ chunk, chunk ≠ "") chunks))) with
    | Some meta => Some meta
    | None => Meta session
    end.
Proof.
  induction chunks as [|chunk chunks IH]; intros lineNum session; [done|].
  cbn [fold_left].
  destruct (parseChunk enabled (lineNum, session) chunk) as [n' s'] eqn:Hstep.
  rewrite IH. pose proof (parseChunk_Meta lineNum session chunk) as Hm.
  rewrite Hstep in Hm. cbn [snd] in Hm. rewrite Hm, filter_cons.
  destruct (decide (chunk ≠ "")); [|done].
  cbn [map]. cbn [omap list_omap].
  destruct (headerOfLine (Go.TrimRightCRLF chunk)) as [meta|]; [|done].
  rewrite last_cons. by destruct (last _).
Qed.

(** C9.  A line whose envelope and "session_meta" payload both decode
    replaces the header of the session, whatever it was; and for a file that
    is read to its end [ParseSession] succeeds with the header of the last
    such line (no header when there is none). *)
Theorem ParseSession_last_meta_wins :
  (∀ lineText lineNum session meta,
     headerOfLine lineText = Some meta →
     Meta (parseLine enabled lineText lineNum session).2 = Some meta)
  ∧ (∀ path content,
       Open path = inr (content, None) →
       ∃ session,
         ParseSession enabled path = inr session
         ∧ Meta session = last (omap headerOfLine (lines content))).
Proof.
  split.
  - intros lineText lineNum session meta Hh. by rewrite parseLine_Meta, Hh.
  - intros path content Hopen. unfold ParseSession. rewrite Hopen.
    pose proof (fold_parseChunk_Meta (readChunks content) 0
                  {| Path := path; Meta := None; Items := [] |}) as Hm.
    destruct (fold_left _ _ _) as [n session]. cbn [snd] in Hm.
    eexists. split; [reflexivity|]. cbn [Meta]. rewrite Hm.
    unfold lines. by destruct (last _).
Qed.

End HeaderFacts.


(** ** The scanner: refresh is all or nothing *)
Section RefreshFacts.
Import sessions Spec.
Context `{!Go.Text} `{!System}.

Lemma walk_error base calls : ∀ m call,
  call ∈ calls → is_Some (callErr call) → ∃ err, walk base calls m = inl err.
Proof.
  induction calls as [|c calls IH]; intros m call Hin Herr.
  - by apply elem_of_nil in Hin.
  - cbn [walk]. destruct (walkFn base m c) as [err|m'] eqn:Hfn; [eauto|].
    apply elem_of_cons in Hin as [->|Hin]; [|eauto].
    destruct Herr as [err Herr]. unfold walkFn in Hfn. by rewrite Herr in Hfn.
Qed.

Lemma Refresh_success now idx idx' :
  Refresh now idx = (idx', None) →
  baseDir idx ≠ "" ∧ Stat (baseDir idx) = None
  ∧ ∃ dates names cwds,
      walk (baseDir idx) (WalkDir (baseDir idx)) (∅, ∅, ∅) = inr (dates, names, cwds)
      ∧ idx' = {| baseDir := baseDir idx;
                  byDate := Go.sortSlice fileLess <$> dates;
                  byName := names; byCwd := cwds; updated := now |}.
Proof.
  unfold Refresh. destruct (String.eqb_spec (baseDir idx) ""); [done|].
  destruct (Stat (baseDir idx)); [done|].
  destruct (walk _ _ _) as [e|[[dates names] cwds]]; [done|].
  intros [= <-]. split_and!; [done..|]. by exists dates, names, cwds.
Qed.

Lemma Refresh_failure now idx idx' err :
  Refresh now idx = (idx', Some err) → idx' = idx.
Proof.
  unfold Refresh. destruct (String.eqb (baseDir idx) ""); [congruence|].
  destruct (Stat (baseDir idx)); [congruence|].
  destruct (walk _ _ _) as [e|[[dates names] cwds]]; [congruence|done].
Qed.

(** C1.  [Refresh] fails when the base directory is unset, when it cannot
    be read, and when the walk reports an error; a failing [Refresh] leaves
    the index as it was, all three maps included; a successful one
    replaces the three maps in one step by those built from empty maps
    during one walk. *)
Theorem Refresh_all_or_nothing (now : Z) (idx : Index) :
  (baseDir idx = "" → ∃ err, Refresh now idx = (idx, Some err))
  ∧ (is_Some (Stat (baseDir idx)) → ∃ err, Refresh now idx = (idx, Some err))
  ∧ (∀ call, call ∈ WalkDir (baseDir idx) → is_Some (callErr call) →
       ∃ err, Refresh now idx = (idx, Some err))
  ∧ (∀ idx' err, Refresh now idx = (idx', Some err) →
       idx' = idx ∧ byDate idx' = byDate idx ∧ byName idx' = byName idx
       ∧ byCwd idx' = byCwd idx)
  ∧ (∀ idx', Refresh now idx = (idx', None) →
       baseDir idx ≠ "" ∧ Stat (baseDir idx) = None
       ∧ ∃ dates names cwds,
           walk (baseDir idx) (WalkDir (baseDir idx)) (∅, ∅, ∅)
             = inr (dates, names, cwds)
           ∧ byDate idx' = (Go.sortSlice fileLess <$> dates)
           ∧ byName idx' = names
           ∧ byCwd idx' = cwds).
Proof.
  split_and!.
  - intros He. unfold Refresh. rewrite He. cbn. eauto.
  - intros [e He]. unfold Refresh. rewrite He.
    destruct (String.eqb (baseDir idx) ""); eauto.
  - intros call Hin Herr. unfold Refresh.
    destruct (String.eqb (baseDir idx) ""); [eauto|].
    destruct (Stat (baseDir idx)); [eauto|].
    destruct (walk_error (baseDir idx) _ (∅, ∅, ∅) call Hin Herr) as [err ->]. eauto.
  - by intros idx' err ->%Refresh_failure.
  - intros idx' (Hb & Hs & dates & names & cwds & Hw & ->)%Refresh_success.
    split_and!; [done..|]. by exists dates, names, cwds.
Qed.

End RefreshFacts.


(** ** Sorting *)
Lemma StronglySorted_weaken {A} (R1 R2 : A → A → Prop) (l : list A) :
  (∀ x y, x ∈ l → y ∈ l → R1 x y → R2 x y) →
  StronglySorted R1 l → StronglySorted R2 l.
Proof.
  intros Himpl Hs. induction Hs as [|x l Hs IH Hall]; [constructor|].
  constructor.
  - apply IH. intros y z Hy Hz. apply Himpl; apply elem_of_cons; by right.
  - apply Forall_forall. intros y Hy. apply Himpl.
    + apply elem_of_cons; by left.
    + apply elem_of_cons; by right.
    + by eapply Forall_forall in Hall.
Qed.

Section SortFacts.
Context {A : Type} (less : A → A → bool).

Lemma insertSorted_Permutation x l : Go.insertSorted less x l ≡ₚ x :: l.
Proof.
  induction l as [|y l IH]; [done|]. cbn [Go.insertSorted].
  destruct (less y x); [|done]. rewrite IH. apply Permutation_swap.
Qed.

Lemma sortSlice_Permutation l : Go.sortSlice less l ≡ₚ l.
Proof.
  induction l as [|x l IH]; [done|]. unfold Go.sortSlice. cbn [foldr].
  rewrite insertSorted_Permutation. by constructor.
Qed.

Section Order.
Variables (P : A → Prop) (le : A → A → Prop).
Hypothesis not_less_le : ∀ x y, P x → P y → less y x = false → le x y.
Hypothesis less_le : ∀ x y, P x → P y → less x y = true → le x y.

Lemma insertSorted_HdRel y x l :
  le y x → HdRel le y l → HdRel le y (Go.insertSorted less x l).
Proof.
  intros Hyx Hl. destruct l as [|z l]; cbn [Go.insertSorted]; [by constructor|].
  destruct (less z x); constructor; [by inversion Hl|done].
Qed.

Lemma insertSorted_Sorted x l :
  P x → Forall P l → Sorted le l → Sorted le (Go.insertSorted less x l).
Proof.
  intros Hx. induction l as [|y l IH]; intros HP Hs; cbn [Go.insertSorted].
  - by repeat constructor.
  - apply Forall_cons in HP as [Hy HP]. apply Sorted_inv in Hs as [Hs Hh].
    destruct (less y x) eqn:Hless.
    + constructor; [by apply IH|]. apply insertSorted_HdRel; auto.
    + constructor; [by constructor|]. constructor. auto.
Qed.

Lemma sortSlice_Sorted l : Forall P l → Sorted le (Go.sortSlice less l).
Proof.
  induction l as [|x l IH]; intros HP; [constructor|].
  apply Forall_cons in HP as [Hx HP]. unfold Go.sortSlice. cbn [foldr].
  apply insertSorted_Sorted; [done| |by apply IH].
  by rewrite (sortSlice_Permutation l).
Qed.

End Order.

(** Whatever algorithm sorts: a permutation of [l] that is in order for
    [less] is the slice that insertion sort returns, provided [less] is a
    strict total order on the elements of [l]. *)
Lemma sorted_permutation_unique (l l' : list A) :
  (∀ x y, x ∈ l → y ∈ l → less x y = true → less y x = false) →
  (∀ x y, x ∈ l → y ∈ l → less x y = false → less y x = false → x = y) →
  (∀ x y z, x ∈ l → y ∈ l → z ∈ l →
     less y x = false → less z y = false → less z x = false) →
  l' ≡ₚ l →
  StronglySorted (λ a b, less b a = false) l' →
  l' = Go.sortSlice less l.
Proof.
  intros Hasym Htotal Htrans Hperm Hsorted.
  assert (Sorted (λ a b, a ∈ l ∧ b ∈ l ∧ less b a = false) (Go.sortSlice less l))
    as Hs.
  { apply sortSlice_Sorted with (P := λ x, x ∈ l).
    - intros x y Hx Hy Hl. done.
    - intros x y Hx Hy Hl. split_and!; [done..|]. by apply Hasym.
    - by apply Forall_forall. }
  apply Sorted_StronglySorted in Hs.
  2:{ intros x y z (Hx & Hy & Hxy) (_ & Hz & Hyz). split_and!; [done..|]. eauto. }
  eapply StronglySorted_unique_strong with (R := λ a b, less b a = false).
  - intros x y Hx Hy Hxy Hyx. rewrite Hperm in Hx.
    rewrite sortSlice_Permutation in Hy. by apply Htotal.
  - done.
  - eapply StronglySorted_weaken; [|exact Hs]. by intros x y _ _ (_ & _ & ?).
  - by rewrite sortSlice_Permutation.
Qed.

End SortFacts.


(** ** The scanner: what a successful walk builds *)
Section GroupFacts.
Context {K : Type} `{Countable K} {A : Type} (key : A → K).

Lemma lookup_fold_pushTo xs : ∀ (m : gmap K (list A)) k,
  default [] (fold_left (λ m x, Spec.pushTo (key x) x m) xs m !! k) =
    default [] (m !! k) ++ filter (λ x, key x = k) xs.
Proof.
  induction xs as [|x xs IH]; intros m k.
  - cbn. by rewrite app_nil_r.
  - cbn [fold_left]. rewrite IH, filter_cons. unfold Spec.pushTo.
    destruct (decide (key x = k)) as [<-|Hne].
    + rewrite lookup_insert_eq. cbn. by rewrite <- app_assoc.
    + by rewrite lookup_insert_ne.
Qed.

Lemma is_Some_fold_pushTo xs : ∀ (m : gmap K (list A)) k,
  is_Some (fold_left (λ m x, Spec.pushTo (key x) x m) xs m !! k) ↔
    is_Some (m !! k) ∨ ∃ x, x ∈ xs ∧ key x = k.
Proof.
  induction xs as [|x xs IH]; intros m k.
  - cbn. split; [by left|]. intros [?|(x & Hx & _)]; [done|].
    by apply elem_of_nil in Hx.
  - cbn [fold_left]. rewrite IH. unfold Spec.pushTo.
    destruct (decide (key x = k)) as [<-|Hne].
    + rewrite lookup_insert_eq. split; [|intros _; left; eauto].
      intros _. right. exists x. split; [apply elem_of_cons; by left|done].
    + rewrite lookup_insert_ne by done. split.
      * intros [?|(y & Hy & Hk)]; [by left|].
        right. exists y. split; [apply elem_of_cons; by right|done].
      * intros [?|(y & Hy & Hk)]; [by left|].
        apply elem_of_cons in Hy as [->|Hy]; [done|]. right. eauto.
Qed.

End GroupFacts.

Section WalkFacts.
Import sessions Spec.
Context `{!Go.Text} `{!System}.

Lemma walkFn_ok base m call m' :
  walkFn base m call = inr m' →
  m' = match fileOfCall base call with
       | Some f => addFile m f
       | None => m
       end.
Proof.
  unfold walkFn, fileOfCall.
  destruct (callErr call); [done|].
  destruct (EntryIsDir (callEntry call)); cbn [orb]; [congruence|].
  destruct (Go.HasSuffix _ _); cbn [negb]; [|congruence].
  destruct (Rel base (callPath call)) as [e|rel]; [done|].
  destruct (Go.SplitByte (ToSlash rel) "/") as [|p0 [|p1 [|p2 [|p3 [|p4 ps]]]]];
    try congruence.
  destruct (ParseDate p0 p1 p2) as [date|]; [|congruence].
  destruct (EntryInfo (callEntry call)) as [e|info]; [done|].
  destruct m as [[dates names] cwds]. intros [= <-]. unfold addFile.
  cbn [Date Name]. by destruct (ParseSessionMeta (callPath call)).
Qed.

Lemma walk_ok base calls : ∀ m m',
  walk base calls m = inr m' →
  m' = fold_left addFile (omap (fileOfCall base) calls) m.
Proof.
  induction calls as [|call calls IH]; intros m m'; cbn [walk].
  - by intros [= <-].
  - destruct (walkFn base m call) as [e|m1] eqn:Hfn; [done|].
    intros Hw. apply IH in Hw as ->. apply walkFn_ok in Hfn as ->.
    cbn [omap list_omap]. by destruct (fileOfCall base call).
Qed.

Lemma fold_addFile_dates fs : ∀ m,
  (fold_left addFile fs m).1.1 =
    fold_left (λ dates f, pushTo (Date f) f dates) fs m.1.1.
Proof.
  induction fs as [|f fs IH]; intros [[dates names] cwds]; [done|].
  cbn [fold_left]. by rewrite IH.
Qed.

Lemma fold_addFile_cwds fs : ∀ m,
  (fold_left addFile fs m).2 =
    fold_left (λ cwds f, pushTo (CwdForFile f) f cwds) fs m.2.
Proof.
  induction fs as [|f fs IH]; intros [[dates names] cwds]; [done|].
  cbn [fold_left]. by rewrite IH.
Qed.

Lemma ParseDate_Some year month day date :
  ParseDate year month day = Some date →
  date = {| Year := year; Month := month; Day := day |}.
Proof.
  unfold ParseDate. destruct (_ || _ || _); [done|].
  destruct (_ || _ || _); [done|]. by intros [= <-].
Qed.

Lemma fileOfCall_validDate base call f :
  fileOfCall base call = Some f → validDate (Date f).
Proof.
  unfold fileOfCall, validDate.
  destruct (_ || _); [done|].
  destruct (Rel base (callPath call)) as [e|rel]; [done|].
  destruct (Go.SplitByte (ToSlash rel) "/") as [|p0 [|p1 [|p2 [|p3 [|p4 ps]]]]];
    try done.
  destruct (ParseDate p0 p1 p2) as [date|] eqn:Hd; [|done].
  destruct (EntryInfo (callEntry call)) as [e|info]; [done|].
  intros [= <-]. cbn [Date].
  pose proof (ParseDate_Some _ _ _ _ Hd) as ->. exact Hd.
Qed.

(** The maps of a successful [Refresh], read through the two accessors. *)
Lemma Refresh_ok now idx idx' :
  Refresh now idx = (idx', None) →
  (∀ date, SessionsByDate idx' date =
     Go.sortSlice fileLess
       (filter (λ f, Date f = date) (walkedFiles (baseDir idx))))
  ∧ (∀ key, default [] (byCwd idx' !! key) =
       filter (λ f, CwdForFile f = key) (walkedFiles (baseDir idx)))
  ∧ (∀ date, is_Some (byDate idx' !! date) ↔
       ∃ f, f ∈ walkedFiles (baseDir idx) ∧ Date f = date).
Proof.
  intros (_ & _ & dates & names & cwds & Hw & Hidx)%Refresh_success.
  assert (byDate idx' = (Go.sortSlice fileLess <$> dates)) as Hd by by rewrite Hidx.
  assert (byCwd idx' = cwds) as Hc by by rewrite Hidx.
  clear Hidx. apply walk_ok in Hw. fold (walkedFiles (baseDir idx)) in Hw.
  assert (dates = (fold_left addFile (walkedFiles (baseDir idx)) (∅, ∅, ∅)).1.1)
    as Hdates by by rewrite <- Hw.
  assert (cwds = (fold_left addFile (walkedFiles (baseDir idx)) (∅, ∅, ∅)).2)
    as Hcwds by by rewrite <- Hw.
  rewrite fold_addFile_dates in Hdates. rewrite fold_addFile_cwds in Hcwds.
  cbn [fst snd] in Hdates, Hcwds. split_and!.
  - intros date. unfold SessionsByDate. rewrite Hd, lookup_fmap.
    pose proof (lookup_fold_pushTo Date (walkedFiles (baseDir idx)) ∅ date) as Hl.
    rewrite <- Hdates, lookup_empty in Hl. cbn [default app] in Hl.
    rewrite <- Hl. by destruct (dates !! date).
  - intros key. rewrite Hc, Hcwds, lookup_fold_pushTo. by rewrite lookup_empty.
  - intros date. rewrite Hd, lookup_fmap, fmap_is_Some, Hdates, is_Some_fold_pushTo.
    rewrite lookup_empty. split; [intros [[]%is_Some_None|]|]; eauto.
Qed.

End WalkFacts.


(** ** The scanner: the order of the file lists *)
Section FileOrderFacts.
Import sessions Spec.
Context `{!Go.Text} `{!System}.

Lemma ltb_false_le a b : String.ltb a b = false → String.le b a.
Proof.
  unfold String.ltb, String.le, String.leb. rewrite (String.compare_antisym a b).
  by destruct (String.compare b a).
Qed.

Lemma ltb_true_le a b : String.ltb a b = true → String.le a b.
Proof.
  unfold String.ltb, String.le, String.leb. by destruct (String.compare a b).
Qed.

Lemma fileLess_false x y : fileLess y x = false → fileBefore x y.
Proof.
  unfold fileLess, fileBefore. destruct (Z.eqb_spec (ModTime y) (ModTime x)).
  - intros Hl%ltb_false_le. right. done.
  - intros Hl%Z.ltb_ge. left. lia.
Qed.

Lemma fileLess_true x y : fileLess x y = true → fileBefore x y.
Proof.
  unfold fileLess, fileBefore. destruct (Z.eqb_spec (ModTime x) (ModTime y)).
  - intros Hl%ltb_true_le. right. done.
  - intros Hl%Z.ltb_lt. by left.
Qed.

#[local] Instance fileBefore_trans : Transitive fileBefore.
Proof.
  intros a b c [Hab|[Hab Hn]] [Hbc|[Hbc Hn']]; unfold fileBefore;
    [left; lia..|]. right. split; [lia|]. by etrans.
Qed.

Lemma sortSlice_fileLess fs : StronglySorted fileBefore (Go.sortSlice fileLess fs).
Proof.
  apply Sorted_StronglySorted; [apply _|].
  apply sortSlice_Sorted with (P := λ _, True).
  - intros x y _ _. apply fileLess_false.
  - intros x y _ _. apply fileLess_true.
  - by apply Forall_forall.
Qed.

(** C4, as the code has it.  After a successful [Refresh],
    [SessionsByDate] returns, for every date, the files that the walk found
    for that date, ordered by modification time descending and by name
    ascending on equal times; [SessionsByCwd] returns, for every working
    directory, the files that the walk found for it in the order of the
    walk.  A returned list is a value of its own here, as the copy that
    the two methods make is in the code: nothing a caller does with it
    reaches the index. *)
Theorem Refresh_file_lists (now : Z) (idx idx' : Index) :
  Refresh now idx = (idx', None) →
  (∀ date,
     SessionsByDate idx' date
       ≡ₚ filter (λ f, Date f = date) (walkedFiles (baseDir idx))
     ∧ StronglySorted fileBefore (SessionsByDate idx' date))
  ∧ (∀ cwd,
       SessionsByCwd idx' cwd =
         filter (λ f, CwdForFile f = NormalizeCwd cwd) (walkedFiles (baseDir idx))).
Proof.
  intros (Hd & Hc & _)%Refresh_ok. split.
  - intros date. rewrite Hd. split; [apply sortSlice_Permutation|].
    apply sortSlice_fileLess.
  - intros cwd. unfold SessionsByCwd. apply Hc.
Qed.

End FileOrderFacts.

(** The witness of [Refresh_file_lists]: the sample installation. *)
Lemma Refresh_file_lists_witness :
  @sessions.Refresh asciiText Sample.system 7 (sessions.NewIndex "/s")
    = (Sample.sessionsIdx, None)
  ∧ StronglySorted Spec.fileBefore
      (sessions.SessionsByDate Sample.sessionsIdx Sample.day)
  ∧ @sessions.SessionsByCwd asciiText Sample.sessionsIdx "(unknown)"
      = [Sample.fileA; Sample.fileB].
Proof.
  assert (@sessions.Refresh asciiText Sample.system 7 (sessions.NewIndex "/s")
            = (Sample.sessionsIdx, None)) as Hr by (vm_compute; reflexivity).
  destruct (@Refresh_file_lists asciiText Sample.system 7 (sessions.NewIndex "/s")
              Sample.sessionsIdx Hr) as [Hd Hc].
  split_and!; [exact Hr|apply Hd|]. rewrite Hc. vm_compute. reflexivity.
Defined.

(** C4, as stated, fails for [SessionsByCwd].  [Refresh] sorts the lists
    of [byDate] and leaves the lists of [byCwd], which the same appends
    built, in the order of the walk: in the sample installation the refresh
    succeeds and the list for the working directory "(unknown)" has the
    older file first. *)
Lemma SessionsByCwd_not_ordered :
  let r := @sessions.Refresh asciiText Sample.system 7 (sessions.NewIndex "/s") in
  r.2 = None
  ∧ ¬ StronglySorted Spec.fileBefore (@sessions.SessionsByCwd asciiText r.1 "(unknown)").
Proof.
  split; [vm_compute; reflexivity|].
  replace (@sessions.SessionsByCwd asciiText _ "(unknown)")
    with [Sample.fileA; Sample.fileB] by (vm_compute; reflexivity).
  intros Hs. apply StronglySorted_inv in Hs as [_ Hall].
  apply Forall_cons in Hall as [[Hlt|[Heq _]] _]; cbn in *; lia.
Qed.


(** ** The scanner: the order of the dates *)
Section DigitFacts.
Import sessions Spec.
Context `{!Go.Text} `{!System}.

Lemma digitsNum_bound s :
  isDigits s = true → 0 ≤ digitsNum s < 10 ^ Z.of_nat (String.length s).
Proof.
  induction s as [|c s IH]; [cbn; lia|]. cbn [isDigits digitsNum String.length].
  destruct (Go.isDigit c) eqn:Hc; [|done]. cbn [negb]. intros Hs%IH.
  unfold Go.isDigit in Hc. apply andb_true_iff in Hc as [H1%Z.leb_le H2%Z.leb_le].
  rewrite Nat2Z.inj_succ, Z.pow_succ_r by lia. nia.
Qed.

Lemma digitsValue_digitsNum s : ∀ acc,
  isDigits s = true →
  Go.digitsValue acc s = Some (acc * 10 ^ Z.of_nat (String.length s) + digitsNum s).
Proof.
  induction s as [|c s IH]; intros acc; cbn [isDigits Go.digitsValue digitsNum String.length].
  - intros _. f_equal. cbn. lia.
  - destruct (Go.isDigit c); [|done]. cbn [negb]. intros Hs.
    rewrite IH by done. f_equal. rewrite Nat2Z.inj_succ, Z.pow_succ_r by lia. lia.
Qed.

Lemma Atoi_digits s :
  isDigits s = true → s ≠ "" → (String.length s ≤ 18)%nat →
  (Go.Atoi s).1 = digitsNum s.
Proof.
  intros Hd Hne Hlen. pose proof (digitsNum_bound s Hd) as Hb.
  assert (10 ^ Z.of_nat (String.length s) ≤ 10 ^ 18) as Hp
    by (apply Z.pow_le_mono_r; lia).
  unfold Go.Atoi. destruct s as [|c s]; [done|].
  assert (Go.isDigit c = true) as Hc.
  { cbn [isDigits] in Hd. by destruct (Go.isDigit c). }
  destruct (Ascii.eqb_spec c "-") as [->|_]; [done|].
  destruct (Ascii.eqb_spec c "+") as [->|_]; [done|].
  cbv beta iota zeta. rewrite digitsValue_digitsNum by done.
  rewrite Z.mul_0_l, Z.add_0_l. unfold Go.minInt, Go.maxInt.
  destruct (Z.ltb_spec (digitsNum (String c s)) (- 2 ^ 63)); [lia|].
  destruct (Z.ltb_spec (2 ^ 63 - 1) (digitsNum (String c s))); [lia|]. done.
Qed.

Lemma N_of_ascii_inj a b : N_of_ascii a = N_of_ascii b → a = b.
Proof. intros Hab. by rewrite <- (ascii_N_embedding a), Hab, ascii_N_embedding. Qed.

Lemma digitsNum_inj s : ∀ t,
  isDigits s = true → isDigits t = true →
  String.length s = String.length t → digitsNum s = digitsNum t → s = t.
Proof.
  induction s as [|c s IH]; intros [|d t]; try done.
  cbn [isDigits String.length digitsNum].
  destruct (Go.isDigit c) eqn:Hc; [|done]. destruct (Go.isDigit d) eqn:Hd; [|done].
  cbn [negb]. intros Hs Ht [= Hlen] Hnum.
  pose proof (digitsNum_bound s Hs) as Hbs. pose proof (digitsNum_bound t Ht) as Hbt.
  rewrite <- Hlen in Hbt, Hnum.
  set (P := 10 ^ Z.of_nat (String.length s)) in *.
  assert (Z.of_N (N_of_ascii c) = Z.of_N (N_of_ascii d)) as Hcd.
  { destruct (Z.lt_trichotomy (Z.of_N (N_of_ascii c)) (Z.of_N (N_of_ascii d)))
      as [Hlt|[?|Hlt]]; [exfalso|done|exfalso]; nia. }
  assert (digitsNum s = digitsNum t) as Hst by (rewrite Hcd in Hnum; lia).
  f_equal; [apply N_of_ascii_inj; lia|by apply IH].
Qed.

Lemma validDate_inv d :
  validDate d →
  (isDigits (Year d) = true ∧ String.length (Year d) = 4%nat)
  ∧ (isDigits (Month d) = true ∧ String.length (Month d) = 2%nat)
  ∧ (isDigits (Day d) = true ∧ String.length (Day d) = 2%nat).
Proof.
  unfold validDate, ParseDate, Go.len.
  destruct (Z.eqb_spec (Z.of_nat (String.length (Year d))) 4); [|done].
  destruct (Z.eqb_spec (Z.of_nat (String.length (Month d))) 2); [|done].
  destruct (Z.eqb_spec (Z.of_nat (String.length (Day d))) 2); [|done].
  cbn [negb orb].
  destruct (isDigits (Year d)), (isDigits (Month d)), (isDigits (Day d)); try done.
  intros _. split_and!; try done; lia.
Qed.

Lemma dateNumbers_valid d :
  validDate d →
  dateNumbers d = (digitsNum (Year d), digitsNum (Month d), digitsNum (Day d)).
Proof.
  intros ((Hy & Ly) & (Hm & Lm) & (Hd & Ld))%validDate_inv. unfold dateNumbers.
  rewrite !Atoi_digits; try done; try lia.
  all: intros He; rewrite He in *; done.
Qed.

Lemma dateNumbers_inj a b :
  validDate a → validDate b → dateNumbers a = dateNumbers b → a = b.
Proof.
  intros Ha Hb. rewrite (dateNumbers_valid a Ha), (dateNumbers_valid b Hb).
  apply validDate_inv in Ha as ((Hy & Ly) & (Hm & Lm) & (Hd & Ld)).
  apply validDate_inv in Hb as ((Hy' & Ly') & (Hm' & Lm') & (Hd' & Ld')).
  intros [= Ey Em Ed]. destruct a, b. cbn in *.
  f_equal; apply digitsNum_inj; congruence.
Qed.

Lemma dateGreater_spec a b :
  dateGreater a b = true ↔
    dateAfter a b
    ∨ (dateNumbers a = dateNumbers b
       ∧ String.ltb (DateKey_String b) (DateKey_String a) = true).
Proof.
  unfold dateGreater, dateAfter, dateNumbers.
  set (ya := (Go.Atoi (Year a)).1). set (yb := (Go.Atoi (Year b)).1).
  set (ma := (Go.Atoi (Month a)).1). set (mb := (Go.Atoi (Month b)).1).
  set (da := (Go.Atoi (Day a)).1). set (db := (Go.Atoi (Day b)).1).
  destruct (Z.eqb_spec ya yb) as [Ey|Ey]; cbn [negb].
  2:{ rewrite Z.ltb_lt. split; [left; lia|]. intros [?|[[= ? ? ?] _]]; lia. }
  destruct (Z.eqb_spec ma mb) as [Em|Em]; cbn [negb].
  2:{ rewrite Z.ltb_lt. split; [left; lia|]. intros [?|[[= ? ? ?] _]]; lia. }
  destruct (Z.eqb_spec da db) as [Ed|Ed]; cbn [negb].
  2:{ rewrite Z.ltb_lt. split; [left; lia|]. intros [?|[[= ? ? ?] _]]; lia. }
  split; [intros Hl; right; split; [congruence|done]|].
  intros [?|[_ Hl]]; [lia|done].
Qed.

End DigitFacts.

Section DatesFacts.
Import sessions Spec.
Context `{!Go.Text} `{!System}.

Lemma dateAfter_trans a b c : dateAfter a b → dateAfter b c → dateAfter a c.
Proof.
  unfold dateAfter.
  destruct (dateNumbers a) as [[ya ma] da], (dateNumbers b) as [[yb mb] db],
    (dateNumbers c) as [[yc mc] dc]. lia.
Qed.

Lemma dateAfter_total a b :
  dateNumbers a = dateNumbers b ∨ dateAfter a b ∨ dateAfter b a.
Proof.
  unfold dateAfter.
  destruct (dateNumbers a) as [[ya ma] da], (dateNumbers b) as [[yb mb] db].
  destruct (Z.lt_trichotomy ya yb) as [?|[->|?]]; [lia| |lia].
  destruct (Z.lt_trichotomy ma mb) as [?|[->|?]]; [lia| |lia].
  destruct (Z.lt_trichotomy da db) as [?|[->|?]]; [lia| |lia]. by left.
Qed.

Lemma dateAfter_asym a b : dateAfter a b → ¬ dateAfter b a.
Proof.
  unfold dateAfter.
  destruct (dateNumbers a) as [[ya ma] da], (dateNumbers b) as [[yb mb] db]. lia.
Qed.

Lemma StronglySorted_strict {A} (R : A → A → Prop) (l : list A) :
  NoDup l → StronglySorted (λ a b, a = b ∨ R a b) l → StronglySorted R l.
Proof.
  intros Hnd Hs. induction Hs as [|x l Hs IH Hall]; [constructor|].
  apply NoDup_cons in Hnd as [Hx Hnd]. constructor; [by apply IH|].
  apply Forall_forall. intros y Hy.
  destruct (proj1 (Forall_forall _ _) Hall y Hy) as [->|?]; [by destruct Hx|done].
Qed.

Lemma sortSlice_dateGreater (keys : list DateKey) :
  Forall validDate keys → NoDup keys →
  StronglySorted dateAfter (Go.sortSlice dateGreater keys).
Proof.
  intros Hvalid Hnd. apply StronglySorted_strict.
  { by rewrite sortSlice_Permutation. }
  apply Sorted_StronglySorted.
  { intros a b c [->|Hab] [->|Hbc]; eauto using dateAfter_trans. }
  apply sortSlice_Sorted with (P := validDate); [| |done].
  - intros x y Hx Hy Hless.
    destruct (dateAfter_total x y) as [Heq|[?|Hyx]]; [|by right|].
    + left. by apply dateNumbers_inj.
    + assert (dateGreater y x = true) as Ht by (apply dateGreater_spec; by left).
      congruence.
  - intros x y Hx Hy [?|[Heq _]]%dateGreater_spec; [by right|].
    left. by apply dateNumbers_inj.
Qed.

Lemma sortSlice_dateGreater_any_order (keys keys' : list DateKey) :
  Forall validDate keys → NoDup keys → keys' ≡ₚ keys →
  Go.sortSlice dateGreater keys' = Go.sortSlice dateGreater keys.
Proof.
  intros Hvalid Hnd Hperm.
  apply StronglySorted_unique_strong with (R := dateAfter).
  - intros x y _ _ Hxy Hyx. by apply dateAfter_asym in Hxy.
  - apply sortSlice_dateGreater; by rewrite Hperm.
  - by apply sortSlice_dateGreater.
  - by rewrite !sortSlice_Permutation.
Qed.

Lemma elem_of_Dates idx date : date ∈ Dates idx ↔ is_Some (byDate idx !! date).
Proof.
  unfold Dates. rewrite sortSlice_Permutation, list_elem_of_fmap. split.
  - intros [[k files] [-> Hin%elem_of_map_to_list]]. by eexists.
  - intros [files Hfiles]. exists (date, files). split; [done|].
    by apply elem_of_map_to_list.
Qed.

(** C8.  After a successful [Refresh], [Dates] returns every indexed date
    key, each once, in strictly descending order of the numbers (year,
    month, day); the comparison that sorts them is the numeric one with the
    comparison of the printed keys deciding ties. *)
Theorem Dates_strictly_descending (now : Z) (idx idx' : Index) :
  Refresh now idx = (idx', None) →
  (∀ date, date ∈ Dates idx' ↔ is_Some (byDate idx' !! date))
  ∧ NoDup (Dates idx')
  ∧ StronglySorted dateAfter (Dates idx')
  ∧ (∀ a b, dateGreater a b = true ↔
       dateAfter a b
       ∨ (dateNumbers a = dateNumbers b
          ∧ String.ltb (DateKey_String b) (DateKey_String a) = true)).
Proof.
  intros (_ & _ & Hkeys)%Refresh_ok. split_and!.
  - apply elem_of_Dates.
  - unfold Dates. rewrite sortSlice_Permutation. apply NoDup_fst_map_to_list.
  - apply sortSlice_dateGreater; [|apply NoDup_fst_map_to_list].
    apply Forall_forall. intros date Hin.
    assert (date ∈ Dates idx') as Hd by (unfold Dates; by rewrite sortSlice_Permutation).
    apply elem_of_Dates, Hkeys in Hd as (f & Hf & <-).
    unfold walkedFiles in Hf. apply list_elem_of_omap in Hf as (call & _ & Hc).
    by eapply fileOfCall_validDate.
  - apply dateGreater_spec.
Qed.

End DatesFacts.


(** ** The snapshot that the search index reads *)
Section SnapshotFacts.
Import sessions search Spec.
Context `{!Go.Text} `{!System}.

Lemma concat_filter_partition {A K} `{EqDecision K} (key : A → K) (ds : list K) :
  ∀ l : list A,
  NoDup ds → (∀ x, x ∈ l → key x ∈ ds) →
  concat (map (λ d, filter (λ x, key x = d) l) ds) ≡ₚ l.
Proof.
  induction ds as [|d ds IH]; intros l Hnd Hin.
  - destruct l as [|x l]; [done|].
    specialize (Hin x ltac:(apply elem_of_cons; by left)). by apply elem_of_nil in Hin.
  - apply NoDup_cons in Hnd as [Hd Hnd]. cbn [map concat].
    etrans; [|apply (filter_app_complement (λ x, key x = d) l)].
    apply Permutation_app_head.
    assert (map (λ d', filter (λ x, key x = d') l) ds
            = map (λ d', filter (λ x, key x = d') (filter (λ x, ¬ key x = d) l)) ds)
      as ->.
    { apply map_ext_in. intros d' Hd'%list_elem_of_In.
      rewrite list_filter_filter. apply list_filter_iff. intros x.
      split; [|by intros [? _]]. intros ->. split; [done|]. by intros ->. }
    apply IH; [done|]. intros x [Hx Hxl]%list_elem_of_filter.
    specialize (Hin x Hxl). apply elem_of_cons in Hin as [?|?]; done.
Qed.

Lemma concat_map_Permutation {A B} (f g : A → list B) (l : list A) :
  (∀ x, f x ≡ₚ g x) → concat (map f l) ≡ₚ concat (map g l).
Proof.
  intros Hfg. induction l as [|x l IH]; [done|]. cbn [map concat].
  by rewrite Hfg, IH.
Qed.

Lemma fileOfCall_path base call f :
  fileOfCall base call = Some f → FilePath f = callPath call.
Proof.
  unfold fileOfCall. destruct (_ || _); [done|].
  destruct (Rel base (callPath call)) as [e|rel]; [done|].
  destruct (Go.SplitByte (ToSlash rel) "/") as [|p0 [|p1 [|p2 [|p3 [|p4 ps]]]]];
    try done.
  destruct (ParseDate p0 p1 p2) as [date|]; [|done].
  destruct (EntryInfo (callEntry call)) as [e|info]; [done|]. by intros [= <-].
Qed.

Lemma walkedFiles_NoDup base :
  NoDup (map callPath (WalkDir base)) → NoDup (map FilePath (walkedFiles base)).
Proof.
  unfold walkedFiles. induction (WalkDir base) as [|call calls IH]; [done|].
  cbn [map]. intros [Hc Hnd]%NoDup_cons. cbn [omap list_omap].
  destruct (fileOfCall base call) as [f|] eqn:Hf; [|by apply IH].
  cbn [map]. apply NoDup_cons. split; [|by apply IH].
  rewrite (fileOfCall_path _ _ _ Hf).
  intros (g & Hg & (c & Hc' & Hgc)%list_elem_of_omap)%list_elem_of_fmap.
  apply Hc. rewrite Hg, (fileOfCall_path _ _ _ Hgc). by apply list_elem_of_fmap_2.
Qed.

(** The snapshot after a successful [Refresh] holds the files of the walk,
    each once; when the walk visits no path twice, as a walk of a directory
    tree does, no two files of the snapshot have the same path. *)
Lemma Refresh_snapshot now idx idx' :
  Refresh now idx = (idx', None) →
  snapshotFiles idx' ≡ₚ walkedFiles (baseDir idx)
  ∧ (NoDup (map callPath (WalkDir (baseDir idx))) →
     NoDup (map FilePath (snapshotFiles idx'))).
Proof.
  intros Hr. pose proof (Refresh_ok now idx idx' Hr) as (Hd & _ & Hkeys).
  assert (snapshotFiles idx' ≡ₚ walkedFiles (baseDir idx)) as Hperm.
  { unfold snapshotFiles.
    rewrite (concat_map_Permutation _
               (λ d, filter (λ f, Date f = d) (walkedFiles (baseDir idx)))).
    - apply concat_filter_partition.
      + unfold Dates. rewrite sortSlice_Permutation. apply NoDup_fst_map_to_list.
      + intros f Hf. unfold Dates. rewrite sortSlice_Permutation, list_elem_of_fmap.
        assert (is_Some (byDate idx' !! Date f)) as [files Hfiles]
          by (apply Hkeys; eauto).
        exists (Date f, files). split; [done|]. by apply elem_of_map_to_list.
    - intros d. rewrite Hd. apply sortSlice_Permutation. }
  split; [done|]. intros Hnd. rewrite Hperm. by apply walkedFiles_NoDup.
Qed.

End SnapshotFacts.

(** ** The search index: queries *)
Section SearchFacts.
Import sessions search Spec.
Context `{!Go.Text} `{!JSON} `{!Files} `{!System}.
Variable enabled : bool.

Lemma searchLoop_take q limit items : ∀ results,
  Forall entryOK items →
  (length results < Z.to_nat limit)%nat →
  searchLoop q (Go.ToLower q) limit results items =
    results ++ map (hit q)
      (take (Z.to_nat limit - length results)
         (filter (λ item, matches q item = true) items)).
Proof.
  induction items as [|item items IH]; intros results Hok Hlen.
  - cbn. by rewrite take_nil, app_nil_r.
  - apply Forall_cons in Hok as [Hitem Hok]. cbn [searchLoop].
    rewrite filter_cons.
    assert ((Go.Index (lower item) (Go.ToLower q) =? -1) = negb (matches q item))
      as -> by (rewrite Hitem; apply Index_contains).
    destruct (matches q item) eqn:Hc; cbn [negb].
    + rewrite decide_True by done. rewrite length_app. cbn [length].
      destruct (Z.leb_spec limit (Z.of_nat (length results + 1))) as [Hfull|Hmore].
      * replace (Z.to_nat limit - length results)%nat with 1%nat by lia.
        cbn [firstn map]. unfold hit. by rewrite Hitem.
      * rewrite IH; [|done|rewrite length_app; cbn [length]; lia].
        rewrite length_app. cbn [length].
        replace (Z.to_nat limit - length results)%nat
          with (S (Z.to_nat limit - (length results + 1)))%nat by lia.
        cbn [firstn map]. unfold hit at 2. by rewrite <- app_assoc, Hitem.
    + rewrite decide_False by done. by apply IH.
Qed.

Lemma buildEntries_OK f es :
  buildEntries enabled f = inr es → Forall entryOK es.
Proof.
  unfold buildEntries. destruct (ParseSession enabled (FilePath f)); [done|].
  intros [= <-]. apply Forall_forall. intros item (x & _ & Hx)%list_elem_of_omap.
  destruct (String.eqb _ _); [done|]. by simplify_eq.
Qed.

Lemma selectFiles_OK existing fs : ∀ next toParse,
  cacheOK existing → cacheOK next →
  cacheOK (selectFiles existing fs next toParse).1.
Proof.
  induction fs as [|f fs IH]; intros next toParse He Hn; [done|].
  cbn [selectFiles]. destruct (existing !! FilePath f) as [meta|] eqn:Hm; [|by apply IH].
  destruct (_ && _); [|by apply IH]. apply IH; [done|].
  apply map_Forall_insert_2; [|done]. by apply (He _ _ Hm).
Qed.

Lemma parseFiles_OK existing toParse : ∀ next firstErr,
  cacheOK existing → cacheOK next →
  cacheOK (parseFiles enabled existing toParse next firstErr).1.
Proof.
  induction toParse as [|f fs IH]; intros next firstErr He Hn; [done|].
  cbn [parseFiles]. destruct (buildEntries enabled f) as [err|es] eqn:Hb.
  - apply IH; [done|]. destruct (existing !! FilePath f) as [meta|] eqn:Hm; [|done].
    apply map_Forall_insert_2; [|done]. by apply (He _ _ Hm).
  - apply IH; [done|]. apply map_Forall_insert_2; [|done].
    by apply buildEntries_OK in Hb.
Qed.

Lemma flatten_OK next fs : cacheOK next → Forall entryOK (flatten next fs).
Proof.
  intros Hn. unfold flatten. apply Forall_concat, Forall_forall.
  intros es (f & -> & _)%list_elem_of_fmap.
  destruct (next !! FilePath f) as [meta|] eqn:Hm; [|constructor].
  by apply (Hn _ _ Hm).
Qed.

Lemma built_OK idx :
  built enabled idx → cacheOK (files idx) ∧ Forall entryOK (ordered idx).
Proof.
  induction 1 as [|sessionsIdx idx Hb [Hf Ho]].
  - split; [apply map_Forall_empty|constructor].
  - unfold RefreshFrom.
    pose proof (selectFiles_OK (files idx) (snapshotFiles sessionsIdx) ∅ [] Hf
                  (map_Forall_empty _)) as Hs.
    destruct (selectFiles _ _ _ _) as [next toParse]. cbn [fst] in Hs.
    pose proof (parseFiles_OK (files idx) toParse next None Hf Hs) as Hp.
    destruct (parseFiles _ _ _ _ _) as [next' firstErr]. cbn [fst] in Hp.
    cbn [fst files ordered]. split; [done|]. by apply flatten_OK.
Qed.

(** C6.  On every index that the program can hold, [Search] is the
    reference definition: trim the query; no results for an empty trimmed
    query; limit 50 for a non-positive limit and 200 for one above 200;
    then, in the order of the flattened list, the first limit-many entries
    whose content contains the query, letter case ignored. *)
Theorem Search_reference (idx : search.Index) (query : string) (limit : Z) :
  built enabled idx →
  Search idx query limit = SearchReference (ordered idx) query limit.
Proof.
  intros [_ Hok]%built_OK. unfold Search, SearchReference.
  destruct (String.eqb_spec (Go.TrimSpace query) "") as [Hq|Hq].
  { by rewrite decide_True. }
  rewrite decide_False by done.
  set (lim := if maxLimit <? _ then _ else _).
  assert (lim = effectiveLimit limit ∧ 0 < lim) as [Hlim Hpos].
  { unfold lim, effectiveLimit, maxLimit, defaultLimit.
    destruct (Z.leb_spec limit 0); [rewrite decide_True by done; cbn; lia|].
    rewrite decide_False by lia.
    destruct (Z.ltb_spec 200 limit); [rewrite decide_True by done|rewrite decide_False by lia];
      lia. }
  rewrite searchLoop_take; [|done|cbn [length]; lia].
  cbn [length app]. by rewrite Nat.sub_0_r, Hlim.
Qed.

End SearchFacts.


(** ** The search index: refreshing *)
Section RefreshFromFacts.
Import sessions search Spec.
Context `{!Go.Text} `{!JSON} `{!Files} `{!System}.
Variable enabled : bool.

Lemma selectFiles_toParse existing fs : ∀ next toParse,
  (selectFiles existing fs next toParse).2 =
    toParse ++ filter (λ f, cached existing f = false) fs.
Proof.
  induction fs as [|f fs IH]; intros next toParse.
  - cbn. by rewrite app_nil_r.
  - cbn [selectFiles]. rewrite filter_cons.
    destruct (cached existing f) eqn:Hc; unfold cached in Hc.
    + rewrite decide_False by done.
      destruct (existing !! FilePath f) as [meta|]; [|done]. rewrite Hc. apply IH.
    + rewrite decide_True by done.
      destruct (existing !! FilePath f) as [meta|]; [rewrite Hc|];
        by rewrite IH, <- app_assoc.
Qed.

Lemma selectFiles_hit existing fs : ∀ next toParse f,
  f ∈ fs → cached existing f = true →
  (selectFiles existing fs next toParse).1 !! FilePath f = existing !! FilePath f.
Proof.
  assert (∀ fs next toParse p,
            next !! p = existing !! p →
            (selectFiles existing fs next toParse).1 !! p = existing !! p) as Hkeep.
  { clear fs. induction fs as [|g fs IH]; intros next toParse p Hp; [done|].
    cbn [selectFiles]. destruct (existing !! FilePath g) as [meta|] eqn:Hm; [|by apply IH].
    destruct (_ && _); [|by apply IH]. apply IH.
    destruct (decide (FilePath g = p)) as [<-|Hne].
    - by rewrite lookup_insert_eq.
    - by rewrite lookup_insert_ne. }
  induction fs as [|g fs IH]; intros next toParse f Hin Hc.
  - by apply elem_of_nil in Hin.
  - apply elem_of_cons in Hin as [<-|Hin].
    + cbn [selectFiles]. unfold cached in Hc.
      destruct (existing !! FilePath f) as [meta|] eqn:Hm; [|done].
      rewrite Hc, <- Hm. apply Hkeep. by rewrite lookup_insert_eq.
    + cbn [selectFiles]. destruct (existing !! FilePath g) as [meta|]; [|by apply IH].
      destruct (_ && _); by apply IH.
Qed.

Lemma selectFiles_other existing fs : ∀ next toParse p,
  (∀ f, f ∈ fs → cached existing f = true → FilePath f ≠ p) →
  (selectFiles existing fs next toParse).1 !! p = next !! p.
Proof.
  induction fs as [|g fs IH]; intros next toParse p Hp; [done|].
  assert (∀ f, f ∈ fs → cached existing f = true → FilePath f ≠ p) as Hp'.
  { intros f Hf. apply Hp, elem_of_cons. by right. }
  specialize (Hp g ltac:(apply elem_of_cons; by left)). unfold cached in Hp.
  cbn [selectFiles]. destruct (existing !! FilePath g) as [meta|]; [|by apply IH].
  destruct (_ && _); [|by apply IH].
  rewrite IH by done. by rewrite lookup_insert_ne by auto.
Qed.

Lemma parseFiles_other existing toParse : ∀ next firstErr p,
  p ∉ map FilePath toParse →
  (parseFiles enabled existing toParse next firstErr).1 !! p = next !! p.
Proof.
  induction toParse as [|f fs IH]; intros next firstErr p Hp; [done|].
  cbn [map] in Hp. apply not_elem_of_cons in Hp as [Hne Hp].
  cbn [parseFiles]. destruct (buildEntries enabled f) as [err|es].
  - rewrite IH by done. destruct (existing !! FilePath f); [|done].
    by rewrite lookup_insert_ne.
  - rewrite IH by done. by rewrite lookup_insert_ne.
Qed.

Lemma parseFiles_parsed existing toParse : ∀ next firstErr f,
  NoDup (map FilePath toParse) → f ∈ toParse →
  (parseFiles enabled existing toParse next firstErr).1 !! FilePath f =
    match buildEntries enabled f with
    | inr es => Some {| size := Size f; modTime := ModTime f; entries := es |}
    | inl _ =>
        match existing !! FilePath f with
        | Some meta => Some meta
        | None => next !! FilePath f
        end
    end.
Proof.
  induction toParse as [|g fs IH]; intros next firstErr f Hnd Hin.
  - by apply elem_of_nil in Hin.
  - cbn [map] in Hnd. apply NoDup_cons in Hnd as [Hg Hnd].
    apply elem_of_cons in Hin as [<-|Hin]; cbn [parseFiles].
    + destruct (buildEntries enabled f) as [err|es].
      * rewrite parseFiles_other by done.
        destruct (existing !! FilePath f); [|done]. by rewrite lookup_insert_eq.
      * rewrite parseFiles_other by done. by rewrite lookup_insert_eq.
    + assert (FilePath g ≠ FilePath f) as Hne.
      { intros Heq. apply Hg. rewrite Heq. by apply list_elem_of_fmap_2. }
      destruct (buildEntries enabled g) as [err|es].
      * rewrite IH by done. destruct (buildEntries enabled f); [|done].
        destruct (existing !! FilePath f); [done|].
        destruct (existing !! FilePath g); [|done]. by rewrite lookup_insert_ne.
      * rewrite IH by done. destruct (buildEntries enabled f); [|done].
        destruct (existing !! FilePath f); [done|]. by rewrite lookup_insert_ne.
Qed.

Lemma parseFiles_firstErr existing toParse : ∀ next firstErr,
  (parseFiles enabled existing toParse next firstErr).2 =
    match firstErr with
    | Some err => Some err
    | None => head (omap (parseError enabled) toParse)
    end.
Proof.
  induction toParse as [|f fs IH]; intros next firstErr.
  - by destruct firstErr.
  - cbn [parseFiles omap list_omap]. unfold parseError at 1.
    destruct (buildEntries enabled f) as [err|es]; rewrite IH; by destruct firstErr.
Qed.

Lemma elem_of_concat {A} (x : A) (ls : list (list A)) :
  x ∈ concat ls ↔ ∃ l, x ∈ l ∧ l ∈ ls.
Proof.
  induction ls as [|l ls IH]; cbn [concat].
  - split; [by intros ?%elem_of_nil|]. by intros (l & _ & ?%elem_of_nil).
  - rewrite elem_of_app, IH. split.
    + intros [?|(l' & ? & ?)]; [exists l|exists l']; rewrite elem_of_cons; auto.
    + intros (l' & ? & [->|?]%elem_of_cons); eauto.
Qed.

Lemma RefreshFrom_unfold sessionsIdx idx :
  RefreshFrom enabled sessionsIdx idx =
    let fs := snapshotFiles sessionsIdx in
    let sel := selectFiles (files idx) fs ∅ [] in
    let res := parseFiles enabled (files idx) sel.2 sel.1 None in
    ({| files := res.1; ordered := flatten res.1 fs |}, res.2).
Proof.
  unfold RefreshFrom. destruct (selectFiles _ _ _ _) as [next toParse].
  cbn [fst snd]. by destruct (parseFiles _ _ _ _ _).
Qed.

Lemma parsedFiles_filter sessionsIdx idx :
  parsedFiles sessionsIdx idx =
    filter (λ f, cached (files idx) f = false) (snapshotFiles sessionsIdx).
Proof. unfold parsedFiles. by rewrite selectFiles_toParse. Qed.

Lemma NoDup_paths_inj (fs : list SessionFile) f g :
  NoDup (map FilePath fs) → f ∈ fs → g ∈ fs → FilePath f = FilePath g → f = g.
Proof.
  induction fs as [|h fs IH]; intros Hnd Hf Hg Heq.
  - by apply elem_of_nil in Hf.
  - cbn [map] in Hnd. apply NoDup_cons in Hnd as [Hh Hnd].
    apply elem_of_cons in Hf as [->|Hf]; apply elem_of_cons in Hg as [->|Hg];
      [done| | |by apply IH].
    + destruct Hh. rewrite Heq. by apply list_elem_of_fmap_2.
    + destruct Hh. rewrite <- Heq. by apply list_elem_of_fmap_2.
Qed.

Lemma NoDup_paths_filter (P : SessionFile → Prop) `{∀ f, Decision (P f)} fs :
  NoDup (map FilePath fs) → NoDup (map FilePath (filter P fs)).
Proof.
  induction fs as [|h fs IH]; [done|]. cbn [map]. intros [Hh Hnd]%NoDup_cons.
  rewrite filter_cons. destruct (decide (P h)); [|by apply IH].
  cbn [map]. apply NoDup_cons. split; [|by apply IH].
  intros (g & Hg & Hin%list_elem_of_filter)%list_elem_of_fmap. apply Hh.
  rewrite Hg. apply list_elem_of_fmap_2. by destruct Hin.
Qed.

(** The cache after a refresh, file by file. *)
Lemma RefreshFrom_files sessionsIdx idx :
  NoDup (map FilePath (snapshotFiles sessionsIdx)) →
  let fs := snapshotFiles sessionsIdx in
  let next := files (RefreshFrom enabled sessionsIdx idx).1 in
  (∀ f, f ∈ fs → cached (files idx) f = true →
     next !! FilePath f = files idx !! FilePath f)
  ∧ (∀ f, f ∈ fs → cached (files idx) f = false →
       next !! FilePath f =
         match buildEntries enabled f with
         | inr es => Some {| size := Size f; modTime := ModTime f; entries := es |}
         | inl _ => files idx !! FilePath f
         end)
  ∧ (∀ p, p ∉ map FilePath fs → next !! p = None).
Proof.
  intros Hnd fs next. subst next. rewrite RefreshFrom_unfold. cbn [fst files].
  fold fs in Hnd |- *. rewrite selectFiles_toParse. cbn [app]. split_and!.
  - intros f Hf Hc. rewrite parseFiles_other.
    + by apply selectFiles_hit.
    + intros (g & Hg & Hin%list_elem_of_filter)%list_elem_of_fmap.
      destruct Hin as [Hgc Hin].
      assert (f = g) as -> by by apply (NoDup_paths_inj fs). congruence.
  - intros f Hf Hc. rewrite parseFiles_parsed.
    + destruct (buildEntries enabled f); [|done].
      destruct (files idx !! FilePath f) as [meta|] eqn:Hm; [done|].
      rewrite selectFiles_other; [by rewrite lookup_empty|].
      intros g Hg Hgc Heq.
      assert (g = f) as -> by by apply (NoDup_paths_inj fs). congruence.
    + by apply NoDup_paths_filter.
    + by apply list_elem_of_filter.
  - intros p Hp. rewrite parseFiles_other.
    + rewrite selectFiles_other; [by rewrite lookup_empty|].
      intros g Hg _ <-. apply Hp. by apply list_elem_of_fmap_2.
    + intros (g & -> & [_ Hin]%list_elem_of_filter)%list_elem_of_fmap.
      apply Hp. by apply list_elem_of_fmap_2.
Qed.

(** C3, as the code has it.  In a snapshot without duplicate paths: a file
    whose cached (size, modification time) pair is its current pair keeps
    its cache record and is not handed to the parser; every other file is
    handed to the parser, and when the parse succeeds its result replaces
    whatever the cache held for the file, while a failed parse leaves the
    file with what the cache held; the cache after the refresh has no
    record for a path outside the snapshot. *)
Theorem RefreshFrom_reuses_or_reparses (sessionsIdx : sessions.Index) (idx : search.Index) :
  NoDup (map FilePath (snapshotFiles sessionsIdx)) →
  (∀ f, f ∈ snapshotFiles sessionsIdx →
     if cached (files idx) f
     then files (RefreshFrom enabled sessionsIdx idx).1 !! FilePath f
            = files idx !! FilePath f
          ∧ f ∉ parsedFiles sessionsIdx idx
     else f ∈ parsedFiles sessionsIdx idx
          ∧ files (RefreshFrom enabled sessionsIdx idx).1 !! FilePath f
              = match buildEntries enabled f with
                | inr es =>
                    Some {| size := Size f; modTime := ModTime f; entries := es |}
                | inl _ => files idx !! FilePath f
                end)
  ∧ (∀ p, p ∉ map FilePath (snapshotFiles sessionsIdx) →
       files (RefreshFrom enabled sessionsIdx idx).1 !! p = None).
Proof.
  intros Hnd.
  destruct (RefreshFrom_files sessionsIdx idx Hnd) as (Hhit & Hmiss & Habsent).
  split; [|done]. intros f Hf. rewrite parsedFiles_filter.
  destruct (cached (files idx) f) eqn:Hc.
  - split; [by apply Hhit|]. intros [Hc' _]%list_elem_of_filter. congruence.
  - split; [by apply list_elem_of_filter|]. by apply Hmiss.
Qed.

(** C2.  In a snapshot without duplicate paths: a file whose parse fails
    keeps in the new cache exactly what the old cache held for it; a file
    whose parse succeeds gets its fresh record, and its entries are in the
    flattened list, whatever happened to the files before it; and the error
    returned is that of the first file, in the order of the pass, whose
    parse fails (none when no parse fails). *)
Theorem RefreshFrom_partial_failure (sessionsIdx : sessions.Index) (idx : search.Index) :
  NoDup (map FilePath (snapshotFiles sessionsIdx)) →
  (∀ f err, f ∈ parsedFiles sessionsIdx idx →
     buildEntries enabled f = inl err →
     files (RefreshFrom enabled sessionsIdx idx).1 !! FilePath f
       = files idx !! FilePath f)
  ∧ (∀ f es, f ∈ parsedFiles sessionsIdx idx →
       buildEntries enabled f = inr es →
       files (RefreshFrom enabled sessionsIdx idx).1 !! FilePath f
         = Some {| size := Size f; modTime := ModTime f; entries := es |}
       ∧ ∀ item, item ∈ es → item ∈ ordered (RefreshFrom enabled sessionsIdx idx).1)
  ∧ (RefreshFrom enabled sessionsIdx idx).2
      = head (omap (parseError enabled) (parsedFiles sessionsIdx idx)).
Proof.
  intros Hnd. set (fs := snapshotFiles sessionsIdx) in *.
  set (res := RefreshFrom enabled sessionsIdx idx).
  destruct (RefreshFrom_files sessionsIdx idx Hnd) as (_ & Hmiss & _).
  split_and!.
  - intros f err Hin Herr. rewrite parsedFiles_filter in Hin.
    apply list_elem_of_filter in Hin as [Hc Hf]. unfold res. rewrite (Hmiss f Hf Hc). by rewrite Herr.
  - intros f es Hin Hes. rewrite parsedFiles_filter in Hin.
    apply list_elem_of_filter in Hin as [Hc Hf].
    assert (files res.1 !! FilePath f
            = Some {| size := Size f; modTime := ModTime f; entries := es |}) as Hrec.
    { unfold res. rewrite (Hmiss f Hf Hc). by rewrite Hes. }
    split; [done|]. intros item Hitem.
    assert (ordered res.1 = flatten (files res.1) fs) as ->
      by (unfold res; by rewrite RefreshFrom_unfold).
    unfold flatten. apply elem_of_concat. exists es. split; [done|].
    apply list_elem_of_fmap. exists f. split; [|done]. by rewrite Hrec.
  - unfold res. rewrite RefreshFrom_unfold. cbn [snd].
    by rewrite parseFiles_firstErr.
Qed.

End RefreshFromFacts.

(** ** What the parser hands to the merge step *)
Section ParserFacts.
Import sessions Spec.
Context `{!Go.Text} `{!Go.TextLaws} `{!JSON} `{!Files}.
Variable enabled : bool.

Lemma fallbackEmpty_nonEmpty c : nonEmpty (fallbackEmpty c).
Proof.
  unfold fallbackEmpty, nonEmpty.
  destruct (String.eqb_spec (Go.TrimSpace c) ""); [apply Go.TrimSpace_placeholder|done].
Qed.

(** Every entry that [parseResponseItem] produces has a non-empty
    content: the contents that the merge step joins are all non-empty. *)
Lemma parseResponseItem_nonEmpty env lineText lineNum item :
  parseResponseItem enabled env lineText lineNum = Some item →
  nonEmpty (Content item).
Proof.
  unfold parseResponseItem.
  destruct (Unmarshal_responseItemPayload (envPayload env)) as [payload|]; [|done].
  destruct (String.eqb (pType payload) "message").
  - destruct (_ && _); [done|]. intros [= <-]. apply fallbackEmpty_nonEmpty.
  - destruct (String.eqb (pType payload) "reasoning"); [|done].
    intros [= <-]. apply fallbackEmpty_nonEmpty.
Qed.

Lemma parseLine_item lineText lineNum session :
  match (parseLine enabled lineText lineNum session).1 with
  | Some item => nonEmpty (Content item)
  | None => True
  end
  ∧ Items (parseLine enabled lineText lineNum session).2 = Items session.
Proof.
  unfold parseLine. destruct (Unmarshal_envelope lineText) as [env|]; [|done].
  destruct (String.eqb (envType env) "session_meta").
  { by destruct (Unmarshal_SessionMeta (envPayload env)). }
  destruct (String.eqb (envType env) "response_item"); [|done].
  cbn [fst snd]. split; [|done].
  destruct (parseResponseItem enabled env lineText lineNum) as [item|] eqn:Hitem; [|done].
  by eapply parseResponseItem_nonEmpty.
Qed.

Lemma fold_parseChunk_nonEmpty chunks : ∀ lineNum session,
  Forall (λ item, nonEmpty (Content item)) (Items session) →
  Forall (λ item, nonEmpty (Content item))
    (Items (fold_left (parseChunk enabled) chunks (lineNum, session)).2).
Proof.
  induction chunks as [|chunk chunks IH]; intros lineNum session Hall; [done|].
  cbn [fold_left].
  destruct (parseChunk enabled (lineNum, session) chunk) as [n' s'] eqn:Hstep.
  apply IH. unfold parseChunk in Hstep. destruct (0 <? Go.len chunk); [|by simplify_eq].
  pose proof (parseLine_item (Go.TrimRightCRLF chunk) (lineNum + 1) session) as [Hi Hs].
  destruct (parseLine _ _ _ _) as [[item|] session']; simplify_eq; cbn [fst snd] in *.
  - cbn [Items]. rewrite Hs. apply Forall_app. split; [done|]. by constructor.
  - by rewrite Hs.
Qed.

(** The entries of a parsed session are the merge of entries whose
    contents are all non-empty. *)
Lemma ParseSession_merges_nonEmpty path session :
  ParseSession enabled path = inr session →
  ∃ items,
    Forall (λ item, nonEmpty (Content item)) items
    ∧ Items session = mergeConsecutive items.
Proof.
  unfold ParseSession. destruct (Open path) as [err|[content stop]]; [done|].
  pose proof (fold_parseChunk_nonEmpty (readChunks content) 0
                {| Path := path; Meta := None; Items := [] |}
                ltac:(constructor)) as Hall.
  destruct (fold_left _ _ _) as [n parsed]. cbn [snd] in Hall.
  destruct stop; [done|]. intros [= <-]. by exists (Items parsed).
Qed.

End ParserFacts.

(** ** The scanner: lookups by name *)
Section NameFacts.
Import sessions Spec.
Context `{!Go.Text} `{!System}.

Lemma fold_addFile_names fs : ∀ m,
  (fold_left addFile fs m).1.2 =
    fold_left (λ names f, <[nameKey (Date f) (Name f) := f]> names) fs m.1.2.
Proof.
  induction fs as [|f fs IH]; intros [[dates names] cwds]; [done|].
  cbn [fold_left]. by rewrite IH.
Qed.

Lemma lookup_fold_insert {A} (key : A → string) (xs : list A) : ∀ (m : gmap string A) k,
  fold_left (λ m x, <[key x := x]> m) xs m !! k =
    match last (filter (λ x, key x = k) xs) with
    | Some x => Some x
    | None => m !! k
    end.
Proof.
  induction xs as [|x xs IH]; intros m k; [done|].
  cbn [fold_left]. rewrite IH, filter_cons.
  destruct (decide (key x = k)) as [<-|Hne].
  - rewrite lookup_insert_eq, last_cons. by destruct (last _).
  - by rewrite lookup_insert_ne.
Qed.

Lemma Refresh_names now idx idx' :
  Refresh now idx = (idx', None) →
  ∀ date filename,
    Lookup idx' date filename =
      last (filter (λ f, nameKey (Date f) (Name f) = nameKey date filename)
              (walkedFiles (baseDir idx))).
Proof.
  intros (_ & _ & dates & names & cwds & Hw & Hidx)%Refresh_success.
  assert (byName idx' = names) as Hn by by rewrite Hidx.
  clear Hidx. apply walk_ok in Hw. fold (walkedFiles (baseDir idx)) in Hw.
  assert (names = (fold_left addFile (walkedFiles (baseDir idx)) (∅, ∅, ∅)).1.2)
    as Hnames by by rewrite <- Hw.
  rewrite fold_addFile_names in Hnames. cbn [fst snd] in Hnames.
  intros date filename. unfold Lookup. fold (nameKey date filename).
  rewrite Hn, Hnames, lookup_fold_insert, lookup_empty.
  by destruct (last _).
Qed.

Lemma last_Some_elem_of {A} (l : list A) x : last l = Some x → x ∈ l.
Proof.
  intros Hl. apply last_Some in Hl as [l' ->]. apply elem_of_app. right.
  apply elem_of_cons. by left.
Qed.

(** X1.  After a successful [Refresh], [Lookup] finds by date and file name
    exactly the files that the walk found.  The result is the last file of
    the walk whose key (the path of the date joined with the name) is the
    key asked for: a file that is found is a file of the walk with that key,
    every file of the walk is found under its own date and name, and it is
    the file found there when no other file of the walk has its key. *)
Theorem Lookup_after_Refresh (now : Z) (idx idx' : Index) :
  Refresh now idx = (idx', None) →
  (∀ date filename,
     Lookup idx' date filename =
       last (filter (λ f, nameKey (Date f) (Name f) = nameKey date filename)
               (walkedFiles (baseDir idx))))
  ∧ (∀ date filename f,
       Lookup idx' date filename = Some f →
       f ∈ walkedFiles (baseDir idx)
       ∧ nameKey (Date f) (Name f) = nameKey date filename)
  ∧ (∀ f, f ∈ walkedFiles (baseDir idx) → is_Some (Lookup idx' (Date f) (Name f)))
  ∧ (∀ f, f ∈ walkedFiles (baseDir idx) →
       (∀ g, g ∈ walkedFiles (baseDir idx) →
          nameKey (Date g) (Name g) = nameKey (Date f) (Name f) → g = f) →
       Lookup idx' (Date f) (Name f) = Some f).
Proof.
  intros Hr. pose proof (Refresh_names now idx idx' Hr) as Hl.
  assert (∀ date filename f,
            Lookup idx' date filename = Some f →
            f ∈ walkedFiles (baseDir idx)
            ∧ nameKey (Date f) (Name f) = nameKey date filename) as Hfound.
  { intros date filename f. rewrite Hl.
    intros Hin%last_Some_elem_of. by apply list_elem_of_filter in Hin as [? ?]. }
  assert (∀ f, f ∈ walkedFiles (baseDir idx) →
            is_Some (Lookup idx' (Date f) (Name f))) as Hsome.
  { intros f Hf. rewrite Hl.
    destruct (filter _ _) as [|g gs] eqn:Hfil.
    - assert (f ∈ filter (λ f0, nameKey (Date f0) (Name f0) = nameKey (Date f) (Name f))
                     (walkedFiles (baseDir idx))) as Hin
        by by apply list_elem_of_filter.
      rewrite Hfil in Hin. by apply elem_of_nil in Hin.
    - rewrite last_cons. destruct (last gs); eauto. }
  split_and!; [done..|].
  intros f Hf Huniq. destruct (Hsome f Hf) as [g Hg]. rewrite Hg. f_equal.
  apply Hfound in Hg as [Hgin Hk]. by apply Huniq.
Qed.

End NameFacts.

(** ** The scanner: working directories *)
Section CwdFacts.
Import sessions Spec.
Context `{!Go.Text} `{!System}.

Lemma ltb_lt a b : String.ltb a b = true ↔ String.le a b ∧ a ≠ b.
Proof.
  unfold String.ltb, String.le, String.leb.
  destruct (String.compare a b) eqn:Hc.
  - apply String.compare_eq_iff in Hc as ->. split; [done|]. by intros [_ []].
  - split; [|done]. intros _. split; [done|]. intros ->.
    pose proof (String.compare_antisym b b) as Ha. by rewrite Hc in Ha.
  - split; [done|]. by intros [[] _].
Qed.

Lemma ltb_trans a b c :
  String.ltb a b = true → String.ltb b c = true → String.ltb a c = true.
Proof.
  rewrite !ltb_lt. intros [Hab Hne] [Hbc Hne']. split; [by etrans|].
  intros ->. destruct Hne. by apply (anti_symm String.le).
Qed.

Lemma ltb_total a b : String.ltb a b = false → a = b ∨ String.ltb b a = true.
Proof.
  intros Hf. destruct (decide (a = b)) as [|Hne]; [by left|]. right.
  apply ltb_lt. split; [|done].
  destruct (total String.le a b) as [Hab|]; [|done].
  assert (String.ltb a b = true) as Ht by by apply ltb_lt. congruence.
Qed.

Lemma NormalizeCwd_idemp value : NormalizeCwd (NormalizeCwd value) = NormalizeCwd value.
Proof.
  unfold NormalizeCwd. destruct (String.eqb (Go.TrimSpace value) "") eqn:Hv.
  - by destruct (String.eqb (Go.TrimSpace UnknownCwd) "").
  - by rewrite Hv.
Qed.

Lemma CwdForFile_recorded f : CwdForFile f = NormalizeCwd (recordedCwd f).
Proof.
  unfold CwdForFile, recordedCwd. destruct (FileMeta f); [done|].
  unfold NormalizeCwd. by destruct (String.eqb (Go.TrimSpace UnknownCwd) "").
Qed.

Lemma NormalizeCwd_CwdForFile f : NormalizeCwd (CwdForFile f) = CwdForFile f.
Proof. by rewrite CwdForFile_recorded, NormalizeCwd_idemp. Qed.

Lemma cwdBefore_trans a b c : cwdBefore a b → cwdBefore b c → cwdBefore a c.
Proof.
  intros [Ha [->|Hab]] [Hb [->|Hbc]]; try done.
  - split; [done|]. by left.
  - split; [done|]. right. by eapply ltb_trans.
Qed.

Lemma cwdLess_false x y : cwdLess y x = false → x = y ∨ cwdBefore x y.
Proof.
  unfold cwdLess, cwdBefore.
  destruct (String.eqb_spec y UnknownCwd) as [->|Hy].
  - intros _. destruct (decide (x = UnknownCwd)) as [->|Hx]; [by left|].
    right. split; [done|]. by left.
  - destruct (String.eqb_spec x UnknownCwd) as [->|Hx]; [done|].
    intros [->|Hlt]%ltb_total; [by left|]. right. split; [done|]. by right.
Qed.

Lemma cwdLess_true x y : cwdLess x y = true → cwdBefore x y.
Proof.
  unfold cwdLess, cwdBefore.
  destruct (String.eqb_spec x UnknownCwd) as [->|Hx]; [done|].
  destruct (String.eqb_spec y UnknownCwd) as [->|Hy].
  - intros _. split; [done|]. by left.
  - intros Hlt. split; [done|]. by right.
Qed.

Lemma sortSlice_cwdLess (keys : list string) :
  NoDup keys → StronglySorted cwdBefore (Go.sortSlice cwdLess keys).
Proof.
  intros Hnd. apply StronglySorted_strict.
  { by rewrite sortSlice_Permutation. }
  apply Sorted_StronglySorted.
  { intros a b c [->|Hab] [->|Hbc]; eauto using cwdBefore_trans. }
  apply sortSlice_Sorted with (P := λ _, True).
  - intros x y _ _. apply cwdLess_false.
  - intros x y _ _ Hl. right. by apply cwdLess_true.
  - by apply Forall_forall.
Qed.

Lemma cwdBefore_asym a b : cwdBefore a b → ¬ cwdBefore b a.
Proof.
  intros [Ha [->|Hab]] [Hb [->|Hba]]; try done.
  apply ltb_lt in Hab as [Hab Hne], Hba as [Hba _].
  destruct Hne. by apply (anti_symm String.le).
Qed.

(** The order in which the keys come out of the map does not matter. *)
Lemma sortSlice_cwdLess_any_order (keys keys' : list string) :
  NoDup keys → keys' ≡ₚ keys →
  Go.sortSlice cwdLess keys' = Go.sortSlice cwdLess keys.
Proof.
  intros Hnd Hperm.
  apply StronglySorted_unique_strong with (R := cwdBefore).
  - intros x y _ _ Hxy Hyx. by apply cwdBefore_asym in Hxy.
  - apply sortSlice_cwdLess. by rewrite Hperm.
  - by apply sortSlice_cwdLess.
  - by rewrite !sortSlice_Permutation.
Qed.

Lemma elem_of_Cwds idx key : key ∈ Cwds idx ↔ is_Some (byCwd idx !! key).
Proof.
  unfold Cwds. rewrite sortSlice_Permutation, list_elem_of_fmap. split.
  - intros [[k files] [-> Hin%elem_of_map_to_list]]. by eexists.
  - intros [files Hfiles]. exists (key, files). split; [done|].
    by apply elem_of_map_to_list.
Qed.

Lemma NoDup_Cwds idx : NoDup (Cwds idx).
Proof. unfold Cwds. rewrite sortSlice_Permutation. apply NoDup_fst_map_to_list. Qed.

(** X2.  [Cwds] returns the keys of the working-directory map, each once,
    in ascending byte order with "(unknown)" after all the others; the order
    in which the keys come out of the map does not matter. *)
Theorem Cwds_sorted (idx : Index) :
  (∀ key, key ∈ Cwds idx ↔ is_Some (byCwd idx !! key))
  ∧ NoDup (Cwds idx)
  ∧ StronglySorted cwdBefore (Cwds idx)
  ∧ (∀ keys, keys ≡ₚ (map_to_list (byCwd idx)).*1 →
       Go.sortSlice cwdLess keys = Cwds idx).
Proof.
  split_and!.
  - apply elem_of_Cwds.
  - apply NoDup_Cwds.
  - apply sortSlice_cwdLess, NoDup_fst_map_to_list.
  - intros keys Hperm. apply sortSlice_cwdLess_any_order; [|done].
    apply NoDup_fst_map_to_list.
Qed.

Lemma Refresh_cwds now idx idx' :
  Refresh now idx = (idx', None) →
  (∀ key, default [] (byCwd idx' !! key) =
     filter (λ f, CwdForFile f = key) (walkedFiles (baseDir idx)))
  ∧ (∀ key, is_Some (byCwd idx' !! key) ↔
       ∃ f, f ∈ walkedFiles (baseDir idx) ∧ CwdForFile f = key).
Proof.
  intros Hr. split; [by apply (Refresh_ok now idx idx' Hr)|].
  apply Refresh_success in Hr as (_ & _ & dates & names & cwds & Hw & Hidx).
  assert (byCwd idx' = cwds) as Hc by by rewrite Hidx.
  clear Hidx. apply walk_ok in Hw. fold (walkedFiles (baseDir idx)) in Hw.
  assert (cwds = (fold_left addFile (walkedFiles (baseDir idx)) (∅, ∅, ∅)).2)
    as Hcwds by by rewrite <- Hw.
  rewrite fold_addFile_cwds in Hcwds. cbn [snd] in Hcwds.
  intros key. rewrite Hc, Hcwds, is_Some_fold_pushTo, lookup_empty.
  split; [intros [[]%is_Some_None|]|]; eauto.
Qed.

Lemma SessionsByCwd_Cwds now idx idx' key :
  Refresh now idx = (idx', None) → key ∈ Cwds idx' →
  SessionsByCwd idx' key = filter (λ f, CwdForFile f = key) (walkedFiles (baseDir idx)).
Proof.
  intros Hr Hk. pose proof (Refresh_cwds now idx idx' Hr) as [Hl Hkeys].
  apply elem_of_Cwds, Hkeys in Hk as (f & _ & <-).
  unfold SessionsByCwd. rewrite NormalizeCwd_CwdForFile. apply Hl.
Qed.

(** X3.  After a successful [Refresh] the two groupings hold the same
    files: the lists of all dates taken together, and the lists of all
    working directories taken together, are both a rearrangement of the
    files that the walk found.  No file is lost or listed twice in either. *)
Theorem Refresh_views_agree (now : Z) (idx idx' : Index) :
  Refresh now idx = (idx', None) →
  concat (map (SessionsByDate idx') (Dates idx')) ≡ₚ walkedFiles (baseDir idx)
  ∧ concat (map (SessionsByCwd idx') (Cwds idx')) ≡ₚ walkedFiles (baseDir idx).
Proof.
  intros Hr. split; [by apply (Refresh_snapshot now idx idx' Hr)|].
  pose proof (Refresh_cwds now idx idx' Hr) as [Hl Hkeys].
  assert (map (SessionsByCwd idx') (Cwds idx')
          = map (λ key, filter (λ f, CwdForFile f = key) (walkedFiles (baseDir idx)))
              (Cwds idx')) as ->.
  { apply map_ext_in. intros key Hk%list_elem_of_In. by eapply SessionsByCwd_Cwds. }
  apply concat_filter_partition; [apply NoDup_Cwds|].
  intros f Hf. apply elem_of_Cwds, Hkeys. eauto.
Qed.

Lemma count_concat {A} (ls : list (list A)) : count (concat ls) = sumOf (map count ls).
Proof.
  unfold count, sumOf. induction ls as [|l ls IH]; [done|].
  cbn [concat map foldr]. rewrite length_app, Nat2Z.inj_add, IH. done.
Qed.

(** X4.  After a successful [Refresh], [CwdCounts] has a count for exactly
    the directories of [Cwds]; each count is the number of files of the walk
    in that directory and is at least 1; the counts add up to the number of
    files. *)
Theorem CwdCounts_after_Refresh (now : Z) (idx idx' : Index) :
  Refresh now idx = (idx', None) →
  (∀ key n, CwdCounts idx' !! key = Some n →
     1 ≤ n ∧ n = count (filter (λ f, CwdForFile f = key) (walkedFiles (baseDir idx))))
  ∧ (∀ key, is_Some (CwdCounts idx' !! key) ↔ key ∈ Cwds idx')
  ∧ sumOf (map (λ key, default 0 (CwdCounts idx' !! key)) (Cwds idx'))
      = count (walkedFiles (baseDir idx)).
Proof.
  intros Hr. pose proof (Refresh_cwds now idx idx' Hr) as [Hl Hkeys].
  assert (∀ key, default 0 (CwdCounts idx' !! key)
                 = count (filter (λ f, CwdForFile f = key) (walkedFiles (baseDir idx))))
    as Hcount.
  { intros key. unfold CwdCounts. rewrite lookup_fmap, <- Hl.
    by destruct (byCwd idx' !! key). }
  split_and!.
  - intros key n Hn. pose proof (Hcount key) as Hc. rewrite Hn in Hc. cbn in Hc.
    split; [|done]. subst n.
    assert (is_Some (byCwd idx' !! key)) as (f & Hf & Hk)%Hkeys.
    { unfold CwdCounts in Hn. rewrite lookup_fmap in Hn.
      destruct (byCwd idx' !! key); [eauto|done]. }
    assert (f ∈ filter (λ f, CwdForFile f = key) (walkedFiles (baseDir idx))) as Hin
      by by apply list_elem_of_filter.
    unfold count. destruct (filter _ _); [by apply elem_of_nil in Hin|]. cbn. lia.
  - intros key. unfold CwdCounts. rewrite lookup_fmap, fmap_is_Some.
    symmetry. apply elem_of_Cwds.
  - rewrite (map_ext _ _ Hcount).
    rewrite <- (map_map (λ key, filter (λ f, CwdForFile f = key) (walkedFiles (baseDir idx)))
                  count).
    rewrite <- count_concat. unfold count. f_equal. apply Permutation_length.
    apply concat_filter_partition; [apply NoDup_Cwds|].
    intros f Hf. apply elem_of_Cwds, Hkeys. eauto.
Qed.

(** X5.  After a successful [Refresh], a file of the walk is listed under
    the working directory that its header records ("(unknown)" without a
    header), and under exactly those arguments of [SessionsByCwd] that
    normalise to the same directory: a blank argument stands for
    "(unknown)", and normalising the argument beforehand changes nothing. *)
Theorem SessionsByCwd_recorded (now : Z) (idx idx' : Index) (f : SessionFile) :
  Refresh now idx = (idx', None) →
  f ∈ walkedFiles (baseDir idx) →
  f ∈ SessionsByCwd idx' (recordedCwd f)
  ∧ (∀ cwd, f ∈ SessionsByCwd idx' cwd ↔ NormalizeCwd cwd = NormalizeCwd (recordedCwd f))
  ∧ (∀ cwd, SessionsByCwd idx' (NormalizeCwd cwd) = SessionsByCwd idx' cwd).
Proof.
  intros Hr Hf. pose proof (Refresh_cwds now idx idx' Hr) as [Hl _].
  assert (∀ cwd, f ∈ SessionsByCwd idx' cwd
                 ↔ NormalizeCwd cwd = NormalizeCwd (recordedCwd f)) as Hiff.
  { intros cwd. unfold SessionsByCwd. rewrite Hl, list_elem_of_filter.
    rewrite CwdForFile_recorded. split; [by intros [-> _]|]. by intros ->. }
  split_and!; [by apply Hiff|done|].
  intros cwd. unfold SessionsByCwd. by rewrite NormalizeCwd_idemp.
Qed.

End CwdFacts.

Section DateFacts.
Import sessions Spec.
Context `{!Go.Text} `{!System}.

(** X6.  After a successful [Refresh], every date of [Dates] is made of a
    four-digit year and a two-digit month and day and has at least one
    session; a date that is not in [Dates] has none; the files listed under
    a date carry that date. *)
Theorem Dates_have_sessions (now : Z) (idx idx' : Index) (date : DateKey) :
  Refresh now idx = (idx', None) →
  (date ∈ Dates idx' →
     digits 4 (Year date) ∧ digits 2 (Month date) ∧ digits 2 (Day date)
     ∧ ∃ f, f ∈ SessionsByDate idx' date)
  ∧ (date ∉ Dates idx' → SessionsByDate idx' date = [])
  ∧ (∀ f, f ∈ SessionsByDate idx' date → Date f = date).
Proof.
  intros Hr. pose proof (Refresh_ok now idx idx' Hr) as (Hd & _ & Hkeys).
  split_and!.
  - intros (f & Hf & <-)%elem_of_Dates%Hkeys.
    assert (validDate (Date f)) as Hv.
    { unfold walkedFiles in Hf. apply list_elem_of_omap in Hf as (call & _ & Hc).
      by eapply fileOfCall_validDate. }
    apply validDate_inv in Hv as ((? & ?) & (? & ?) & (? & ?)).
    split_and!; [done..|]. exists f. rewrite Hd, sortSlice_Permutation.
    by apply list_elem_of_filter.
  - intros Hn. unfold SessionsByDate. destruct (byDate idx' !! date) eqn:Hl; [|done].
    destruct Hn. apply elem_of_Dates. eauto.
  - intros f. rewrite Hd, sortSlice_Permutation. by intros [? _]%list_elem_of_filter.
Qed.

End DateFacts.


(** ** The parser: what a parsed session holds *)
Section ShapeFacts.
Import sessions Spec.
Context `{!Go.Text} `{!Go.TextLaws} `{!JSON} `{!Files}.
Variable enabled : bool.

Lemma parseResponseItem_wellFormed env lineText lineNum item :
  envType env = "response_item" →
  parseResponseItem enabled env lineText lineNum = Some item →
  wellFormed item.
Proof.
  intros Ht. unfold parseResponseItem.
  destruct (Unmarshal_responseItemPayload (envPayload env)) as [payload|]; [|done].
  destruct (String.eqb_spec (pType payload) "message") as [Hm|Hm].
  - destruct (String.eqb_spec (pRole payload) "user") as [Hu|Hu]; cbn [negb andb].
    + intros [= <-]. unfold wellFormed. cbn.
      split_and!; [done|left; done|by rewrite Hu|apply fallbackEmpty_nonEmpty].
    + destruct (String.eqb_spec (pRole payload) "assistant") as [Ha|Ha]; [|done].
      cbn [negb]. intros [= <-]. unfold wellFormed. cbn.
      split_and!; [done|right; left; done|by rewrite Ha|apply fallbackEmpty_nonEmpty].
  - destruct (String.eqb_spec (pType payload) "reasoning") as [Hr|Hr]; [|done].
    intros [= <-]. unfold wellFormed. cbn.
    split_and!; [done| |done|apply fallbackEmpty_nonEmpty].
    right; right. split_and!; [done..|]. unfold titleForType. by rewrite Ht, Hr.
Qed.

Lemma parseLine_wellFormed lineText lineNum session :
  match (parseLine enabled lineText lineNum session).1 with
  | Some item => wellFormed item
  | None => True
  end.
Proof.
  unfold parseLine. destruct (Unmarshal_envelope lineText) as [env|]; [|done].
  destruct (String.eqb (envType env) "session_meta").
  { by destruct (Unmarshal_SessionMeta (envPayload env)). }
  destruct (String.eqb_spec (envType env) "response_item") as [Ht|]; [|done].
  cbn [fst].
  destruct (parseResponseItem enabled env lineText lineNum) as [item|] eqn:Hitem; [|done].
  by eapply parseResponseItem_wellFormed.
Qed.

Lemma fold_parseChunk_wellFormed chunks : ∀ lineNum session,
  Forall wellFormed (Items session) →
  Forall wellFormed (Items (fold_left (parseChunk enabled) chunks (lineNum, session)).2).
Proof.
  induction chunks as [|chunk chunks IH]; intros lineNum session Hall; [done|].
  cbn [fold_left].
  destruct (parseChunk enabled (lineNum, session) chunk) as [n' s'] eqn:Hstep.
  apply IH. unfold parseChunk in Hstep. destruct (0 <? Go.len chunk); [|by simplify_eq].
  pose proof (parseLine_wellFormed (Go.TrimRightCRLF chunk) (lineNum + 1) session) as Hi.
  pose proof (parseLine_item enabled (Go.TrimRightCRLF chunk) (lineNum + 1) session)
    as [_ Hs].
  destruct (parseLine _ _ _ _) as [[item|] session']; simplify_eq; cbn [fst snd] in *.
  - cbn [Items]. rewrite Hs. apply Forall_app. split; [done|]. by constructor.
  - by rewrite Hs.
Qed.

Lemma absorb_wellFormed iu cur item :
  wellFormed cur → wellFormed item → wellFormed (absorb iu cur item).
Proof.
  intros (Ht & Hk & Hc & Hn) (_ & _ & _ & Hn'). unfold absorb.
  destruct (iu && isUserMessage item).
  { unfold wellFormed. cbn. done. }
  destruct (String.eqb_spec (Go.TrimSpace (Content item)) ""); cbn [negb];
    [done|].
  destruct (String.eqb_spec (Go.TrimSpace (Content cur)) ""); cbn [negb].
  - unfold wellFormed. cbn. done.
  - unfold wellFormed. cbn. split_and!; [done..|].
    by apply Go.TrimSpace_blank_line.
Qed.

Lemma mergeLoop_wellFormed items : ∀ cur iu out,
  Forall wellFormed (out ++ cur :: items) →
  Forall wellFormed (mergeLoop cur iu out items).
Proof.
  induction items as [|item items IH]; intros cur iu out Hall; [done|].
  cbn [mergeLoop]. destruct (sameKey cur item).
  - apply IH. apply Forall_app in Hall as [Hout Hrest].
    apply Forall_cons in Hrest as [Hcur Hrest].
    apply Forall_cons in Hrest as [Hitem Hrest].
    apply Forall_app. split; [done|]. constructor; [|done].
    by apply absorb_wellFormed.
  - apply IH. by rewrite <- app_assoc.
Qed.

Lemma mergeConsecutive_wellFormed items :
  Forall wellFormed items → Forall wellFormed (mergeConsecutive items).
Proof.
  destruct items as [|cur items]; [done|]. intros Hall.
  unfold mergeConsecutive. by apply mergeLoop_wellFormed.
Qed.

Lemma ParseSession_wellFormed path session :
  ParseSession enabled path = inr session → Forall wellFormed (Items session).
Proof.
  unfold ParseSession. destruct (Open path) as [err|[content stop]]; [done|].
  pose proof (fold_parseChunk_wellFormed (readChunks content) 0
                {| Path := path; Meta := None; Items := [] |}
                ltac:(constructor)) as Hall.
  destruct (fold_left _ _ _) as [n parsed]. cbn [snd] in Hall.
  destruct stop; [done|]. intros [= <-]. cbn [Items].
  by apply mergeConsecutive_wellFormed.
Qed.

(** X7.  Every entry of a parsed session is well formed: its type is
    "response_item"; it is a user message titled "User", an assistant
    message titled "Agent" or a reasoning entry of the assistant titled
    "Reasoning"; it has the class of its role and a content that is not
    blank.  Tool calls, tool outputs, event messages, headers and lines that
    do not decode never become entries.  The session carries the path that
    was parsed. *)
Theorem ParseSession_items_wellFormed (path : string) (session : Session) :
  ParseSession enabled path = inr session →
  Path session = path ∧ Forall wellFormed (Items session).
Proof.
  intros Hp. split; [|by eapply ParseSession_wellFormed].
  unfold ParseSession in Hp. destruct (Open path) as [err|[content stop]]; [done|].
  assert (∀ chunks lineNum s,
            Path (fold_left (parseChunk enabled) chunks (lineNum, s)).2 = Path s) as Hpath.
  { induction chunks as [|chunk chunks IH]; intros lineNum s; [done|].
    cbn [fold_left].
    destruct (parseChunk enabled (lineNum, s) chunk) as [n' s'] eqn:Hstep.
    rewrite IH. unfold parseChunk in Hstep.
    destruct (0 <? Go.len chunk); [|by simplify_eq].
    unfold parseLine in Hstep.
    destruct (Unmarshal_envelope _) as [env|]; [|by simplify_eq].
    destruct (String.eqb (envType env) "session_meta").
    { destruct (Unmarshal_SessionMeta (envPayload env)); by simplify_eq. }
    destruct (String.eqb (envType env) "response_item"); [|by simplify_eq].
    destruct (parseResponseItem _ _ _ _); by simplify_eq. }
  specialize (Hpath (readChunks content) 0 {| Path := path; Meta := None; Items := [] |}).
  destruct (fold_left _ _ _) as [n parsed]. cbn [snd] in Hpath.
  destruct stop; [done|]. by simplify_eq.
Qed.

End ShapeFacts.

(** ** The parser: line numbers *)
Section LineFacts.
Import sessions Spec.
Context `{!Go.Text} `{!JSON} `{!Files}.
Variable enabled : bool.

Lemma parseLine_line lineText lineNum session :
  match (parseLine enabled lineText lineNum session).1 with
  | Some item => Line item = lineNum ∧ Raw item = lineText
  | None => True
  end
  ∧ Items (parseLine enabled lineText lineNum session).2 = Items session.
Proof.
  unfold parseLine. destruct (Unmarshal_envelope lineText) as [env|]; [|done].
  destruct (String.eqb (envType env) "session_meta").
  { by destruct (Unmarshal_SessionMeta (envPayload env)). }
  destruct (String.eqb (envType env) "response_item"); [|done].
  cbn [fst snd]. split; [|done]. unfold parseResponseItem.
  destruct (Unmarshal_responseItemPayload (envPayload env)) as [payload|]; [|done].
  destruct (String.eqb (pType payload) "message").
  - by destruct (_ && _).
  - by destruct (String.eqb (pType payload) "reasoning").
Qed.

Lemma recordsLine_app texts more item :
  recordsLine texts item → recordsLine (texts ++ more) item.
Proof.
  intros [Hl Hr]. split; [done|]. by apply lookup_app_l_Some.
Qed.

Lemma fold_parseChunk_lines chunks : ∀ texts session,
  Forall (recordsLine texts) (Items session) →
  StronglySorted Z.lt (map Line (Items session)) →
  let texts' :=
    texts ++ map Go.TrimRightCRLF (filter (λ chunk, chunk ≠ "") chunks) in
  let session' :=
    (fold_left (parseChunk enabled) chunks (Z.of_nat (length texts), session)).2 in
  Forall (recordsLine texts') (Items session')
  ∧ StronglySorted Z.lt (map Line (Items session')).
Proof.
  induction chunks as [|chunk chunks IH]; intros texts session Hall Hs.
  { cbn. by rewrite app_nil_r. }
  cbn [fold_left]. rewrite filter_cons.
  destruct (parseChunk enabled (Z.of_nat (length texts), session) chunk)
    as [n' s'] eqn:Hstep.
  unfold parseChunk in Hstep. unfold Go.len in Hstep.
  destruct (decide (chunk ≠ "")) as [Hne|Heq].
  - assert ((0 <? Z.of_nat (String.length chunk)) = true) as Hpos.
    { apply Z.ltb_lt. destruct chunk; [done|]. cbn. lia. }
    rewrite Hpos in Hstep.
    pose proof (parseLine_line (Go.TrimRightCRLF chunk) (Z.of_nat (length texts) + 1)
                  session) as [Hi Hitems].
    assert (n' = Z.of_nat (length (texts ++ [Go.TrimRightCRLF chunk]))) as Hn.
    { rewrite length_app. cbn. destruct (parseLine _ _ _ _) as [[item|] ?];
        simplify_eq; lia. }
    assert (Forall (recordsLine (texts ++ [Go.TrimRightCRLF chunk])) (Items s')
            ∧ StronglySorted Z.lt (map Line (Items s'))) as [Hall' Hs'].
    { assert (Forall (recordsLine (texts ++ [Go.TrimRightCRLF chunk])) (Items session))
        as Hold.
      { eapply Forall_impl; [exact Hall|]. intros item. apply recordsLine_app. }
      destruct (parseLine _ _ _ _) as [[item|] session'] eqn:Hp;
        simplify_eq; cbn [fst snd] in *; [|by rewrite Hitems].
      destruct Hi as [Hline Hraw]. cbn [Items]. rewrite Hitems. split.
      - apply Forall_app. split; [done|]. constructor; [|done].
        split; [lia|]. rewrite Hline, Hraw.
        replace (Z.to_nat (Z.of_nat (length texts) + 1 - 1)) with (length texts) by lia.
        by rewrite lookup_app_r, Nat.sub_diag by lia.
      - rewrite map_app. cbn [map]. apply StronglySorted_app.
        split_and!; [|done|repeat constructor].
        intros n y (old & -> & Hold')%list_elem_of_fmap ->%list_elem_of_singleton.
        apply (proj1 (Forall_forall _ _) Hall) in Hold' as [Hl Hlook].
        apply lookup_lt_Some in Hlook. lia. }
    rewrite Hn. cbn [map]. rewrite (cons_middle _ texts), app_assoc.
    by apply IH.
  - assert (chunk = "") as ->.
    { destruct (decide (chunk = "")) as [|Hne]; [done|]. by destruct Heq. }
    change (0 <? Z.of_nat (String.length "")) with false in Hstep.
    cbv iota in Hstep. simplify_eq. by apply IH.
Qed.

Lemma absorb_line iu cur item :
  (Line (absorb iu cur item) = Line cur ∧ Raw (absorb iu cur item) = Raw cur)
  ∨ (Line (absorb iu cur item) = Line item ∧ Raw (absorb iu cur item) = Raw item).
Proof.
  unfold absorb. destruct (iu && isUserMessage item); [by right|].
  destruct (negb _); [|by left]. destruct (negb _); by left.
Qed.

Lemma mergeLoop_lines texts items : ∀ cur iu out,
  Forall (recordsLine texts) (out ++ cur :: items) →
  StronglySorted Z.lt (map Line (out ++ cur :: items)) →
  Forall (recordsLine texts) (mergeLoop cur iu out items)
  ∧ StronglySorted Z.lt (map Line (mergeLoop cur iu out items)).
Proof.
  induction items as [|item items IH]; intros cur iu out Hall Hs; [done|].
  cbn [mergeLoop]. destruct (sameKey cur item).
  - apply Forall_app in Hall as [Hout Hrest].
    apply Forall_cons in Hrest as [Hcur Hrest].
    apply Forall_cons in Hrest as [Hitem Hrest].
    rewrite map_app in Hs. cbn [map] in Hs.
    apply StronglySorted_app in Hs as (Hcross & Hsout & Hs).
    apply StronglySorted_cons in Hs as [Hcurlt Hs].
    apply StronglySorted_cons in Hs as [Hitemlt Hs].
    apply Forall_cons in Hcurlt as [Hci Hcurlt].
    assert (Line (absorb iu cur item) = Line cur ∨ Line (absorb iu cur item) = Line item)
      as Hpick by (destruct (absorb_line iu cur item) as [[? _]|[? _]]; eauto).
    apply IH.
    + apply Forall_app. split; [done|]. constructor; [|done].
      destruct (absorb_line iu cur item) as [[Hl Hr]|[Hl Hr]];
        unfold recordsLine; rewrite Hl, Hr; [apply Hcur|apply Hitem].
    + rewrite map_app. cbn [map]. apply StronglySorted_app. split_and!; [|done|].
      * intros x y Hx Hy. apply Hcross; [done|].
        apply elem_of_cons in Hy as [->|Hy].
        -- destruct Hpick as [-> | ->]; [apply elem_of_cons; by left|].
           apply elem_of_cons; right. apply elem_of_cons; by left.
        -- apply elem_of_cons; right. apply elem_of_cons; by right.
      * apply StronglySorted_cons. split; [|done].
        destruct Hpick as [-> | ->]; done.
  - apply IH; by rewrite <- app_assoc.
Qed.

(** X8.  When the file can be read to its end, [ParseSession] succeeds,
    every entry records a line of the file ([Line] is the number of a line,
    counted from 1, and [Raw] the text of that line without its line
    ending, also after the merge step), and the line numbers of the entries
    are strictly increasing. *)
Theorem ParseSession_records_lines (path content : string) :
  Open path = inr (content, None) →
  ∃ session,
    ParseSession enabled path = inr session
    ∧ Forall (recordsLine (lines content)) (Items session)
    ∧ StronglySorted Z.lt (map Line (Items session)).
Proof.
  intros Ho. unfold ParseSession. rewrite Ho.
  pose proof (fold_parseChunk_lines (readChunks content) []
                {| Path := path; Meta := None; Items := [] |}
                ltac:(constructor) ltac:(constructor)) as [Hall Hs].
  cbn [length app] in Hall, Hs. change (Z.of_nat 0) with 0 in Hall, Hs.
  fold (lines content) in Hall.
  destruct (fold_left _ _ _) as [n parsed]. cbn [snd] in Hall, Hs.
  eexists. split; [done|]. cbn [Items].
  destruct (Items parsed) as [|cur items]; [done|].
  unfold mergeConsecutive. by apply (mergeLoop_lines _ items cur _ []).
Qed.

End LineFacts.


(** ** The merge rule: locality *)
Section MergeLocal.
Import sessions Spec.
Context `{!Go.Text}.

Lemma runs_app_boundary l1 : ∀ x y l2,
  key x ≠ key y →
  runs (l1 ++ x :: y :: l2) = runs (l1 ++ [x]) ++ runs (y :: l2).
Proof.
  induction l1 as [|a l1 IH]; intros x y l2 Hne.
  - destruct (runs_head y l2) as (ys & rs & Hr).
    change (runs ([] ++ x :: y :: l2)) with
      (match runs (y :: l2) with
       | (z, zs) :: rs =>
           if decide (key x = key z) then (x, z :: zs) :: rs
           else (x, []) :: (z, zs) :: rs
       | [] => [(x, [])]
       end).
    rewrite Hr, decide_False by done. reflexivity.
  - cbn [app]. 
    change (runs (a :: l1 ++ x :: y :: l2)) with
      (match runs (l1 ++ x :: y :: l2) with
       | (z, zs) :: rs =>
           if decide (key a = key z) then (a, z :: zs) :: rs
           else (a, []) :: (z, zs) :: rs
       | [] => [(a, [])]
       end).
    change (runs (a :: l1 ++ [x])) with
      (match runs (l1 ++ [x]) with
       | (z, zs) :: rs =>
           if decide (key a = key z) then (a, z :: zs) :: rs
           else (a, []) :: (z, zs) :: rs
       | [] => [(a, [])]
       end).
    rewrite IH by done.
    destruct (runs (l1 ++ [x])) as [|[z zs] rs] eqn:Hr.
    { destruct l1; cbn [app] in Hr.
      - destruct (runs_head x []) as (? & ? & Hh). cbn [app] in Hr. congruence.
      - destruct (runs_head r (l1 ++ [x])) as (? & ? & Hh). congruence. }
    cbn [app]. by destruct (decide (key a = key z)).
Qed.

(** X9.  Merging is local.  Where two neighbours differ in (type, subtype,
    role) the list can be cut: merging the whole list is merging the two
    parts and concatenating the results. *)
Theorem mergeConsecutive_app (l1 l2 : list RenderItem) (x y : RenderItem) :
  key x ≠ key y →
  mergeConsecutive (l1 ++ x :: y :: l2)
    = mergeConsecutive (l1 ++ [x]) ++ mergeConsecutive (y :: l2).
Proof.
  intros Hne. rewrite !mergeConsecutive_foldRun, runs_app_boundary by done.
  apply map_app.
Qed.

Lemma runs_length items : (length (runs items) ≤ length items)%nat.
Proof.
  induction items as [|x l IH]; [done|].
  cbn [runs]. destruct (runs l) as [|[y ys] rs]; cbn [length] in *; [lia|].
  destruct (decide (key x = key y)); cbn [length]; lia.
Qed.

Lemma runs_full items :
  length (runs items) = length items → Sorted (λ a b, key a ≠ key b) items.
Proof.
  induction items as [|x l IH]; [constructor|].
  pose proof (runs_length l) as Hle.
  destruct (runs_head x l) as (a & rs & Hr).
  cbn [runs] in *. destruct (runs l) as [|[y ys] rs'] eqn:Hl.
  - destruct l as [|z l]; [repeat constructor|].
    destruct (runs_head z l) as (? & ? & ?). congruence.
  - destruct l as [|z l]; [done|].
    destruct (runs_head z l) as (zs & rs'' & Hz). rewrite Hz in Hl.
    injection Hl as -> -> ->.
    destruct (decide (key x = key y)) as [|Hne]; cbn [length] in *; [lia|].
    intros Hlen. constructor; [apply IH; lia|]. by constructor.
Qed.

Lemma mergeConsecutive_Sorted items :
  Sorted (λ a b, key a ≠ key b) (mergeConsecutive items).
Proof.
  rewrite mergeConsecutive_foldRun. apply Sorted_map.
  eapply Sorted_ind with (P := λ rs, Sorted _ rs); [constructor| |apply runs_maximal].
  intros r rs _ IH Hh. constructor; [done|].
  destruct Hh as [|r' rs' Hr]; constructor. by rewrite !foldRun_key.
Qed.

Lemma mergeConsecutive_distinct items :
  Sorted (λ a b, key a ≠ key b) items → mergeConsecutive items = items.
Proof.
  intros Hs. rewrite mergeConsecutive_foldRun, runs_distinct by done.
  rewrite map_map. cbn. apply map_id.
Qed.

(** X10.  [mergeConsecutive] never returns more entries than it gets; it
    returns its argument unchanged exactly when no two neighbours have the
    same (type, subtype, role), which is also exactly when the length is
    kept; the keys of the result are the keys of the runs, in order. *)
Theorem mergeConsecutive_unchanged (items : list RenderItem) :
  (length (mergeConsecutive items) ≤ length items)%nat
  ∧ (mergeConsecutive items = items ↔ Sorted (λ a b, key a ≠ key b) items)
  ∧ (length (mergeConsecutive items) = length items ↔
       Sorted (λ a b, key a ≠ key b) items)
  ∧ map key (mergeConsecutive items) = map (λ r, key r.1) (runs items).
Proof.
  split_and!.
  - rewrite mergeConsecutive_foldRun, length_map. apply runs_length.
  - split; [|apply mergeConsecutive_distinct].
    intros <-. apply mergeConsecutive_Sorted.
  - split.
    + rewrite mergeConsecutive_foldRun, length_map. apply runs_full.
    + by intros ->%mergeConsecutive_distinct.
  - rewrite mergeConsecutive_foldRun, map_map. apply map_ext. intros r.
    apply foldRun_key.
Qed.

End MergeLocal.

(** ** The search index: the entries of a file *)
Section EntryFacts.
Import sessions search Spec.
Context `{!Go.Text} `{!Go.TextLaws} `{!JSON} `{!Files} `{!System}.
Variable enabled : bool.

(** X11.  When [buildEntries] succeeds, the session parses and the entries
    are, in order, one for each entry of the session (none is skipped, as
    the contents of a parsed session are not blank): the line and the role
    of the entry, its trimmed content with the lower-case copy, and the date
    label, the date path and the name of the file. *)
Theorem buildEntries_one_per_item (f : SessionFile) (es : list entry) :
  buildEntries enabled f = inr es →
  ∃ session,
    ParseSession enabled (FilePath f) = inr session
    ∧ map line es = map Line (Items session)
    ∧ map role es = map Role (Items session)
    ∧ map content es = map (λ item, Go.TrimSpace (Content item)) (Items session)
    ∧ Forall (λ e, date e = DateKey_String (Date f) ∧ path e = DateKey_Path (Date f)
                   ∧ file e = Name f ∧ lower e = Go.ToLower (content e)
                   ∧ content e ≠ "") es.
Proof.
  unfold buildEntries.
  destruct (ParseSession enabled (FilePath f)) as [err|session] eqn:Hp; [done|].
  intros [= <-]. exists session. split; [done|].
  apply ParseSession_wellFormed in Hp.
  induction Hp as [|item items (_ & _ & _ & Hn) Hall IH]; [by repeat split|].
  cbn [omap list_omap]. unfold nonEmpty in Hn.
  destruct (String.eqb_spec (Go.TrimSpace (Content item)) "") as [|_]; [done|].
  destruct IH as (Hl & Hr & Hc & Hf). cbn [map].
  rewrite Hl, Hr, Hc. split_and!; [done..|]. constructor; [|done]. by cbn.
Qed.

End EntryFacts.


(** ** The search index: errors and a second pass *)
Section RefreshAgain.
Import sessions search Spec.
Context `{!Go.Text} `{!JSON} `{!Files} `{!System}.
Variable enabled : bool.

Lemma ParseSession_error path err :
  ParseSession enabled path = inl err ↔
    Open path = inl err ∨ ∃ content, Open path = inr (content, Some err).
Proof.
  unfold ParseSession. destruct (Open path) as [e|[content stop]].
  - split; [intros [= ->]; by left|]. intros [[= ->]|[? [=]]]. done.
  - destruct (fold_left _ _ _) as [n parsed]. destruct stop as [e|].
    + split; [intros [= ->]; right; eauto|]. intros [[=]|[? [= _ ->]]]. done.
    + split; [done|]. intros [[=]|[? [=]]].
Qed.

Lemma parseError_Open f err :
  parseError enabled f = Some err ↔
    Open (FilePath f) = inl err ∨ ∃ content, Open (FilePath f) = inr (content, Some err).
Proof.
  rewrite <- ParseSession_error. unfold parseError, buildEntries.
  destruct (ParseSession enabled (FilePath f)) as [e|session].
  - split; by intros [= ->].
  - done.
Qed.

Lemma RefreshFrom_firstErr sessionsIdx idx :
  (RefreshFrom enabled sessionsIdx idx).2
    = head (omap (parseError enabled)
              (filter (λ f, cached (files idx) f = false) (snapshotFiles sessionsIdx))).
Proof.
  rewrite RefreshFrom_unfold. cbn [snd]. rewrite parseFiles_firstErr.
  by rewrite selectFiles_toParse.
Qed.

Lemma head_omap_None {A B} (g : A → option B) (l : list A) :
  head (omap g l) = None ↔ ∀ x, x ∈ l → g x = None.
Proof.
  induction l as [|x l IH]; cbn [omap list_omap].
  - split; [|done]. intros _ x Hx. by apply elem_of_nil in Hx.
  - destruct (g x) as [y|] eqn:Hg.
    + split; [done|]. intros Hall. specialize (Hall x ltac:(apply elem_of_cons; by left)).
      congruence.
    + rewrite IH. split.
      * intros Hall y [->|Hy]%elem_of_cons; eauto.
      * intros Hall y Hy. apply Hall. apply elem_of_cons. by right.
Qed.

Lemma head_omap_Some {A B} (g : A → option B) (l : list A) y :
  head (omap g l) = Some y → ∃ x, x ∈ l ∧ g x = Some y.
Proof.
  induction l as [|x l IH]; cbn [omap list_omap]; [done|].
  destruct (g x) as [z|] eqn:Hg.
  - intros [= ->]. exists x. split; [apply elem_of_cons; by left|done].
  - intros (x' & Hx' & Hg')%IH. exists x'. split; [apply elem_of_cons; by right|done].
Qed.

(** X12.  The error that [RefreshFrom] returns is always an error of
    opening or reading a file of the snapshot whose cached record did not
    match; [RefreshFrom] returns no error exactly when every such file can
    be opened and read to its end.  What a file contains never makes the
    refresh fail. *)
Theorem RefreshFrom_error (sessionsIdx : sessions.Index) (idx : search.Index) :
  (∀ err, (RefreshFrom enabled sessionsIdx idx).2 = Some err →
     ∃ f, f ∈ snapshotFiles sessionsIdx ∧ cached (files idx) f = false
          ∧ (Open (FilePath f) = inl err
             ∨ ∃ content, Open (FilePath f) = inr (content, Some err)))
  ∧ ((RefreshFrom enabled sessionsIdx idx).2 = None ↔
       ∀ f, f ∈ snapshotFiles sessionsIdx → cached (files idx) f = false →
            ∃ content, Open (FilePath f) = inr (content, None)).
Proof.
  rewrite RefreshFrom_firstErr. split.
  - intros err (f & [Hc Hf]%list_elem_of_filter & He)%head_omap_Some.
    exists f. split_and!; [done..|]. by apply parseError_Open.
  - rewrite head_omap_None. split.
    + intros Hall f Hf Hc.
      specialize (Hall f ltac:(by apply list_elem_of_filter)).
      destruct (Open (FilePath f)) as [e|[content [e|]]] eqn:Ho; [..|eauto].
      * assert (parseError enabled f = Some e) by (apply parseError_Open; by left).
        congruence.
      * assert (parseError enabled f = Some e) by (apply parseError_Open; eauto).
        congruence.
    + intros Hall f [Hc Hf]%list_elem_of_filter.
      destruct (Hall f Hf Hc) as [content Ho].
      destruct (parseError enabled f) as [e|] eqn:He; [|done].
      apply parseError_Open in He as [He|[c He]]; congruence.
Qed.

Lemma filter_ext_elem_of {A} (P Q : A → Prop) `{∀ x, Decision (P x)} `{∀ x, Decision (Q x)}
    (l : list A) :
  (∀ x, x ∈ l → P x ↔ Q x) → filter P l = filter Q l.
Proof.
  induction l as [|x l IH]; intros Hiff; [done|].
  rewrite !filter_cons.
  assert (P x ↔ Q x) as Hx by (apply Hiff, elem_of_cons; by left).
  rewrite IH by (intros y Hy; apply Hiff, elem_of_cons; by right).
  destruct (decide (P x)), (decide (Q x)); tauto || done.
Qed.

Lemma filter_none {A} (P : A → Prop) `{∀ x, Decision (P x)} (l : list A) :
  (∀ x, x ∈ l → ¬ P x) → filter P l = [].
Proof.
  induction l as [|x l IH]; intros Hall; [done|].
  rewrite filter_cons, decide_False by (apply Hall, elem_of_cons; by left).
  apply IH. intros y Hy. apply Hall, elem_of_cons. by right.
Qed.

Lemma cached_after sessionsIdx idx f :
  NoDup (map FilePath (snapshotFiles sessionsIdx)) →
  f ∈ snapshotFiles sessionsIdx →
  cached (files (RefreshFrom enabled sessionsIdx idx).1) f =
    cached (files idx) f || bool_decide (parseError enabled f = None).
Proof.
  intros Hnd Hf.
  destruct (RefreshFrom_files enabled sessionsIdx idx Hnd) as (Hhit & Hmiss & _).
  destruct (cached (files idx) f) eqn:Hc; cbn [orb].
  - unfold cached. rewrite (Hhit f Hf Hc). exact Hc.
  - unfold cached at 1. rewrite (Hmiss f Hf Hc). unfold parseError.
    destruct (buildEntries enabled f) as [e|es].
    + rewrite bool_decide_eq_false_2 by done. exact Hc.
    + cbn [size modTime]. rewrite !Z.eqb_refl. by rewrite bool_decide_eq_true_2.
Qed.

(** X13.  A second [RefreshFrom] from the same snapshot, with the files
    unchanged on disk, hands to the parser exactly the files that the first
    one could not parse; when the first one returned no error, the second
    parses nothing, returns no error and leaves the index as it is. *)
Theorem RefreshFrom_again (sessionsIdx : sessions.Index) (idx : search.Index) :
  NoDup (map FilePath (snapshotFiles sessionsIdx)) →
  parsedFiles sessionsIdx (RefreshFrom enabled sessionsIdx idx).1
    = filter (λ f, cached (files idx) f = false ∧ is_Some (parseError enabled f))
        (snapshotFiles sessionsIdx)
  ∧ ((RefreshFrom enabled sessionsIdx idx).2 = None →
     RefreshFrom enabled sessionsIdx (RefreshFrom enabled sessionsIdx idx).1
       = ((RefreshFrom enabled sessionsIdx idx).1, None)).
Proof.
  intros Hnd.
  assert (parsedFiles sessionsIdx (RefreshFrom enabled sessionsIdx idx).1
          = filter (λ f, cached (files idx) f = false ∧ is_Some (parseError enabled f))
              (snapshotFiles sessionsIdx)) as Hparsed.
  { rewrite parsedFiles_filter. apply filter_ext_elem_of. intros f Hf.
    rewrite (cached_after _ _ _ Hnd Hf).
    destruct (cached (files idx) f); cbn [orb]; [by split; [|intros [? _]]|].
    destruct (parseError enabled f) as [e|].
    - rewrite bool_decide_eq_false_2 by done. split; [eauto|done].
    - rewrite bool_decide_eq_true_2 by done. split; [done|]. by intros [_ []%is_Some_None]. }
  split; [done|]. intros Herr.
  rewrite RefreshFrom_firstErr, head_omap_None in Herr.
  assert (parsedFiles sessionsIdx (RefreshFrom enabled sessionsIdx idx).1 = []) as Hnil.
  { rewrite Hparsed. apply filter_none. intros f Hf [Hc [e He]].
    rewrite (Herr f) in He; [done|]. by apply list_elem_of_filter. }
  set (idx1 := (RefreshFrom enabled sessionsIdx idx).1) in *.
  assert (idx1 = {| files := files idx1;
                    ordered := flatten (files idx1) (snapshotFiles sessionsIdx) |})
    as Hidx1.
  { unfold idx1. by rewrite RefreshFrom_unfold. }
  rewrite (RefreshFrom_unfold enabled sessionsIdx idx1). cbn zeta.
  pose proof (selectFiles_toParse (files idx1) (snapshotFiles sessionsIdx) ∅ []) as Hsel.
  cbn [app] in Hsel. rewrite <- parsedFiles_filter, Hnil in Hsel.
  rewrite Hsel. cbn [parseFiles fst snd].
  assert ((selectFiles (files idx1) (snapshotFiles sessionsIdx) ∅ []).1 = files idx1)
    as ->; [|by rewrite <- Hidx1].
  apply map_eq. intros p.
  destruct (decide (p ∈ map FilePath (snapshotFiles sessionsIdx))) as [Hin|Hout].
  - apply list_elem_of_fmap in Hin as (f & -> & Hf).
    apply selectFiles_hit; [done|].
    destruct (cached (files idx1) f) eqn:Hc; [done|].
    assert (f ∈ parsedFiles sessionsIdx idx1) as Hp
      by (rewrite parsedFiles_filter; by apply list_elem_of_filter).
    rewrite Hnil in Hp. by apply elem_of_nil in Hp.
  - rewrite selectFiles_other.
    + rewrite lookup_empty. symmetry.
      by apply (RefreshFrom_files enabled sessionsIdx idx Hnd).
    + intros f Hf _ <-. apply Hout. by apply list_elem_of_fmap_2.
Qed.

End RefreshAgain.


(** ** The search index: the size of an answer *)
Section PreviewFacts.
Import sessions search Spec.
Context `{!Go.Text}.

Lemma substring_length_le s : ∀ n m, (String.length (String.substring n m s) ≤ m)%nat.
Proof.
  induction s as [|c s IH]; intros [|n] [|m]; cbn; try lia.
  - specialize (IH 0%nat m). lia.
  - apply (IH n 0%nat).
  - apply (IH n (S m)).
Qed.

Lemma substring_length s : ∀ n m,
  (n + m ≤ String.length s)%nat → String.length (String.substring n m s) = m.
Proof.
  induction s as [|c s IH]; intros [|n] [|m]; cbn; try lia.
  - intros Hle. by rewrite (IH 0%nat m) by lia.
  - intros Hle. apply (IH n 0%nat). lia.
  - intros Hle. apply (IH n (S m)). lia.
Qed.

Lemma substring_decompose s : ∀ n m,
  ∃ pre suf, s = pre +:+ String.substring n m s +:+ suf.
Proof.
  induction s as [|c s IH]; intros n m.
  - exists "", "". by destruct n, m.
  - destruct n as [|n].
    + destruct m as [|m].
      * exists "", (String c s). done.
      * destruct (IH 0%nat m) as (pre & suf & Heq). cbn [String.substring].
        destruct pre as [|p pre].
        -- exists "", suf. change ("" +:+ ?x) with x in *.
           rewrite append_cons. by f_equal.
        -- exists "", (String.substring m (String.length s - m) s).
           change ("" +:+ ?x) with x. rewrite append_cons. f_equal.
           clear. revert m. induction s as [|c s IH]; intros [|m]; cbn; try done.
           ++ by rewrite substring_all.
           ++ change (String c (String.substring 0 m s) +:+ ?x)
                with (String c (String.substring 0 m s +:+ x)).
              f_equal. apply IH.
    + destruct (IH n m) as (pre & suf & Heq). exists (String c pre), suf.
      cbn [String.substring]. rewrite append_cons. by f_equal.
Qed.

Lemma substring_prefix s m :
  ∃ suf, s = String.substring 0 m s +:+ suf.
Proof.
  revert m. induction s as [|c s IH]; intros [|m].
  - by exists "".
  - by exists "".
  - by exists (String c s).
  - destruct (IH m) as [suf Heq]. exists suf. cbn [String.substring].
    rewrite append_cons. by f_equal.
Qed.

Lemma list_ascii_app a b :
  list_ascii_of_string (a +:+ b) = list_ascii_of_string a ++ list_ascii_of_string b.
Proof.
  induction a as [|c a IH]; [done|]. rewrite append_cons. cbn. by rewrite IH.
Qed.

Lemma allBytes_app P a b : allBytes P (a +:+ b) ↔ allBytes P a ∧ allBytes P b.
Proof. unfold allBytes. rewrite list_ascii_app. apply Forall_app. Qed.

Lemma allBytes_substring P s n m : allBytes P s → allBytes P (String.substring n m s).
Proof.
  destruct (substring_decompose s n m) as (pre & suf & Heq).
  rewrite Heq at 1. rewrite !allBytes_app. tauto.
Qed.

Lemma allBytes_impl (P Q : ascii → Prop) s :
  (∀ c, P c → Q c) → allBytes P s → allBytes Q s.
Proof. intros Hpq Hall. unfold allBytes in *. by eapply Forall_impl. Qed.

Lemma oneLine_app a b : oneLine (a +:+ b) ↔ oneLine a ∧ oneLine b.
Proof. apply allBytes_app. Qed.

Lemma oneLine_substring s n m : oneLine s → oneLine (String.substring n m s).
Proof. apply allBytes_substring. Qed.

Lemma oneLine_ReplaceByte s :
  oneLine (Go.ReplaceByte (Go.ReplaceByte s Go.CR " ") Go.LF " ").
Proof.
  unfold oneLine, allBytes. induction s as [|c s IH]; [constructor|].
  cbn. constructor; [|done].
  destruct (Ascii.eqb_spec c Go.CR) as [->|Hcr]; [done|].
  destruct (Ascii.eqb_spec c Go.LF) as [->|Hlf]; done.
Qed.

(** X14.  For a limit that is not negative, [truncate] returns
    min(len value, max) bytes: the value itself exactly when it fits and
    otherwise, for a limit above 3, the first max - 3 bytes of the value
    followed by "...". *)
Theorem truncate_length (value : string) (max : Z) :
  0 ≤ max →
  Go.len (truncate value max) = Z.min (Go.len value) max
  ∧ (truncate value max = value ↔ Go.len value ≤ max)
  ∧ (max < Go.len value → 3 < max →
       ∃ kept rest, value = kept +:+ rest ∧ Go.len kept = max - 3
                    ∧ truncate value max = kept +:+ "...").
Proof.
  intros Hmax. unfold truncate, Go.len, Go.slice.
  destruct (Z.leb_spec (Z.of_nat (String.length value)) max) as [Hfit|Hcut].
  { split_and!; [lia|done|lia]. }
  change (Z.to_nat 0) with 0%nat. rewrite !Nat.sub_0_r.
  destruct (Z.leb_spec max 3) as [Hsmall|Hbig].
  - assert (String.length (String.substring 0 (Z.to_nat max) value) = Z.to_nat max)
      as Hl by (apply substring_length; lia).
    split_and!; [lia| |lia].
    split; [|lia]. intros Heq. rewrite Heq in Hl. lia.
  - assert (String.length (String.substring 0 (Z.to_nat (max - 3)) value)
            = Z.to_nat (max - 3)) as Hl by (apply substring_length; lia).
    assert (String.length (String.substring 0 (Z.to_nat (max - 3)) value +:+ "...")
            = Z.to_nat max) as Hl'.
    { rewrite string_length_app, Hl. cbn. lia. }
    split_and!; [lia| |].
    + split; [|lia]. intros Heq. rewrite Heq in Hl'. lia.
    + intros _ _. destruct (substring_prefix value (Z.to_nat (max - 3))) as [rest Hrest].
      exists (String.substring 0 (Z.to_nat (max - 3)) value), rest.
      split_and!; [done|lia|done].
Qed.

Lemma truncate_le value max : 0 ≤ max → Go.len (truncate value max) ≤ max.
Proof.
  intros Hmax. unfold truncate, Go.len, Go.slice.
  destruct (Z.leb_spec (Z.of_nat (String.length value)) max) as [Hfit|Hcut]; [done|].
  change (Z.to_nat 0) with 0%nat. rewrite !Nat.sub_0_r.
  destruct (Z.leb_spec max 3) as [Hsmall|Hbig].
  - pose proof (substring_length_le value 0 (Z.to_nat max)). lia.
  - rewrite string_length_app.
    pose proof (substring_length_le value 0 (Z.to_nat (max - 3))). cbn. lia.
Qed.

Lemma truncate_oneLine value max : oneLine value → oneLine (truncate value max).
Proof.
  intros Hv. unfold truncate, Go.slice.
  destruct (_ <=? _); [done|]. destruct (_ <=? _); [by apply oneLine_substring|].
  apply oneLine_app. split; [by apply oneLine_substring|].
  unfold oneLine, allBytes. cbn. by repeat constructor.
Qed.

(** [strings.TrimSpace] returns a part of its argument. *)
Hypothesis TrimSpace_part : ∀ s, ∃ pre suf, s = pre +:+ Go.TrimSpace s +:+ suf.

Lemma TrimSpace_length s : (String.length (Go.TrimSpace s) ≤ String.length s)%nat.
Proof.
  destruct (TrimSpace_part s) as (pre & suf & Heq). rewrite Heq at 2.
  rewrite !string_length_app. lia.
Qed.

Lemma TrimSpace_oneLine s : oneLine s → oneLine (Go.TrimSpace s).
Proof.
  destruct (TrimSpace_part s) as (pre & suf & Heq). rewrite Heq at 1.
  rewrite !oneLine_app. tauto.
Qed.

Lemma makePreview_bounded content matchIndex queryLen :
  Go.len (makePreview content matchIndex queryLen) ≤ Z.max 180 (queryLen + 126)
  ∧ oneLine (makePreview content matchIndex queryLen).
Proof.
  unfold makePreview.
  set (cleaned := Go.TrimSpace _).
  assert (oneLine cleaned) as Hclean
    by apply TrimSpace_oneLine, oneLine_ReplaceByte.
  destruct (String.eqb cleaned "").
  { split; [unfold Go.len; cbn [String.length]; lia|constructor]. }
  destruct ((matchIndex <? 0) || (Go.len cleaned <=? matchIndex) || (queryLen <=? 0))
    eqn:Hguard.
  { split; [|by apply truncate_oneLine].
    pose proof (truncate_le cleaned 180 ltac:(lia)). unfold snippetMax. lia. }
  apply orb_false_iff in Hguard as [[Hm Hlen]%orb_false_iff Hq].
  apply Z.ltb_ge in Hm. apply Z.leb_gt in Hlen, Hq.
  unfold snippetRadius.
  set (start := if matchIndex - 60 <? 0 then 0 else matchIndex - 60).
  set (end_ := if Go.len cleaned <? matchIndex + queryLen + 60 then Go.len cleaned
               else matchIndex + queryLen + 60).
  set (snippet := Go.TrimSpace (Go.slice cleaned start end_)).
  assert (Go.len snippet ≤ queryLen + 120) as Hsn.
  { unfold snippet, Go.len.
    pose proof (TrimSpace_length (Go.slice cleaned start end_)) as Ht.
    pose proof (substring_length_le cleaned (Z.to_nat start)
                  (Z.to_nat end_ - Z.to_nat start)) as Hs.
    unfold Go.slice in *.
    assert (Z.of_nat (Z.to_nat end_ - Z.to_nat start) ≤ queryLen + 120); [|lia].
    unfold start, end_, Go.len in *.
    destruct (Z.ltb_spec (matchIndex - 60) 0);
      destruct (Z.ltb_spec (Z.of_nat (String.length cleaned)) (matchIndex + queryLen + 60));
      lia. }
  assert (oneLine snippet) as Hone.
  { unfold snippet. apply TrimSpace_oneLine. unfold Go.slice.
    by apply oneLine_substring. }
  assert (oneLine "...") as Hdots
    by (unfold oneLine, allBytes; cbn; by repeat constructor).
  split.
  - destruct (0 <? start); destruct (end_ <? Go.len cleaned);
      unfold Go.len in *; rewrite ?string_length_app; cbn [String.length]; lia.
  - destruct (0 <? start); destruct (end_ <? Go.len cleaned);
      rewrite ?oneLine_app; tauto.
Qed.

Lemma searchLoop_Forall (P : Result → Prop) q lowerq limit items : ∀ results,
  (∀ item matchIndex, P (resultOf q item matchIndex)) →
  Forall P results → Forall P (searchLoop q lowerq limit results items).
Proof.
  induction items as [|item items IH]; intros results Hres Hall; [done|].
  cbn [searchLoop]. destruct (_ =? -1); [by apply IH|].
  assert (Forall P (results ++ [resultOf q item (Go.Index (lower item) lowerq)])) as Hall'.
  { apply Forall_app. split; [done|]. constructor; [apply Hres|done]. }
  destruct (_ <=? _); [done|]. by apply IH.
Qed.

Lemma searchLoop_length q lowerq limit items : ∀ results,
  (length results < Z.to_nat limit)%nat →
  (length (searchLoop q lowerq limit results items) ≤ Z.to_nat limit)%nat.
Proof.
  induction items as [|item items IH]; intros results Hlen; cbn [searchLoop]; [lia|].
  destruct (_ =? -1); [by apply IH|].
  destruct (Z.leb_spec limit (Z.of_nat (length (results ++ [resultOf q item
                (Go.Index (lower item) lowerq)])))) as [Hfull|Hmore].
  - rewrite length_app in *. cbn [length] in *. lia.
  - apply IH. lia.
Qed.

Lemma Search_length idx query limit :
  (length (Search idx query limit) ≤ Z.to_nat (effectiveLimit limit))%nat
  ∧ 1 ≤ effectiveLimit limit ≤ 200.
Proof.
  assert (1 ≤ effectiveLimit limit ≤ 200) as Hl.
  { unfold effectiveLimit. repeat case_decide; lia. }
  split; [|done]. unfold Search.
  destruct (String.eqb _ ""); [cbn; lia|].
  assert ((if maxLimit <? (if limit <=? 0 then defaultLimit else limit) then maxLimit
           else if limit <=? 0 then defaultLimit else limit) = effectiveLimit limit) as ->.
  { unfold effectiveLimit, maxLimit, defaultLimit.
    destruct (Z.leb_spec limit 0); [by rewrite decide_True by done|].
    rewrite decide_False by lia.
    destruct (Z.ltb_spec 200 limit); [by rewrite decide_True by done|].
    by rewrite decide_False by lia. }
  apply searchLoop_length. cbn [length]. lia.
Qed.

(** X15.  Every preview that [Search] returns is a single line (the
    carriage returns and line feeds of the content do not reach it) of at
    most max(180, len q + 126) bytes, where q is the trimmed query.  The
    proof uses that [strings.TrimSpace] returns a part of its argument. *)
Theorem Search_previews (idx : search.Index) (query : string) (limit : Z) :
  Forall (λ r, Go.len (Preview r) ≤ Z.max 180 (Go.len (Go.TrimSpace query) + 126)
               ∧ oneLine (Preview r))
    (Search idx query limit).
Proof.
  unfold Search. destruct (String.eqb _ ""); [constructor|].
  apply searchLoop_Forall; [|constructor].
  intros item matchIndex. cbn [resultOf Preview]. apply makePreview_bounded.
Qed.

End PreviewFacts.

(** ** The search handler *)
Section HandlerFacts.
Import sessions search Spec web.
Context `{!Go.Text}.

Lemma Search_effectiveLimit idx query limit limit' :
  effectiveLimit limit = effectiveLimit limit' →
  Search idx query limit = Search idx query limit'.
Proof.
  assert (∀ l, (if maxLimit <? (if l <=? 0 then defaultLimit else l) then maxLimit
                else if l <=? 0 then defaultLimit else l) = effectiveLimit l) as Heff.
  { intros l. unfold effectiveLimit, maxLimit, defaultLimit.
    destruct (Z.leb_spec l 0); [by rewrite decide_True by done|].
    rewrite decide_False by lia.
    destruct (Z.ltb_spec 200 l); [by rewrite decide_True by done|].
    by rewrite decide_False by lia. }
  intros Hl. unfold Search. destruct (String.eqb _ ""); [done|].
  by rewrite !Heff, Hl.
Qed.

(** X16.  A GET request to the search handler of a server with a search
    index is answered with the trimmed query and, when that has at least 2
    bytes, the results of [Search] for the limit that the request asks for
    (0 when the parameter is absent or not a number), with no results
    otherwise: the default (50) and the bound (200) that the handler applies
    are those that [Search] applies itself.  An answer never has more than
    200 results. *)
Theorem handleSearch_answer (searchIdx : search.Index) (rawQuery rawLimit : string) :
  let query := Go.TrimSpace rawQuery in
  let results :=
    if decide (2 ≤ Go.len query)
    then Search searchIdx query (requestedLimit rawLimit) else [] in
  handleSearch "GET" (Some searchIdx) rawQuery rawLimit = searchResponse query results
  ∧ (length results ≤ 200)%nat.
Proof.
  intros query results. split.
  - unfold handleSearch. cbn [String.eqb Ascii.eqb Bool.eqb negb]. f_equal.
    fold query. unfold results.
    destruct (Z.leb_spec 2 (Go.len query)); [|by rewrite decide_False by lia].
    rewrite decide_True by done. apply Search_effectiveLimit.
    unfold requestedLimit, effectiveLimit.
    destruct (String.eqb_spec rawLimit "") as [->|Hne]; cbn [negb].
    { cbn. done. }
    destruct (Go.Atoi rawLimit) as [parsed ok]. cbn [fst snd].
    destruct ok; cbn [andb].
    + destruct (Z.ltb_spec 0 parsed).
      * destruct (Z.ltb_spec 200 parsed); repeat case_decide; lia.
      * change (200 <? 50) with false. cbv iota. repeat case_decide; lia.
    + cbn. done.
  - unfold results. case_decide; [|cbn; lia].
    pose proof (Search_length searchIdx query (requestedLimit rawLimit)). lia.
Qed.

End HandlerFacts.


(** ** Quoting for the shell *)
Section QuoteFacts.
Import sessions Spec web.

Lemma shellWord_single value :
  shellWord SingleQuoted (Go.ReplaceAllByte value "'" quotedQuote +:+ "'") = Some value.
Proof.
  induction value as [|c value IH]; [done|].
  cbn [Go.ReplaceAllByte]. destruct (Ascii.eqb_spec c "'") as [->|Hne].
  - unfold quotedQuote. rewrite !append_cons. change ("" +:+ ?x) with x.
    cbn. unfold quotedQuote in IH. by rewrite IH.
  - rewrite append_cons. cbn [shellWord].
    destruct (Ascii.eqb_spec c "'") as [|_]; [done|]. by rewrite IH.
Qed.

(** X17.  A POSIX shell reads the word that [shellQuote] makes of a value as
    that value, whatever bytes the value holds (single quotes included; the
    empty value gives the empty word). *)
Theorem shellQuote_round_trip (value : string) :
  shellWord Unquoted (shellQuote value) = Some value.
Proof.
  unfold shellQuote. destruct (String.eqb_spec value "") as [->|Hne]; [done|].
  rewrite append_cons. change ("" +:+ ?x) with x.
  cbn [shellWord]. change (Ascii.eqb "'" "'") with true. cbv iota.
  apply shellWord_single.
Qed.

End QuoteFacts.

(** ** Share links *)
Section ShareFacts.
Import sessions Spec web.

Lemma Contains_false s m : contains s m = false → Go.Contains s m = false.
Proof.
  intros Hc. unfold Go.Contains. pose proof (Index_contains s m) as Hi.
  rewrite Hc in Hi. cbn [negb] in Hi. apply Z.eqb_eq in Hi. by rewrite Hi.
Qed.

Lemma contains_first s c m : allBytes (λ a, a ≠ c) s → contains s (String c m) = false.
Proof.
  unfold allBytes. induction s as [|a s IH]; [done|].
  cbn [list_ascii_of_string]. intros [Ha Hs]%Forall_cons.
  cbn [contains Go.HasPrefix]. rewrite (IH Hs), orb_false_r.
  destruct (Ascii.eqb_spec c a) as [->|]; done.
Qed.

Lemma contains_dots s :
  allBytes (λ a, a ≠ "."%char) s → contains (s +:+ ".html") ".." = false.
Proof.
  unfold allBytes. induction s as [|a s IH]; [by vm_compute|].
  cbn [list_ascii_of_string]. intros [Ha Hs]%Forall_cons.
  rewrite append_cons. cbn [contains Go.HasPrefix]. rewrite (IH Hs), orb_false_r.
  destruct (Ascii.eqb_spec "." a) as [<-|]; done.
Qed.

Lemma hexDigit_nameByte n : nameByte (Go.hexDigit n).
Proof.
  unfold Go.hexDigit. generalize (N.to_nat n) as k. intros k.
  do 16 (destruct k as [|k]; [by vm_compute|]). by vm_compute.
Qed.

Lemma EncodeToString_nameByte buf : allBytes nameByte (Go.EncodeToString buf).
Proof.
  unfold allBytes. induction buf as [|v buf IH]; [constructor|].
  cbn [Go.EncodeToString list_ascii_of_string].
  repeat constructor; try apply hexDigit_nameByte. exact IH.
Qed.

Lemma EncodeToString_length buf :
  String.length (Go.EncodeToString buf) = (2 * String.length buf)%nat.
Proof. induction buf as [|v buf IH]; cbn; [done|]. rewrite IH. lia. Qed.

Lemma substring_split s : ∀ n m k,
  String.substring n (m + k) s
    = String.substring n m s +:+ String.substring (n + m) k s.
Proof.
  induction s as [|c s IH]; intros n m k.
  - destruct n, m, k; done.
  - destruct n as [|n].
    + destruct m as [|m]; [done|]. cbn [Nat.add String.substring].
      rewrite append_cons. f_equal. apply (IH 0%nat m k).
    + cbn [Nat.add String.substring]. apply IH.
Qed.

Lemma sliceFrom_cons c s : Go.sliceFrom (String c s) 1 = s.
Proof.
  unfold Go.sliceFrom. change (Z.to_nat 1) with 1%nat. cbn [String.length].
  replace (S (String.length s) - 1)%nat with (String.length s) by lia.
  cbn [String.substring]. apply substring_all.
Qed.

Lemma formatUUID_parts token :
  String.length token = 32%nat →
  ∃ a b c d e,
    token = a +:+ b +:+ c +:+ d +:+ e
    ∧ formatUUID token = a +:+ "-" +:+ b +:+ "-" +:+ c +:+ "-" +:+ d +:+ "-" +:+ e
    ∧ String.length a = 8%nat ∧ String.length b = 4%nat ∧ String.length c = 4%nat
    ∧ String.length d = 4%nat ∧ String.length e = 12%nat.
Proof.
  intros Hlen. unfold formatUUID, Go.len, Go.slice. rewrite Hlen.
  change (negb (Z.of_nat 32 =? 32)) with false. cbv iota.
  change (Z.to_nat 8 - Z.to_nat 0)%nat with 8%nat.
  change (Z.to_nat 12 - Z.to_nat 8)%nat with 4%nat.
  change (Z.to_nat 16 - Z.to_nat 12)%nat with 4%nat.
  change (Z.to_nat 20 - Z.to_nat 16)%nat with 4%nat.
  change (Z.to_nat 32 - Z.to_nat 20)%nat with 12%nat.
  change (Z.to_nat 0) with 0%nat. change (Z.to_nat 8) with 8%nat.
  change (Z.to_nat 12) with 12%nat. change (Z.to_nat 16) with 16%nat.
  change (Z.to_nat 20) with 20%nat.
  eexists _, _, _, _, _. split_and!; [|reflexivity|..];
    [|apply substring_length; lia..].
  rewrite <- (substring_all token) at 1. rewrite Hlen.
  change 32%nat with (8 + (4 + (4 + (4 + 12))))%nat.
  rewrite (substring_split token 0 8), (substring_split token 8 4),
    (substring_split token 12 4), (substring_split token 16 4). reflexivity.
Qed.

(** X18.  The file name that [handleShare] makes from a token of 16 random
    bytes is the 32 hexadecimal digits of the token in groups of 8, 4, 4, 4
    and 12 joined by hyphens, with the extension ".html"; the name filter of
    the share server accepts it, for GET and for HEAD: a share link is never
    refused for its name. *)
Theorem shareFileName_served (buf token : string) :
  String.length buf = 16%nat →
  randomToken (inr buf) = inr token →
  let name := shareFileName token in
  (∃ a b c d e,
     token = a +:+ b +:+ c +:+ d +:+ e
     ∧ name = a +:+ "-" +:+ b +:+ "-" +:+ c +:+ "-" +:+ d +:+ "-" +:+ e +:+ ".html"
     ∧ String.length a = 8%nat ∧ String.length b = 4%nat ∧ String.length c = 4%nat
     ∧ String.length d = 4%nat ∧ String.length e = 12%nat)
  ∧ sharedName "GET" ("/" +:+ name) = Some name
  ∧ sharedName "HEAD" ("/" +:+ name) = Some name.
Proof.
  intros Hbuf [= Htoken] name.
  assert (String.length token = 32%nat) as Hlen
    by (rewrite <- Htoken, EncodeToString_length, Hbuf; done).
  destruct (formatUUID_parts token Hlen) as (a & b & c & d & e & Ht & Hf & Hl).
  assert (name = a +:+ "-" +:+ b +:+ "-" +:+ c +:+ "-" +:+ d +:+ "-" +:+ e +:+ ".html")
    as Hname.
  { unfold name, shareFileName. rewrite Hf. by rewrite !append_assoc. }
  split; [by exists a, b, c, d, e|].
  assert (allBytes nameByte (formatUUID token)) as Hsafe.
  { pose proof (EncodeToString_nameByte buf) as Htok. rewrite Htoken in Htok.
    rewrite Ht in Htok. rewrite !allBytes_app in Htok. rewrite Hf, !allBytes_app.
    assert (allBytes nameByte "-") as Hdash.
    { unfold allBytes. cbn. repeat constructor; done. }
    tauto. }
  assert (name ≠ "") as Hne.
  { rewrite Hname. destruct a; [by destruct Hl|done]. }
  assert (Go.TrimPrefix ("/" +:+ name) "/" = name) as Htrim.
  { change ("/" +:+ name) with (String "/" name). unfold Go.TrimPrefix.
    cbn [Go.HasPrefix]. change (Ascii.eqb "/" "/") with true. cbv iota.
    assert (Go.HasPrefix name "" = true) as -> by by destruct name.
    apply sliceFrom_cons. }
  assert (Go.Contains name "/" = false) as Hslash.
  { apply Contains_false, contains_first. unfold name, shareFileName.
    apply allBytes_app. split.
    - eapply allBytes_impl; [|exact Hsafe]. by intros ch (_ & ? & _).
    - unfold allBytes. cbn. repeat constructor; done. }
  assert (Go.Contains name "\" = false) as Hback.
  { apply Contains_false, contains_first. unfold name, shareFileName.
    apply allBytes_app. split.
    - eapply allBytes_impl; [|exact Hsafe]. by intros ch (_ & _ & ?).
    - unfold allBytes. cbn. repeat constructor; done. }
  assert (Go.Contains name ".." = false) as Hdots.
  { apply Contains_false. unfold name, shareFileName. apply contains_dots.
    eapply allBytes_impl; [|exact Hsafe]. by intros ch (? & _). }
  assert (String.eqb name "" = false) as Hempty by by apply String.eqb_neq.
  unfold sharedName. rewrite Htrim, Hempty, Hslash, Hback, Hdots. done.
Qed.

End ShareFacts.


(** ** Counting files *)
Section CountFacts.
Context {K : Type} `{Countable K} {A : Type} (group : A → K).
Import Spec web.

Lemma count_filter_cons (P : A → Prop) `{∀ x, Decision (P x)} x l :
  count (filter P (x :: l)) = (if decide (P x) then 1 else 0) + count (filter P l).
Proof.
  unfold count. rewrite filter_cons. destruct (decide (P x)); cbn [length]; lia.
Qed.

Lemma count_nonneg (l : list A) : 0 ≤ count l.
Proof. unfold count. lia. Qed.

Lemma count_pos_elem (P : A → Prop) `{∀ x, Decision (P x)} l :
  0 < count (filter P l) ↔ ∃ x, x ∈ l ∧ P x.
Proof.
  unfold count. split.
  - destruct (filter P l) as [|x l'] eqn:Hf; [cbn; lia|]. intros _.
    assert (x ∈ filter P l) as [? ?]%list_elem_of_filter
      by (rewrite Hf; apply elem_of_cons; by left).
    eauto.
  - intros (x & Hx & HP).
    assert (x ∈ filter P l) as Hin by by apply list_elem_of_filter.
    destruct (filter P l); [by apply elem_of_nil in Hin|]. cbn [length]. lia.
Qed.

(** The counters after counting the keys of [xs]. *)
Lemma lookup_fold_increment xs : ∀ (m : gmap K Z) k,
  fold_left (λ m x, increment (group x) m) xs m !! k =
    if decide (count (filter (λ x, group x = k) xs) = 0) then m !! k
    else Some (default 0 (m !! k) + count (filter (λ x, group x = k) xs)).
Proof.
  induction xs as [|x xs IH]; intros m k; [done|].
  cbn [fold_left]. rewrite IH, count_filter_cons. unfold increment.
  pose proof (count_nonneg (filter (λ x, group x = k) xs)) as Hpos.
  destruct (decide (group x = k)) as [<-|Hne].
  - rewrite lookup_insert_eq. cbn [default].
    destruct (decide (1 + count (filter (λ x0, group x0 = group x) xs) = 0)) as [?|_];
      [lia|].
    case_decide as Hz; [rewrite Hz|]; unfold id; f_equal; lia.
  - rewrite lookup_insert_ne by done. by rewrite Z.add_0_l.
Qed.

Lemma lookup_counts xs k :
  default 0 (fold_left (λ m x, increment (group x) m) xs ∅ !! k)
    = count (filter (λ x, group x = k) xs).
Proof.
  rewrite lookup_fold_increment, lookup_empty. case_decide as Hz; [by rewrite Hz|].
  cbn. lia.
Qed.

Lemma is_Some_counts xs k :
  is_Some (fold_left (λ m x, increment (group x) m) xs ∅ !! k) ↔ ∃ x, x ∈ xs ∧ group x = k.
Proof.
  pose proof (count_pos_elem (λ x, group x = k) xs) as Hiff.
  rewrite lookup_fold_increment, lookup_empty, <- Hiff.
  pose proof (count_nonneg (filter (λ x, group x = k) xs)) as Hpos.
  case_decide as Hz.
  - split; [by intros []%is_Some_None|intros; lia].
  - split; [intros; lia|eauto].
Qed.

Lemma sum_counts (ds : list K) (xs : list A) :
  NoDup ds → (∀ x, x ∈ xs → group x ∈ ds) →
  sumOf (map (λ d, count (filter (λ x, group x = d) xs)) ds) = count xs.
Proof.
  intros Hnd Hin.
  rewrite <- (map_map (λ d, filter (λ x, group x = d) xs) count), <- count_concat.
  unfold count. f_equal. apply Permutation_length.
  by apply concat_filter_partition.
Qed.

End CountFacts.

(** ** Directory views *)
Section DirViewFacts.
Import sessions Spec web.
Context `{!Go.Text} `{!System}.
Variable heatRGBA : Z → Z → string.

Lemma elem_of_keys (counts : gmap string Z) key :
  key ∈ Go.sortSlice cwdLess (map_to_list counts).*1 ↔ is_Some (counts !! key).
Proof.
  rewrite sortSlice_Permutation, list_elem_of_fmap. split.
  - intros [[k n] [-> Hin%elem_of_map_to_list]]. by eexists.
  - intros [n Hn]. exists (key, n). split; [done|]. by apply elem_of_map_to_list.
Qed.

Lemma buildDirViewsFromCounts_Value counts recent recentMax withHeat :
  map Value (buildDirViewsFromCounts heatRGBA counts recent recentMax withHeat)
    = Go.sortSlice cwdLess (map_to_list counts).*1.
Proof.
  unfold buildDirViewsFromCounts. rewrite map_map. cbn [Value]. apply map_id.
Qed.

(** X19.  [buildDirViewsFromFiles] gives one view for each working directory
    that occurs among the files, in ascending byte order with "(unknown)"
    last; the count of a view is the number of the files in its directory,
    at least 1; no heat is shown; the counts add up to the number of
    files. *)
Theorem buildDirViewsFromFiles_counts (files : list SessionFile) :
  let views := buildDirViewsFromFiles heatRGBA files in
  (∀ cwd, cwd ∈ map Value views ↔ ∃ f, f ∈ files ∧ CwdForFile f = cwd)
  ∧ NoDup (map Value views)
  ∧ StronglySorted cwdBefore (map Value views)
  ∧ Forall (λ view,
              Count view = count (filter (λ f, CwdForFile f = Value view) files)
              ∧ 1 ≤ Count view
              ∧ Label view = dirLabel (Value view)
              ∧ RecentCount view = 0 ∧ HeatColor view = "") views
  ∧ sumOf (map Count views) = count files.
Proof.
  intros views. unfold views, buildDirViewsFromFiles.
  set (counts := fold_left _ files ∅).
  assert (∀ cwd, cwd ∈ Go.sortSlice cwdLess (map_to_list counts).*1
                 ↔ ∃ f, f ∈ files ∧ CwdForFile f = cwd) as Hkeys.
  { intros cwd. rewrite elem_of_keys. apply (is_Some_counts CwdForFile). }
  assert (NoDup (Go.sortSlice cwdLess (map_to_list counts).*1)) as Hnd.
  { rewrite sortSlice_Permutation. apply NoDup_fst_map_to_list. }
  rewrite buildDirViewsFromCounts_Value. split_and!; [done|done| | |].
  - apply sortSlice_cwdLess, NoDup_fst_map_to_list.
  - unfold buildDirViewsFromCounts. apply Forall_forall.
    intros view (key & -> & Hk)%list_elem_of_fmap. cbn.
    unfold counts at 1 2. rewrite (lookup_counts CwdForFile).
    split_and!; [done| |done..].
    apply Hkeys in Hk. apply (count_pos_elem (λ f, CwdForFile f = key)) in Hk. lia.
  - unfold buildDirViewsFromCounts. rewrite map_map. cbn [Count].
    rewrite (map_ext _ (λ d, count (filter (λ f, CwdForFile f = d) files))).
    + apply sum_counts; [done|]. intros f Hf. apply Hkeys. eauto.
    + intros key. apply (lookup_counts CwdForFile).
Qed.

End DirViewFacts.


(** ** Recent activity *)
Section RecentFacts.
Import sessions Spec web.
Context `{!Go.Text} `{!System}.

Lemma fold_left_concat {A B S} (g : S → B → S) (F : A → list B) (ds : list A) : ∀ st,
  fold_left (λ st d, fold_left g (F d) st) ds st = fold_left g (concat (map F ds)) st.
Proof.
  induction ds as [|d ds IH]; intros st; [done|].
  cbn [fold_left map concat]. by rewrite fold_left_app, IH.
Qed.

Lemma fold_left_skip {B S} (g : S → B → S) (skip : B → bool) (l : list B) : ∀ st,
  fold_left (λ st x, if skip x then st else g st x) l st
    = fold_left g (filter (λ x, skip x = false) l) st.
Proof.
  induction l as [|x l IH]; intros st; [done|].
  cbn [fold_left]. rewrite filter_cons, IH.
  destruct (skip x); [by rewrite decide_False by done|by rewrite decide_True by done].
Qed.

Lemma fold_countFile_counts files : ∀ st,
  (fold_left countFile files st).1
    = fold_left (λ m f, increment (CwdForFile f) m) files st.1.
Proof.
  induction files as [|f files IH]; intros [counts max]; [done|].
  cbn [fold_left]. by rewrite IH.
Qed.

Lemma countFile_largest st f :
  largest st → largest (countFile st f) ∧ (countFile st f).1 ≠ ∅.
Proof.
  destruct st as [counts max]. intros [Hle Hmax]. cbn [fst snd] in *.
  unfold countFile, increment. rewrite lookup_insert_eq. cbn [default from_option].
  change (id ?x) with x.
  set (cwd := CwdForFile f).
  assert (1 ≤ default 0 (counts !! cwd) + 1
          ∧ (max < default 0 (counts !! cwd) + 1
             ∨ ∀ n, counts !! cwd = Some n → n < max)) as [Hn Hcmp].
  { destruct (counts !! cwd) as [n|] eqn:Hl; cbn; unfold id.
    - specialize (Hle cwd n Hl). split; [lia|].
      destruct (decide (max < n + 1)) as [|Hge]; [by left|]. right.
      intros m [= <-]. lia.
    - split; [lia|]. right. done. }
  set (n' := default 0 (counts !! cwd) + 1) in *.
  split; [|apply insert_non_empty]. split; cbn [fst snd].
  - intros c n. destruct (decide (c = cwd)) as [->|Hne].
    + rewrite lookup_insert_eq. intros [= <-]. destruct (Z.ltb_spec max n'); lia.
    + rewrite lookup_insert_ne by done. intros Hl%Hle.
      destruct (Z.ltb_spec max n'); lia.
  - right. destruct (Z.ltb_spec max n') as [Hlt|Hge].
    + exists cwd. by rewrite lookup_insert_eq.
    + destruct Hmax as [[-> ->]|[c Hc]].
      * unfold n' in Hge. rewrite lookup_empty in Hge. cbn in Hge. lia.
      * exists c. destruct (decide (c = cwd)) as [->|Hne].
        -- destruct Hcmp as [?|Hlt]; [lia|]. specialize (Hlt _ Hc). lia.
        -- by rewrite lookup_insert_ne.
Qed.

Lemma fold_countFile_largest files : ∀ st,
  largest st → largest (fold_left countFile files st)
  ∧ (files ≠ [] → (fold_left countFile files st).1 ≠ ∅).
Proof.
  induction files as [|f files IH]; intros st Hst; [done|].
  cbn [fold_left]. destruct (countFile_largest st f Hst) as [Hl Hne].
  destruct (IH _ Hl) as [Hl' Hne']. split; [done|]. intros _.
  destruct files as [|g files]; [done|]. by apply Hne'.
Qed.

(** X20.  [recentCwdCounts] counts, by working directory, the files of the
    snapshot that were not modified before [since];
    [recentCwdCountsFromLatestDates] counts the files of the first [limit]
    dates.  In both the number returned with the counts is the largest
    count: every count is between 1 and it, some directory has it unless no
    file was counted, and then it is 0 and there are no counts. *)
Theorem recentCwdCounts_tally (idx : Index) (since limit : Z) :
  recentCwdCounts idx since
    = tally (filter (λ f, since ≤ ModTime f) (search.snapshotFiles idx))
  ∧ recentCwdCountsFromLatestDates idx limit
      = tally (concat (map (SessionsByDate idx) (take (Z.to_nat limit) (Dates idx))))
  ∧ ∀ files,
      (∀ cwd, default 0 ((tally files).1 !! cwd)
                = count (filter (λ f, CwdForFile f = cwd) files))
      ∧ (∀ cwd n, (tally files).1 !! cwd = Some n → 1 ≤ n ≤ (tally files).2)
      ∧ (files = [] → tally files = (∅, 0))
      ∧ (files ≠ [] → ∃ cwd, (tally files).1 !! cwd = Some (tally files).2).
Proof.
  split_and!.
  - unfold recentCwdCounts, tally, search.snapshotFiles.
    rewrite (fold_left_concat
               (λ st file, if ModTime file <? since then st else countFile st file)).
    rewrite (fold_left_skip countFile (λ file, ModTime file <? since)).
    f_equal. apply list_filter_iff. intros f. rewrite Z.ltb_ge. done.
  - unfold recentCwdCountsFromLatestDates, tally.
    destruct (Z.leb_spec limit 0) as [Hle|Hpos].
    { replace (Z.to_nat limit) with 0%nat by lia. done. }
    rewrite (fold_left_concat countFile). do 3 f_equal.
    destruct (Z.ltb_spec limit (Z.of_nat (length (Dates idx)))); [done|].
    rewrite take_ge; [done|lia].
  - intros files. unfold tally.
    assert (largest (∅, 0)) as Hinit.
    { split; cbn [fst snd]; [|by left]. intros cwd n. by rewrite lookup_empty. }
    destruct (fold_countFile_largest files (∅, 0) Hinit) as [[Hle Hmax] Hne].
    split_and!.
    + intros cwd. rewrite fold_countFile_counts. apply (lookup_counts CwdForFile).
    + done.
    + by intros ->.
    + intros Hf. destruct Hmax as [[He _]|?]; [|done]. by destruct (Hne Hf).
Qed.

End RecentFacts.

(** ** The page of a working directory *)
Section DirPageFacts.
Import sessions Spec web.
Context `{!Go.Text} `{!System}.

Lemma omap_counts (counts : gmap DateKey Z) (dates : list DateKey) :
  omap (λ date,
          match counts !! date with
          | Some n =>
              Some {| DateLabel := DateKey_String date; DatePath := DateKey_Path date;
                      DateCount := n |}
          | None => None
          end) dates
  = map (λ date, {| DateLabel := DateKey_String date; DatePath := DateKey_Path date;
                    DateCount := default 0 (counts !! date) |})
      (filter (λ date, is_Some (counts !! date)) dates).
Proof.
  induction dates as [|d dates IH]; [done|].
  rewrite filter_cons. cbn [omap list_omap].
  destruct (counts !! d) as [n|] eqn:Hd.
  - rewrite decide_True by eauto. cbn [map]. rewrite Hd. cbn [default from_option].
    f_equal. exact IH.
  - rewrite decide_False by (by intros []%is_Some_None). exact IH.
Qed.

(** X21.  The page of a working directory after a successful [Refresh]: the
    count of the directory is the number of its sessions; the page lists, in
    the order of [Dates], exactly the dates on which the directory has
    sessions, each with the number of the directory's sessions of that date
    (at least 1); these numbers add up to the count of the directory. *)
Theorem handleDir_counts (now : Z) (idx idx' : Index) (themeClass cwd : string) :
  Refresh now idx = (idx', None) →
  let page := handleDir idx' themeClass cwd in
  let files := SessionsByCwd idx' cwd in
  Count (Dir page) = count files
  ∧ sumOf (map DateCount (PageDates page)) = count files
  ∧ Forall (λ view, 1 ≤ DateCount view) (PageDates page)
  ∧ map DatePath (PageDates page)
      = map DateKey_Path (filter (λ date, date ∈ map Date files) (Dates idx'))
  ∧ Forall (λ view, ∃ date,
              DateLabel view = DateKey_String date ∧ DatePath view = DateKey_Path date
              ∧ DateCount view = count (filter (λ f, Date f = date) files))
      (PageDates page).
Proof.
  intros Hr page files.
  pose proof (Refresh_ok now idx idx' Hr) as (_ & _ & Hkeys).
  pose proof (Refresh_cwds now idx idx' Hr) as [Hl _].
  assert (∀ f, f ∈ files → Date f ∈ Dates idx') as Hdates.
  { intros f Hf. unfold files, SessionsByCwd in Hf. rewrite Hl in Hf.
    apply list_elem_of_filter in Hf as [_ Hf]. apply elem_of_Dates, Hkeys. eauto. }
  unfold page, handleDir. fold files. cbn [Dir PageDates Count].
  set (counts := fold_left _ files ∅).
  assert (∀ date, is_Some (counts !! date) ↔ date ∈ map Date files) as Hsome.
  { intros date. unfold counts. rewrite (is_Some_counts Date), list_elem_of_fmap.
    split; intros (f & ? & ?); eauto. }
  assert (∀ date, default 0 (counts !! date) = count (filter (λ f, Date f = date) files))
    as Hcount by (intros date; apply (lookup_counts Date)).
  rewrite omap_counts.
  rewrite (list_filter_iff _ (λ date, date ∈ map Date files) _ Hsome).
  split_and!.
  - done.
  - rewrite map_map. cbn [DateCount].
    rewrite (map_ext _ _ Hcount). apply sum_counts.
    + apply NoDup_filter. unfold Dates. rewrite sortSlice_Permutation.
      apply NoDup_fst_map_to_list.
    + intros f Hf. apply list_elem_of_filter. split; [by apply list_elem_of_fmap_2|].
      by apply Hdates.
  - apply Forall_forall. intros view (date & -> & [Hin _]%list_elem_of_filter)%list_elem_of_fmap.
    cbn [DateCount]. rewrite Hcount.
    apply list_elem_of_fmap in Hin as (f & -> & Hf).
    assert (0 < count (filter (λ g, Date g = Date f) files)); [|lia].
    apply (count_pos_elem (λ g, Date g = Date f)). eauto.
  - rewrite map_map. done.
  - apply Forall_forall. intros view (date & -> & _)%list_elem_of_fmap.
    exists date. cbn. by rewrite Hcount.
Qed.

End DirPageFacts.

(** ** Raw downloads *)
Section RawFacts.
Import sessions Spec web.
Context `{!Go.Text} `{!System}.

Lemma fileOfCall_inv base call f :
  fileOfCall base call = Some f →
  FilePath f = callPath call
  ∧ EntryIsDir (callEntry call) = false
  ∧ Go.HasSuffix (EntryName (callEntry call)) ".jsonl" = true.
Proof.
  intros Hf. split; [by eapply fileOfCall_path|]. unfold fileOfCall in Hf.
  destruct (EntryIsDir (callEntry call)); [done|].
  destruct (Go.HasSuffix _ _); done.
Qed.

(** X22.  After a successful [Refresh], a file that [handleRaw] serves is a
    file of the index: the walk found it (as a file, not a directory, with
    the suffix ".jsonl", under the path that is served), and its key is the
    key made of the four segments of the requested path.  The path that is
    served is never built from the request. *)
Theorem handleRaw_indexed (now : Z) (idx idx' : Index) (rawPath : string)
    (f : SessionFile) :
  Refresh now idx = (idx', None) →
  handleRaw idx' rawPath = Some f →
  f ∈ walkedFiles (baseDir idx)
  ∧ (∃ call, call ∈ WalkDir (baseDir idx)
             ∧ FilePath f = callPath call
             ∧ EntryIsDir (callEntry call) = false
             ∧ Go.HasSuffix (EntryName (callEntry call)) ".jsonl" = true)
  ∧ ∃ year month day filename,
      Go.SplitByte (Go.TrimByte rawPath "/") "/" = [year; month; day; filename]
      ∧ nameKey (Date f) (Name f)
          = nameKey {| Year := year; Month := month; Day := day |} filename.
Proof.
  intros Hr Hraw. pose proof (Refresh_names now idx idx' Hr) as Hl.
  unfold handleRaw in Hraw.
  destruct (Go.SplitByte _ _) as [|p0 [|p1 [|p2 [|p3 [|p4 ps]]]]]; try done.
  destruct (ParseDate p0 p1 p2) as [date|] eqn:Hd; [|done].
  apply ParseDate_Some in Hd as ->.
  destruct (_ || _); [done|]. rewrite Hl in Hraw.
  apply last_Some_elem_of, list_elem_of_filter in Hraw as [Hk Hin].
  split_and!; [done| |by exists p0, p1, p2, p3].
  unfold walkedFiles in Hin. apply list_elem_of_omap in Hin as (call & Hc & Hf).
  exists call. split; [done|]. by eapply fileOfCall_inv.
Qed.

End RawFacts.


(** ** The port of the share server *)
Section PortFacts.
Import sessions Spec web.
Context `{!Net}.

Lemma digitsValue_digits s : ∀ acc v,
  Go.digitsValue acc s = Some v → allBytes (λ c, Go.isDigit c = true) s.
Proof.
  unfold allBytes. induction s as [|c s IH]; intros acc v; [constructor|].
  cbn [Go.digitsValue list_ascii_of_string].
  destruct (Go.isDigit c) eqn:Hc; [|done]. intros Hv%IH. by constructor.
Qed.

Lemma isDigit_not_colon c : Go.isDigit c = true → c ≠ ":"%char.
Proof. intros Hc ->. by vm_compute in Hc. Qed.

Lemma Atoi_no_colon port :
  (Go.Atoi port).2 = true → port ≠ "" ∧ allBytes (λ c, c ≠ ":"%char) port.
Proof.
  unfold Go.Atoi.
  assert (∀ neg body,
            (match body with
             | EmptyString => (0, false)
             | String _ _ =>
                 match Go.digitsValue 0 body with
                 | Some v =>
                     let n := if neg : bool then - v else v in
                     if n <? Go.minInt then (Go.minInt, false)
                     else if Go.maxInt <? n then (Go.maxInt, false) else (n, true)
                 | None => (0, false)
                 end
             end).2 = true →
            body ≠ "" ∧ allBytes (λ c, c ≠ ":"%char) body) as Hbody.
  { intros neg body. destruct body as [|c body]; [done|].
    destruct (Go.digitsValue 0 (String c body)) as [v|] eqn:Hv; [|done].
    intros _. split; [done|]. apply digitsValue_digits in Hv.
    eapply allBytes_impl; [|exact Hv]. apply isDigit_not_colon. }
  destruct port as [|c port]; [done|].
  destruct (Ascii.eqb_spec c "-") as [->|Hminus].
  { intros Ha. destruct (Hbody true port Ha) as [Hne Hall]. split; [done|].
    unfold allBytes in *. cbn. by constructor. }
  destruct (Ascii.eqb_spec c "+") as [->|Hplus].
  { intros Ha. destruct (Hbody false port Ha) as [Hne Hall]. split; [done|].
    unfold allBytes in *. cbn. by constructor. }
  apply (Hbody false (String c port)).
Qed.

(** X23.  A port that [sharePort] returns is not empty and is a number for
    [strconv.Atoi]; [sharePort] returns it again for the port itself and
    for ":" followed by the port. *)
Theorem sharePort_stable (shareAddr port : string) :
  sharePort shareAddr = inr port →
  port ≠ "" ∧ (Go.Atoi port).2 = true
  ∧ sharePort port = inr port
  ∧ sharePort (":" +:+ port) = inr port.
Proof.
  intros Hp.
  assert (port ≠ "" ∧ (Go.Atoi port).2 = true) as [Hne Hnum].
  { unfold sharePort in Hp. destruct (String.eqb shareAddr ""); [done|].
    destruct (if Go.HasPrefix shareAddr ":" then _ else _) as [err|p]; [done|].
    destruct (String.eqb_spec p ""); [done|].
    destruct (Go.Atoi p).2 eqn:Ha; [|done]. cbn [negb] in Hp. by simplify_eq. }
  destruct (Atoi_no_colon port Hnum) as [_ Hcolon].
  assert (String.eqb port "" = false) as Hempty by by apply String.eqb_neq.
  split_and!; [done..| |].
  - unfold sharePort. rewrite Hempty.
    assert (Go.HasPrefix port ":" = false) as ->.
    { destruct port as [|c port]; [done|]. unfold allBytes in Hcolon.
      cbn in Hcolon. apply Forall_cons in Hcolon as [Hc _]. cbn [Go.HasPrefix].
      destruct (Ascii.eqb_spec ":" c) as [<-|]; done. }
    rewrite (Contains_false port ":") by by apply contains_first.
    by rewrite Hempty, Hnum.
  - unfold sharePort. change (":" +:+ port) with (String ":" port).
    cbn [String.eqb]. cbn [Go.HasPrefix]. change (Ascii.eqb ":" ":") with true.
    cbv iota. assert (Go.HasPrefix port "" = true) as -> by by destruct port.
    unfold Go.TrimPrefix. cbn [Go.HasPrefix]. change (Ascii.eqb ":" ":") with true.
    cbv iota. assert (Go.HasPrefix port "" = true) as -> by by destruct port.
    change (Go.len ":") with 1. rewrite sliceFrom_cons. by rewrite Hempty, Hnum.
Qed.

End PortFacts.

(** ** The header-only parse *)
Section HeaderOnlyFacts.
Import sessions sessions.header Spec.
Context `{!Go.Text} `{!JSON} `{!Files} `{!Helpers}.

Lemma scanLoop_app chunks more : ∀ st,
  scanLoop (chunks ++ more) st =
    if (scanLoop chunks st).2 then scanLoop chunks st
    else scanLoop more (scanLoop chunks st).1.
Proof.
  induction chunks as [|line chunks IH]; intros st; [done|].
  cbn [app scanLoop]. destruct (scanLine st line) as [st' stopped].
  destruct stopped; [done|]. apply IH.
Qed.

Lemma scanLine_complete st line :
  line ≠ "" → (scanLine st line).2 = complete (scanLine st line).1.1.
Proof.
  intros Hne. destruct st as [meta cand]. unfold scanLine.
  assert ((0 <? Go.len line) = true) as ->; [|done].
  apply Z.ltb_lt. unfold Go.len. destruct line; [done|]. cbn. lia.
Qed.

(** After chunks that are all non-empty, the loop has stopped exactly when
    the header is complete. *)
Lemma scanLoop_complete chunks : ∀ st,
  Forall (λ line, line ≠ "") chunks → complete st.1 = false →
  (scanLoop chunks st).2 = complete (scanLoop chunks st).1.1.
Proof.
  induction chunks as [|line chunks IH]; intros st Hall Hst.
  { cbn. by rewrite Hst. }
  apply Forall_cons in Hall as [Hline Hall]. cbn [scanLoop].
  pose proof (scanLine_complete st line Hline) as Hc.
  destruct (scanLine st line) as [st' stopped]. cbn [fst snd] in *.
  destruct stopped; [done|]. by apply IH.
Qed.

(** The chunks of a text that ends a line: they are not empty, and what
    follows the line is read after them. *)
Lemma readChunks_line content :
  ∃ chunk chunks,
    Forall (λ line, line ≠ "") (chunk :: chunks)
    ∧ ∀ rest, readChunks (content +:+ String Go.LF rest)
              = (chunk :: chunks) ++ readChunks rest.
Proof.
  induction content as [|c content (chunk & chunks & Hall & Hr)].
  - exists (String Go.LF ""), []. split; [by repeat constructor|]. intros rest.
    change ("" +:+ ?x) with x. cbn [readChunks].
    change (Ascii.eqb Go.LF Go.LF) with true. done.
  - destruct (Ascii.eqb c Go.LF) eqn:Hc.
    + exists (String c ""), (chunk :: chunks). split; [by constructor|].
      intros rest. rewrite append_cons. cbn [readChunks]. by rewrite Hc, Hr.
    + exists (String c chunk), chunks. apply Forall_cons in Hall as [_ Hall].
      split; [by constructor|].
      intros rest. rewrite append_cons. cbn [readChunks]. by rewrite Hc, Hr.
Qed.

(** X24.  The header-only parse stops at the line that completes the
    header: when the lines up to some line feed give a header with an id and
    a working directory, [ParseSessionMeta] returns that header whatever
    follows in the file, be it more lines, other headers or a read
    error. *)
Theorem ParseSessionMeta_stops_early (path content rest : string)
    (stop : option error) (meta : SessionMeta) :
  Open path = inr (content +:+ String Go.LF rest, stop) →
  scanMeta (content +:+ String Go.LF "") None = inr (Some meta) →
  ID meta ≠ "" → Cwd meta ≠ "" →
  ParseSessionMeta path = inr (Some meta).
Proof.
  intros Ho Hscan Hid Hcwd. unfold ParseSessionMeta. rewrite Ho.
  destruct (readChunks_line content) as (chunk & chunks & Hall & Hr).
  assert (complete (Some meta) = true) as Hdone.
  { cbn. apply andb_true_iff.
    split; apply negb_true_iff, String.eqb_neq; done. }
  unfold scanMeta in *. rewrite Hr, scanLoop_app in Hscan. rewrite Hr, scanLoop_app.
  pose proof (scanLoop_complete (chunk :: chunks) (None, "") Hall eq_refl) as Hc.
  destruct (scanLoop (chunk :: chunks) (None, "")) as [[m cand] stopped].
  cbn [fst snd] in *.
  destruct stopped; [exact Hscan|].
  cbn in Hscan. injection Hscan as ->. congruence.
Qed.

End HeaderOnlyFacts.


(** ** The search index: the cache and the flattened list *)
Section OrderedFacts.
Import sessions search Spec.
Context `{!Go.Text} `{!JSON} `{!Files} `{!System}.
Variable enabled : bool.

(** X25.  After [RefreshFrom] on a snapshot without duplicate paths, the
    flattened list and the cache agree: the list is the stored entries of
    the files of the snapshot, in snapshot order; an entry is in the list
    exactly when it is an entry of the record of a file of the snapshot;
    every record of the cache belongs to a file of the snapshot and all its
    entries are in the list. *)
Theorem RefreshFrom_ordered_consistent (sessionsIdx : sessions.Index)
    (idx : search.Index) :
  NoDup (map FilePath (snapshotFiles sessionsIdx)) →
  let idx' := (RefreshFrom enabled sessionsIdx idx).1 in
  ordered idx' = flatten (files idx') (snapshotFiles sessionsIdx)
  ∧ (∀ item, item ∈ ordered idx' ↔
       ∃ f record, f ∈ snapshotFiles sessionsIdx
                   ∧ files idx' !! FilePath f = Some record
                   ∧ item ∈ entries record)
  ∧ (∀ p record, files idx' !! p = Some record →
       p ∈ map FilePath (snapshotFiles sessionsIdx)
       ∧ ∀ item, item ∈ entries record → item ∈ ordered idx').
Proof.
  intros Hnd idx'.
  assert (ordered idx' = flatten (files idx') (snapshotFiles sessionsIdx)) as Hord.
  { unfold idx'. by rewrite RefreshFrom_unfold. }
  assert (∀ item, item ∈ ordered idx' ↔
            ∃ f record, f ∈ snapshotFiles sessionsIdx
                        ∧ files idx' !! FilePath f = Some record
                        ∧ item ∈ entries record) as Hiff.
  { intros item. rewrite Hord. unfold flatten. rewrite elem_of_concat. split.
    - intros (l & Hl & (f & -> & Hf)%list_elem_of_fmap).
      destruct (files idx' !! FilePath f) as [record|] eqn:Hrec;
        [eauto|by apply elem_of_nil in Hl].
    - intros (f & record & Hf & Hrec & Hin). exists (entries record). split; [done|].
      apply list_elem_of_fmap. exists f. by rewrite Hrec. }
  split_and!; [done..|].
  intros p record Hrec.
  destruct (decide (p ∈ map FilePath (snapshotFiles sessionsIdx))) as [Hin|Hout].
  - split; [done|]. intros item Hitem. apply Hiff.
    apply list_elem_of_fmap in Hin as (f & -> & Hf). eauto.
  - pose proof (RefreshFrom_files enabled sessionsIdx idx Hnd) as (_ & _ & Hnone).
    specialize (Hnone p Hout). fold idx' in Hnone. congruence.
Qed.

End OrderedFacts.


(** ** The search index: the limit *)
Section LimitFacts.
Import sessions search Spec.
Context `{!Go.Text}.

Lemma searchLoop_found q lowerq limit items : ∀ results,
  (length results < Z.to_nat limit)%nat →
  searchLoop q lowerq limit results items =
    results ++ take (Z.to_nat limit - length results) (omap (found q lowerq) items).
Proof.
  induction items as [|item items IH]; intros results Hlen.
  - cbn. by rewrite take_nil, app_nil_r.
  - cbn [searchLoop omap list_omap]. unfold found at 1.
    destruct (Go.Index (lower item) lowerq =? -1); [by apply IH|].
    rewrite length_app. cbn [length].
    destruct (Z.leb_spec limit (Z.of_nat (length results + 1))) as [Hfull|Hmore].
    + replace (Z.to_nat limit - length results)%nat with 1%nat by lia.
      cbn [take]. by rewrite take_0.
    + rewrite IH by (rewrite length_app; cbn [length]; lia).
      rewrite length_app. cbn [length].
      replace (Z.to_nat limit - length results)%nat
        with (S (Z.to_nat limit - (length results + 1)))%nat by lia.
      cbn [take]. by rewrite <- app_assoc.
Qed.

Lemma Search_found idx query limit :
  Search idx query limit =
    if String.eqb (Go.TrimSpace query) "" then []
    else take (Z.to_nat (effectiveLimit limit))
           (omap (found (Go.TrimSpace query) (Go.ToLower (Go.TrimSpace query)))
              (ordered idx)).
Proof.
  unfold Search. destruct (String.eqb _ ""); [done|].
  assert ((if maxLimit <? (if limit <=? 0 then defaultLimit else limit) then maxLimit
           else if limit <=? 0 then defaultLimit else limit) = effectiveLimit limit) as ->.
  { unfold effectiveLimit, maxLimit, defaultLimit.
    destruct (Z.leb_spec limit 0); [by rewrite decide_True by done|].
    rewrite decide_False by lia.
    destruct (Z.ltb_spec 200 limit); [by rewrite decide_True by done|].
    by rewrite decide_False by lia. }
  rewrite searchLoop_found.
  - cbn [app length]. by rewrite Nat.sub_0_r.
  - cbn [length]. unfold effectiveLimit. repeat case_decide; lia.
Qed.

(** X26.  The limit only cuts the list of results: a search returns the
    first results, as many as its limit allows, of the search with the
    largest limit; a search with a smaller limit returns a prefix of the
    results of a search with a larger one; and when a search returns fewer
    results than its limit allows, a larger limit finds nothing more. *)
Theorem Search_limit (idx : search.Index) (query : string) (limit limit' : Z) :
  Search idx query limit
    = take (Z.to_nat (effectiveLimit limit)) (Search idx query maxLimit)
  ∧ (effectiveLimit limit ≤ effectiveLimit limit' →
     Search idx query limit `prefix_of` Search idx query limit')
  ∧ ((length (Search idx query limit) < Z.to_nat (effectiveLimit limit))%nat →
     effectiveLimit limit ≤ effectiveLimit limit' →
     Search idx query limit' = Search idx query limit).
Proof.
  rewrite !Search_found. destruct (String.eqb _ "").
  { split_and!; [by rewrite take_nil|done|done]. }
  set (l := omap _ (ordered idx)).
  assert (1 ≤ effectiveLimit limit ≤ 200) as Hl
    by (unfold effectiveLimit; repeat case_decide; lia).
  split_and!.
  - assert (effectiveLimit maxLimit = 200) as -> by done.
    rewrite take_take. f_equal. lia.
  - intros Hle.
    exists (take (Z.to_nat (effectiveLimit limit') - Z.to_nat (effectiveLimit limit))
              (drop (Z.to_nat (effectiveLimit limit)) l)).
    rewrite take_take_drop. f_equal. lia.
  - intros Hshort Hle. rewrite length_take in Hshort.
    rewrite !take_ge by lia. done.
Qed.

End LimitFacts.

(** ** The scanner: the order in which the map yields its keys *)
Section DatesOrderFacts.
Import sessions Spec.
Context `{!Go.Text} `{!System}.

(** X27.  After a successful [Refresh], [Dates] does not depend on the order
    in which the map yields its keys: sorting the keys in any order of
    arrival gives the list that [Dates] returns. *)
Theorem Dates_any_order (now : Z) (idx idx' : Index) (keys : list DateKey) :
  Refresh now idx = (idx', None) →
  keys ≡ₚ (map_to_list (byDate idx')).*1 →
  Go.sortSlice dateGreater keys = Dates idx'.
Proof.
  intros Hr Hperm. pose proof (Refresh_ok now idx idx' Hr) as (_ & _ & Hkeys).
  apply sortSlice_dateGreater_any_order; [|apply NoDup_fst_map_to_list|done].
  apply Forall_forall. intros date Hin.
  assert (date ∈ Dates idx') as Hd by (unfold Dates; by rewrite sortSlice_Permutation).
  apply elem_of_Dates, Hkeys in Hd as (f & Hf & <-).
  unfold walkedFiles in Hf. apply list_elem_of_omap in Hf as (call & _ & Hc).
  by eapply fileOfCall_validDate.
Qed.

End DatesOrderFacts.

(** ** The header-only parse: files without a header *)
Section NoHeaderFacts.
Import sessions sessions.header Spec.
Context `{!Go.Text} `{!JSON} `{!Files} `{!Helpers}.

Lemma scanLine_Some m cand line :
  ∃ m', (scanLine (Some m, cand) line).1.1 = Some m'.
Proof.
  unfold scanLine. destruct (0 <? Go.len line); [|by eexists].
  cbn [fst]. 
  destruct (_ || _ || _); [destruct (metaFromLine _)|];
    match goal with |- context [if ?b then _ else _] =>
      destruct b; by eexists end.
Qed.

Lemma scanLoop_Some chunks : ∀ m cand,
  ∃ m', (scanLoop chunks (Some m, cand)).1.1 = Some m'.
Proof.
  induction chunks as [|line chunks IH]; intros m cand; [by eexists|].
  cbn [scanLoop]. destruct (scanLine_Some m cand line) as [m' Hm].
  destruct (scanLine (Some m, cand) line) as [[meta cand'] stopped].
  cbn [fst] in Hm. subst meta. destruct stopped; [by eexists|]. apply IH.
Qed.

Lemma scanLine_None cand line :
  (scanLine (None, cand) line).1.1 = None ↔
    line = "" ∨ metaFromLine (Go.TrimRightCRLF line) = None.
Proof.
  unfold scanLine. unfold Go.len. destruct line as [|c line].
  { cbn. split; [by left|done]. }
  assert ((0 <? Z.of_nat (String.length (String c line))) = true) as ->
    by (apply Z.ltb_lt; cbn; lia).
  cbn [fst]. destruct (metaFromLine _) as [m|].
  - split; [|by intros [|]]. by destruct (_ && _).
  - split; [by right|done].
Qed.

Lemma scanLoop_None chunks : ∀ cand,
  (scanLoop chunks (None, cand)).1.1 = None ↔
    Forall (λ line, metaFromLine line = None)
      (map Go.TrimRightCRLF (filter (λ chunk, chunk ≠ "") chunks)).
Proof.
  induction chunks as [|line chunks IH]; intros cand; [done|].
  cbn [scanLoop]. rewrite filter_cons.
  pose proof (scanLine_None cand line) as Hline.
  destruct (scanLine (None, cand) line) as [[meta cand'] stopped] eqn:Hstep.
  cbn [fst] in Hline. destruct meta as [m|].
  - assert (line ≠ "" ∧ metaFromLine (Go.TrimRightCRLF line) ≠ None) as [Hne Hsome].
    { split; intros Heq.
      - assert (Some m = None) by (apply Hline; by left). done.
      - assert (Some m = None) by (apply Hline; by right). done. }
    rewrite decide_True by done. cbn [map].
    split; [|by intros [? _]%Forall_cons].
    destruct stopped; [done|]. destruct (scanLoop_Some chunks m cand') as [m' Hm].
    by rewrite Hm.
  - assert (stopped = false) as ->.
    { unfold scanLine in Hstep. destruct (0 <? Go.len line); [|by simplify_eq].
      destruct (metaFromLine _) as [m|]; [destruct (_ && _)|]; by simplify_eq. }
    rewrite IH. destruct (decide (line ≠ "")) as [Hne|Heq]; [|done].
    cbn [map]. rewrite Forall_cons. destruct (proj1 Hline eq_refl) as [?|Hn]; [done|].
    tauto.
Qed.

(** X28.  On a file that can be read to its end the header-only parse
    returns without error, and it returns no header exactly when no line of
    the file is a header line. *)
Theorem ParseSessionMeta_no_header (path content : string) :
  Open path = inr (content, None) →
  (∃ meta, ParseSessionMeta path = inr meta)
  ∧ (ParseSessionMeta path = inr None ↔
       Forall (λ line, metaFromLine line = None) (lines content)).
Proof.
  intros Ho. unfold ParseSessionMeta, scanMeta. rewrite Ho.
  pose proof (scanLoop_None (readChunks content) "") as Hnone.
  destruct (scanLoop (readChunks content) (None, "")) as [[meta cand] stopped].
  cbn [fst] in Hnone. fold (lines content) in Hnone.
  split; [destruct stopped; by eexists|]. rewrite <- Hnone.
  destruct stopped; split; congruence.
Qed.

End NoHeaderFacts.


(** ** The properties on the sample installation *)
Section Witnesses.
Import sessions search Spec.

(** The scenario of the parser's test merges to three entries: the second
    user message, the reasoning, the last user message. *)
Example mergeConsecutive_scenario :
  map Content (@mergeConsecutive asciiText Sample.scenario) = ["keep"; "Reason"; "Later"]
  ∧ map Line (@mergeConsecutive asciiText Sample.scenario) = [3; 6; 8].
Proof. split; reflexivity. Qed.

Lemma mergeConsecutive_collapses_runs_witness :
  @Go.TextLaws asciiText
  ∧ @mergeConsecutive asciiText Sample.scenario
      = map (@collapseRun asciiText) (runs Sample.scenario).
Proof.
  split; [exact asciiText_laws|].
  apply (@mergeConsecutive_collapses_runs asciiText asciiText_laws Sample.scenario).
Defined.

Lemma Refresh_all_or_nothing_witness :
  baseDir (sessions.NewIndex "") = ""
  ∧ ∃ err, @Refresh asciiText Sample.system 7 (sessions.NewIndex "") = (sessions.NewIndex "", Some err).
Proof.
  split; [reflexivity|].
  apply (proj1 (@Refresh_all_or_nothing asciiText Sample.system 7 (sessions.NewIndex ""))).
  reflexivity.
Defined.

(** The walk of the installation with three days meets them from the
    earliest to the latest; [Dates] lists them from the latest to the
    earliest. *)
Lemma Dates_strictly_descending_witness :
  @Refresh asciiText Sample.systemDays 7 (sessions.NewIndex "/s")
    = (Sample.sessionsIdxDays, None)
  ∧ StronglySorted (@dateAfter) (Dates Sample.sessionsIdxDays)
  ∧ Dates Sample.sessionsIdxDays = [Sample.dayLater; Sample.day; Sample.dayEarlier].
Proof.
  assert (@Refresh asciiText Sample.systemDays 7 (sessions.NewIndex "/s")
            = (Sample.sessionsIdxDays, None)) as Hr by (vm_compute; reflexivity).
  split; [exact Hr|]. split; [|vm_compute; reflexivity].
  apply (@Dates_strictly_descending asciiText Sample.systemDays 7 (sessions.NewIndex "/s")
           Sample.sessionsIdxDays Hr).
Defined.

Lemma trimUserRequest_marker_witness :
  let pre := "Hello" +:+ String Go.LF (String Go.LF "") in
  let suf := String Go.LF "Only this" in
  @trimUserRequest asciiText true (pre +:+ marker +:+ suf) = "Only this".
Proof.
  intros pre suf.
  change "Only this" with (@Go.TrimSpace asciiText suf).
  apply (proj2 (proj2 (@trimUserRequest_marker asciiText true (pre +:+ marker +:+ suf)))
           pre suf); [reflexivity..|].
  apply (Index_no_earlier _ _ 7%nat). vm_compute. reflexivity.
Defined.

(** With the flag on, the entry of a user message with a request after the
    marker shows the request. *)
Lemma userMessage_content_witness :
  let env := {| envTimestamp := "t5"; envType := "response_item"; envPayload := "PY" |} in
  ∃ item,
    @parseResponseItem asciiText Sample.jsonMarker true env "U3" 6 = Some item
    ∧ Content item = "Only this".
Proof.
  intros env.
  pose (pre := "Hello" +:+ String Go.LF (String Go.LF "")).
  pose (suf := String Go.LF "Only this").
  destruct (@userMessage_content asciiText Sample.jsonMarker true env "U3" 6
              Sample.requestPayload eq_refl eq_refl eq_refl)
    as (item & Hitem & _ & _ & _ & Hon).
  exists item. split; [exact Hitem|].
  rewrite (Hon pre suf eq_refl eq_refl).
  - vm_compute. reflexivity.
  - apply (Index_no_earlier _ _ 7%nat). vm_compute. reflexivity.
Defined.

(** C7, as stated, fails for a user message whose text ends with the
    marker: with the flag on, what follows the first occurrence of the
    marker is empty, and the content of the entry is the pretty-printed
    payload of the line, not the empty text. *)
Lemma userMessage_marker_last :
  let env := {| envTimestamp := "t4"; envType := "response_item"; envPayload := "PX" |} in
  let text := @extractContentText asciiText (pContent Sample.markerPayload) in
  let pre := "Context" +:+ String Go.LF "" in
  @Unmarshal_responseItemPayload Sample.jsonMarker (envPayload env)
    = Some Sample.markerPayload
  ∧ text = pre +:+ marker +:+ ""
  ∧ (∀ j, (j < String.length pre)%nat → ¬ occursAt text marker j)
  ∧ ∃ item,
      @parseResponseItem asciiText Sample.jsonMarker true env "U2" 5 = Some item
      ∧ (@parseLine asciiText Sample.jsonMarker true "U2" 5 (Build_Session "" None [])).1
          = Some item
      ∧ isUserMessage item = true
      ∧ Content item = "{ PX }"
      ∧ Content item ≠ @Go.TrimSpace asciiText "".
Proof.
  intros env text pre. split_and!.
  - reflexivity.
  - vm_compute. reflexivity.
  - apply (Index_no_earlier _ _ 8%nat). vm_compute. reflexivity.
  - eexists. split; [vm_compute; reflexivity|]. split_and!; [reflexivity..|].
    vm_compute. discriminate.
Qed.

Lemma ParseSession_last_meta_wins_witness :
  ∃ session,
    @ParseSession asciiText Sample.json Sample.files true "/s/stray.jsonl" = inr session
    ∧ Meta session = last (omap (@headerOfLine Sample.json) (lines Sample.contentStray)).
Proof.
  apply (proj2 (@ParseSession_last_meta_wins asciiText Sample.json Sample.files true)).
  reflexivity.
Defined.

(** The stray file has two headers; the parsed session carries the second. *)
Example ParseSession_stray :
  lines Sample.contentStray = ["M1"; "U1"; "M2"]
  ∧ (ID <$> last (omap (@headerOfLine Sample.json) (lines Sample.contentStray)))
      = Some "def"
  ∧ match @ParseSession asciiText Sample.json Sample.files true "/s/stray.jsonl" with
    | inr session => ID <$> Meta session
    | inl _ => None
    end = Some "def".
Proof. split_and!; vm_compute; reflexivity. Qed.

Lemma Search_reference_witness :
  @built asciiText Sample.json Sample.files Sample.system true Sample.searchIdx
  ∧ @Search asciiText Sample.searchIdx "HELLO" 10
      = @SearchReference asciiText (ordered Sample.searchIdx) "HELLO" 10.
Proof.
  assert (@built asciiText Sample.json Sample.files Sample.system true Sample.searchIdx)
    as Hb by (apply built_refresh, built_new).
  split; [exact Hb|].
  apply (@Search_reference asciiText Sample.json Sample.files Sample.system true _ _ _ Hb).
Defined.

(** The query "HELLO" finds the message "say Hello there", at line 1. *)
Example Search_HELLO :
  map (λ r, (ResFile r, ResLine r, Preview r))
    (@Search asciiText Sample.searchIdx "HELLO" 10)
    = [("a.jsonl", 1, "say Hello there")].
Proof. vm_compute. reflexivity. Qed.

Lemma sample_paths_NoDup : NoDup (map FilePath (snapshotFiles Sample.sessionsIdx)).
Proof. apply (bool_decide_unpack _). by vm_compute. Defined.

Lemma RefreshFrom_partial_failure_witness :
  NoDup (map FilePath (snapshotFiles Sample.sessionsIdx))
  ∧ (@RefreshFrom asciiText Sample.json Sample.files Sample.system true
       Sample.sessionsIdx search.NewIndex).2
      = head (omap (@parseError asciiText Sample.json Sample.files Sample.system true)
                (parsedFiles Sample.sessionsIdx search.NewIndex)).
Proof.
  split; [exact sample_paths_NoDup|].
  apply (@RefreshFrom_partial_failure asciiText Sample.json Sample.files Sample.system
           true Sample.sessionsIdx search.NewIndex sample_paths_NoDup).
Defined.

(** In the sample the newer file fails and the older one is indexed all
    the same; the failure is the one reported. *)
Example RefreshFrom_sample :
  (@RefreshFrom asciiText Sample.json Sample.files Sample.system true
     Sample.sessionsIdx search.NewIndex).2 = Some "permission denied"
  ∧ map FilePath (parsedFiles Sample.sessionsIdx search.NewIndex)
      = ["/s/2024/01/02/b.jsonl"; "/s/2024/01/02/a.jsonl"]
  ∧ map content (ordered Sample.searchIdx)
      = ["say Hello there"; "Here is a search result"]
  ∧ map FilePath (parsedFiles Sample.sessionsIdx Sample.searchIdx)
      = ["/s/2024/01/02/b.jsonl"].
Proof. split_and!; vm_compute; reflexivity. Qed.

Lemma RefreshFrom_reuses_or_reparses_witness :
  NoDup (map FilePath (snapshotFiles Sample.sessionsIdx))
  ∧ ∀ p, p ∉ map FilePath (snapshotFiles Sample.sessionsIdx) →
      files (@RefreshFrom asciiText Sample.json Sample.files Sample.system true
               Sample.sessionsIdx Sample.searchIdx).1 !! p = None.
Proof.
  split; [exact sample_paths_NoDup|].
  apply (@RefreshFrom_reuses_or_reparses asciiText Sample.json Sample.files Sample.system
           true Sample.sessionsIdx Sample.searchIdx sample_paths_NoDup).
Defined.

(** C3, as stated, fails when the parse of a changed file fails: in the
    sample [b.jsonl] is in the snapshot with 20 bytes, the cache holds a
    record for it with 5 bytes, the file cannot be parsed, and after the
    refresh the cache still holds the old record, not a fresh one. *)
Lemma RefreshFrom_keeps_stale_record :
  Sample.fileB ∈ snapshotFiles Sample.sessionsIdx
  ∧ cached (files Sample.staleIdx) Sample.fileB = false
  ∧ files (@RefreshFrom asciiText Sample.json Sample.files Sample.system true
             Sample.sessionsIdx Sample.staleIdx).1 !! FilePath Sample.fileB
      = Some Sample.staleRecord
  ∧ ∀ es,
      files (@RefreshFrom asciiText Sample.json Sample.files Sample.system true
               Sample.sessionsIdx Sample.staleIdx).1 !! FilePath Sample.fileB
        ≠ Some {| size := Size Sample.fileB; modTime := ModTime Sample.fileB;
                  entries := es |}.
Proof.
  assert (files (@RefreshFrom asciiText Sample.json Sample.files Sample.system true
                   Sample.sessionsIdx Sample.staleIdx).1 !! FilePath Sample.fileB
          = Some Sample.staleRecord) as Hkept by (vm_compute; reflexivity).
  split_and!.
  - replace (snapshotFiles Sample.sessionsIdx) with [Sample.fileB; Sample.fileA]
      by (vm_compute; reflexivity).
    apply elem_of_cons. by left.
  - vm_compute. reflexivity.
  - exact Hkept.
  - intros es Hfresh. rewrite Hkept in Hfresh.
    unfold Sample.staleRecord in Hfresh. inversion Hfresh.
Qed.

End Witnesses.

(** ** The ASCII text instance, continued *)
Section AsciiTrimFacts.
Import AsciiText.

Lemma trimLeft_suffix s : ∃ pre, s = pre +:+ trimLeft s.
Proof.
  induction s as [|c s [pre IH]]; [by exists ""|].
  cbn [trimLeft]. destruct (isSpace c); [|by exists ""].
  exists (String c pre). rewrite append_cons. by f_equal.
Qed.

Lemma trimRight_prefix s : ∃ suf, s = trimRight s +:+ suf.
Proof.
  induction s as [|c s [suf IH]]; [by exists ""|].
  cbn [trimRight]. destruct (trimRight s) as [|r rs] eqn:Hr.
  - change ("" +:+ suf) with suf in IH. subst suf.
    destruct (isSpace c); [by exists (String c s)|by exists s].
  - exists suf. rewrite append_cons. by f_equal.
Qed.

Lemma asciiText_TrimSpace_part s :
  ∃ pre suf, s = pre +:+ @Go.TrimSpace asciiText s +:+ suf.
Proof.
  destruct (trimLeft_suffix s) as [pre Hpre].
  destruct (trimRight_prefix (trimLeft s)) as [suf Hsuf].
  exists pre, suf. cbn [Go.TrimSpace asciiText]. unfold TrimSpace.
  by rewrite <- Hsuf.
Qed.

End AsciiTrimFacts.

(** ** The further properties on the sample installation *)
Section MoreWitnesses.
Import sessions search Spec web.

Lemma sample_Refresh :
  @Refresh asciiText Sample.system 7 (sessions.NewIndex "/s") = (Sample.sessionsIdx, None).
Proof. vm_compute. reflexivity. Defined.

Lemma sample_Refresh_cwd :
  @Refresh asciiText Sample.systemCwd 7 (sessions.NewIndex "/s")
    = (Sample.sessionsIdxCwd, None).
Proof. vm_compute. reflexivity. Defined.

Lemma sample_walked_cwd :
  @walkedFiles Sample.systemCwd "/s" = [Sample.fileACwd; Sample.fileB].
Proof. vm_compute. reflexivity. Defined.

Lemma Lookup_after_Refresh_witness :
  @Refresh asciiText Sample.system 7 (sessions.NewIndex "/s") = (Sample.sessionsIdx, None)
  ∧ @Lookup Sample.system Sample.sessionsIdx Sample.day "a.jsonl" = Some Sample.fileA
  ∧ @Lookup Sample.system Sample.sessionsIdx Sample.day "stray.jsonl" = None.
Proof.
  split; [exact sample_Refresh|].
  destruct (@Lookup_after_Refresh asciiText Sample.system 7 (sessions.NewIndex "/s")
              Sample.sessionsIdx sample_Refresh) as [Hl _].
  rewrite !Hl. split; vm_compute; reflexivity.
Defined.

(** With the header, the working directories are "/proj" and, last,
    "(unknown)". *)
Example Cwds_sample :
  Cwds Sample.sessionsIdxCwd = ["/proj"; "(unknown)"]
  ∧ CwdCounts Sample.sessionsIdxCwd !! "/proj" = Some 1
  ∧ @SessionsByCwd asciiText Sample.sessionsIdxCwd "  " = [Sample.fileB].
Proof. vm_compute. done. Qed.

Lemma Refresh_views_agree_witness :
  @Refresh asciiText Sample.systemCwd 7 (sessions.NewIndex "/s")
    = (Sample.sessionsIdxCwd, None)
  ∧ concat (map (@SessionsByCwd asciiText Sample.sessionsIdxCwd)
              (Cwds Sample.sessionsIdxCwd))
      ≡ₚ @walkedFiles Sample.systemCwd "/s".
Proof.
  split; [exact sample_Refresh_cwd|].
  apply (@Refresh_views_agree asciiText Sample.systemCwd 7 (sessions.NewIndex "/s")
           Sample.sessionsIdxCwd sample_Refresh_cwd).
Defined.

Lemma CwdCounts_after_Refresh_witness :
  @Refresh asciiText Sample.systemCwd 7 (sessions.NewIndex "/s")
    = (Sample.sessionsIdxCwd, None)
  ∧ sumOf (map (λ key, default 0 (CwdCounts Sample.sessionsIdxCwd !! key))
             (Cwds Sample.sessionsIdxCwd))
      = count (@walkedFiles Sample.systemCwd "/s").
Proof.
  split; [exact sample_Refresh_cwd|].
  apply (@CwdCounts_after_Refresh asciiText Sample.systemCwd 7 (sessions.NewIndex "/s")
           Sample.sessionsIdxCwd sample_Refresh_cwd).
Defined.

Lemma SessionsByCwd_recorded_witness :
  @Refresh asciiText Sample.systemCwd 7 (sessions.NewIndex "/s")
    = (Sample.sessionsIdxCwd, None)
  ∧ Sample.fileACwd ∈ @walkedFiles Sample.systemCwd "/s"
  ∧ Sample.fileACwd ∈ @SessionsByCwd asciiText Sample.sessionsIdxCwd "/proj".
Proof.
  assert (Sample.fileACwd ∈ @walkedFiles Sample.systemCwd "/s") as Hin.
  { rewrite sample_walked_cwd. apply elem_of_cons. by left. }
  split; [exact sample_Refresh_cwd|]. split; [exact Hin|].
  destruct (@SessionsByCwd_recorded asciiText Sample.systemCwd 7 (sessions.NewIndex "/s")
              Sample.sessionsIdxCwd Sample.fileACwd sample_Refresh_cwd Hin) as [Hf _].
  exact Hf.
Defined.

Lemma Dates_have_sessions_witness :
  @Refresh asciiText Sample.system 7 (sessions.NewIndex "/s") = (Sample.sessionsIdx, None)
  ∧ ∀ f, f ∈ SessionsByDate Sample.sessionsIdx Sample.day → Date f = Sample.day.
Proof.
  split; [exact sample_Refresh|].
  apply (@Dates_have_sessions asciiText Sample.system 7 (sessions.NewIndex "/s")
           Sample.sessionsIdx Sample.day sample_Refresh).
Defined.

Lemma sample_ParseSession :
  ∃ session,
    @ParseSession asciiText Sample.json Sample.files true "/s/2024/01/02/a.jsonl"
      = inr session.
Proof. eexists. vm_compute. reflexivity. Defined.

Lemma ParseSession_items_wellFormed_witness :
  @Go.TextLaws asciiText
  ∧ ∃ session,
      @ParseSession asciiText Sample.json Sample.files true "/s/2024/01/02/a.jsonl"
        = inr session
      ∧ Forall (@wellFormed asciiText) (Items session).
Proof.
  split; [exact asciiText_laws|].
  destruct sample_ParseSession as [session Hp]. exists session. split; [exact Hp|].
  apply (@ParseSession_items_wellFormed asciiText asciiText_laws Sample.json Sample.files
           true _ _ Hp).
Defined.

Lemma ParseSession_records_lines_witness :
  @Open Sample.files "/s/2024/01/02/a.jsonl" = inr (Sample.contentA, None)
  ∧ ∃ session,
      @ParseSession asciiText Sample.json Sample.files true "/s/2024/01/02/a.jsonl"
        = inr session
      ∧ Forall (recordsLine (lines Sample.contentA)) (Items session)
      ∧ StronglySorted Z.lt (map Line (Items session)).
Proof.
  split; [reflexivity|].
  apply (@ParseSession_records_lines asciiText Sample.json Sample.files true
           "/s/2024/01/02/a.jsonl" Sample.contentA).
  reflexivity.
Defined.

(** The entries of [a.jsonl] are its lines 1 and 2. *)
Example ParseSession_sample_lines :
  match @ParseSession asciiText Sample.json Sample.files true "/s/2024/01/02/a.jsonl" with
  | inr session => map (λ item, (Line item, Raw item, Title item)) (Items session)
  | inl _ => []
  end = [(1, "U1", "User"); (2, "A1", "Agent")].
Proof. vm_compute. reflexivity. Qed.

Lemma mergeConsecutive_app_witness :
  key (Sample.message 3 "message" "user" "keep")
    ≠ key (Sample.message 6 "reasoning" "assistant" "Reason")
  ∧ @mergeConsecutive asciiText Sample.scenario
      = @mergeConsecutive asciiText
          [Sample.message 2 "message" "user" "noise";
           Sample.message 3 "message" "user" "keep"]
        ++ @mergeConsecutive asciiText
             [Sample.message 6 "reasoning" "assistant" "Reason";
              Sample.message 7 "message" "user" "Earlier";
              Sample.message 8 "message" "user" "Later"].
Proof.
  assert (key (Sample.message 3 "message" "user" "keep")
            ≠ key (Sample.message 6 "reasoning" "assistant" "Reason")) as Hne
    by (vm_compute; congruence).
  split; [exact Hne|].
  apply (@mergeConsecutive_app asciiText
           [Sample.message 2 "message" "user" "noise"]
           [Sample.message 7 "message" "user" "Earlier";
            Sample.message 8 "message" "user" "Later"] _ _ Hne).
Defined.

Lemma sample_buildEntries :
  ∃ es, @buildEntries asciiText Sample.json Sample.files Sample.system true Sample.fileA
          = inr es.
Proof. eexists. vm_compute. reflexivity. Defined.

Lemma buildEntries_one_per_item_witness :
  @Go.TextLaws asciiText
  ∧ ∃ es session,
      @buildEntries asciiText Sample.json Sample.files Sample.system true Sample.fileA
        = inr es
      ∧ @ParseSession asciiText Sample.json Sample.files true (FilePath Sample.fileA)
          = inr session
      ∧ map line es = map Line (Items session).
Proof.
  split; [exact asciiText_laws|].
  destruct sample_buildEntries as [es Hes]. exists es.
  destruct (@buildEntries_one_per_item asciiText asciiText_laws Sample.json Sample.files
              Sample.system true Sample.fileA es Hes) as (session & Hp & Hl & _).
  exists session. split; [exact Hes|]. split; [exact Hp|exact Hl].
Defined.

Lemma RefreshFrom_again_witness :
  NoDup (map FilePath (snapshotFiles Sample.sessionsIdx))
  ∧ parsedFiles Sample.sessionsIdx
      (@RefreshFrom asciiText Sample.json Sample.files Sample.system true
         Sample.sessionsIdx search.NewIndex).1
    = filter (λ f, cached (files search.NewIndex) f = false
                   ∧ is_Some (@parseError asciiText Sample.json Sample.files
                                Sample.system true f))
        (snapshotFiles Sample.sessionsIdx).
Proof.
  split; [exact sample_paths_NoDup|].
  apply (@RefreshFrom_again asciiText Sample.json Sample.files Sample.system true
           Sample.sessionsIdx search.NewIndex sample_paths_NoDup).
Defined.

Lemma RefreshFrom_ordered_consistent_witness :
  NoDup (map FilePath (snapshotFiles Sample.sessionsIdx))
  ∧ ordered Sample.searchIdx
      = flatten (files Sample.searchIdx) (snapshotFiles Sample.sessionsIdx).
Proof.
  split; [exact sample_paths_NoDup|].
  apply (@RefreshFrom_ordered_consistent asciiText Sample.json Sample.files Sample.system
           true Sample.sessionsIdx search.NewIndex sample_paths_NoDup).
Defined.

Lemma truncate_length_witness :
  0 ≤ 8
  ∧ Go.len (truncate "Hello, world" 8) = Z.min (Go.len "Hello, world") 8.
Proof.
  split; [lia|]. apply (truncate_length "Hello, world" 8). lia.
Defined.

Example truncate_sample :
  truncate "Hello, world" 8 = "Hello..." ∧ truncate "Hello" 8 = "Hello"
  ∧ truncate "Hello" 3 = "Hel".
Proof. vm_compute. done. Qed.

Lemma Search_previews_witness :
  (∀ s, ∃ pre suf, s = pre +:+ @Go.TrimSpace asciiText s +:+ suf)
  ∧ Forall (λ r, Go.len (Preview r)
                   ≤ Z.max 180 (Go.len (@Go.TrimSpace asciiText "HELLO") + 126)
                 ∧ oneLine (Preview r))
      (@Search asciiText Sample.searchIdx "HELLO" 10).
Proof.
  split; [exact asciiText_TrimSpace_part|].
  apply (@Search_previews asciiText asciiText_TrimSpace_part Sample.searchIdx "HELLO" 10).
Defined.

(** A request without a limit is answered like a search with limit 0. *)
Example handleSearch_sample :
  match @handleSearch asciiText "GET" (Some Sample.searchIdx) " HELLO " "" with
  | searchResponse query results =>
      (query, map (λ r, (ResFile r, ResLine r)) results)
  | _ => ("", [])
  end = ("HELLO", [("a.jsonl", 1)])
  ∧ @handleSearch asciiText "GET" (Some Sample.searchIdx) "H" "10"
      = searchResponse "H" []
  ∧ @handleSearch asciiText "POST" (Some Sample.searchIdx) "HELLO" "10" = NotFound.
Proof. vm_compute. done. Qed.

Example shellQuote_sample :
  shellQuote "it's" = String "'" ("it" +:+ quotedQuote +:+ "s'")
  ∧ shellWord Unquoted (shellQuote "it's") = Some "it's".
Proof. vm_compute. done. Qed.

Lemma shareFileName_served_witness :
  String.length Sample.randomBytes = 16%nat
  ∧ randomToken (inr Sample.randomBytes) = inr "30313233343536373839616263646566"
  ∧ sharedName "GET" ("/" +:+ shareFileName "30313233343536373839616263646566")
      = Some "30313233-3435-3637-3839-616263646566.html".
Proof.
  assert (String.length Sample.randomBytes = 16%nat) as Hl by reflexivity.
  assert (randomToken (inr Sample.randomBytes) = inr "30313233343536373839616263646566")
    as Ht by reflexivity.
  split; [exact Hl|]. split; [exact Ht|].
  apply (shareFileName_served Sample.randomBytes _ Hl Ht).
Defined.

Lemma handleDir_counts_witness :
  @Refresh asciiText Sample.systemCwd 7 (sessions.NewIndex "/s")
    = (Sample.sessionsIdxCwd, None)
  ∧ sumOf (map DateCount
             (PageDates (@handleDir asciiText Sample.systemCwd Sample.sessionsIdxCwd
                           "theme-graphite-teal" "/proj")))
      = count (@SessionsByCwd asciiText Sample.sessionsIdxCwd "/proj").
Proof.
  split; [exact sample_Refresh_cwd|].
  apply (@handleDir_counts asciiText Sample.systemCwd 7 (sessions.NewIndex "/s")
           Sample.sessionsIdxCwd "theme-graphite-teal" "/proj" sample_Refresh_cwd).
Defined.

Lemma sample_handleRaw :
  @handleRaw Sample.system Sample.sessionsIdx "/2024/01/02/a.jsonl" = Some Sample.fileA.
Proof. vm_compute. reflexivity. Defined.

Lemma handleRaw_indexed_witness :
  @Refresh asciiText Sample.system 7 (sessions.NewIndex "/s") = (Sample.sessionsIdx, None)
  ∧ @handleRaw Sample.system Sample.sessionsIdx "/2024/01/02/a.jsonl"
      = Some Sample.fileA
  ∧ Sample.fileA ∈ @walkedFiles Sample.system "/s".
Proof.
  split; [exact sample_Refresh|]. split; [exact sample_handleRaw|].
  apply (@handleRaw_indexed asciiText Sample.system 7 (sessions.NewIndex "/s")
           Sample.sessionsIdx "/2024/01/02/a.jsonl" Sample.fileA sample_Refresh
           sample_handleRaw).
Defined.

(** A request for a path outside the date folders, or with a dot-dot
    segment, is not served. *)
Example handleRaw_sample :
  @handleRaw Sample.system Sample.sessionsIdx "stray.jsonl" = None
  ∧ @handleRaw Sample.system Sample.sessionsIdx "2024/01/02/..a.jsonl" = None
  ∧ @handleRaw Sample.system Sample.sessionsIdx "2024/01/02/c.jsonl" = None.
Proof. vm_compute. done. Qed.

Lemma sharePort_stable_witness :
  @sharePort Sample.net ":8081" = inr "8081"
  ∧ @sharePort Sample.net "8081" = inr "8081".
Proof.
  assert (@sharePort Sample.net ":8081" = inr "8081") as Hp by reflexivity.
  split; [exact Hp|].
  apply (@sharePort_stable Sample.net ":8081" "8081" Hp).
Defined.

Example sharePort_sample :
  @sharePort Sample.net "localhost:8081" = inr "8081"
  ∧ @sharePort Sample.net "" = inl "share-addr is empty"
  ∧ @sharePort Sample.net ":" = inl "share-addr missing port"
  ∧ @sharePort Sample.net ":http" = inl "share-addr port is not numeric".
Proof. vm_compute. done. Qed.

Lemma ParseSessionMeta_stops_early_witness :
  let rest := "U1" +:+ String Go.CR (String Go.LF ("M2" +:+ String Go.LF "")) in
  let meta := {| ID := "abc"; MetaTimestamp := "t0"; Cwd := "/tmp";
                 Originator := "cli"; CliVersion := "0.1"; Instructions := "" |} in
  @Open Sample.filesBroken "/s/stray.jsonl"
    = inr ("M1" +:+ String Go.LF rest, Some "input/output error")
  ∧ @header.scanMeta asciiText Sample.json Sample.helpers ("M1" +:+ String Go.LF "") None
      = inr (Some meta)
  ∧ @header.ParseSessionMeta asciiText Sample.json Sample.filesBroken Sample.helpers
      "/s/stray.jsonl" = inr (Some meta).
Proof.
  intros rest meta.
  assert (@Open Sample.filesBroken "/s/stray.jsonl"
            = inr ("M1" +:+ String Go.LF rest, Some "input/output error")) as Ho
    by reflexivity.
  assert (@header.scanMeta asciiText Sample.json Sample.helpers
            ("M1" +:+ String Go.LF "") None = inr (Some meta)) as Hs
    by (vm_compute; reflexivity).
  split; [exact Ho|]. split; [exact Hs|].
  apply (@ParseSessionMeta_stops_early asciiText Sample.json Sample.filesBroken
           Sample.helpers "/s/stray.jsonl" "M1" rest (Some "input/output error") meta
           Ho Hs); vm_compute; congruence.
Defined.

(** With limit 1 the query "e" finds the first of the two entries that a
    search without limit finds. *)
Example Search_limit_sample :
  map ResLine (@Search asciiText Sample.searchIdx "e" 0) = [1; 2]
  ∧ map ResLine (@Search asciiText Sample.searchIdx "e" 1) = [1].
Proof. vm_compute. done. Qed.

Lemma sample_Refresh_days :
  @Refresh asciiText Sample.systemDays 7 (sessions.NewIndex "/s")
    = (Sample.sessionsIdxDays, None).
Proof. vm_compute. reflexivity. Qed.

(** In the installation with three days, the keys arriving in the order
    2024/01/02, 2024/02/01, 2023/12/31 are sorted to the list that [Dates]
    returns: latest day first. *)
Lemma Dates_any_order_witness :
  let keys := [Sample.day; Sample.dayLater; Sample.dayEarlier] in
  @Refresh asciiText Sample.systemDays 7 (sessions.NewIndex "/s")
    = (Sample.sessionsIdxDays, None)
  ∧ keys ≡ₚ (map_to_list (byDate Sample.sessionsIdxDays)).*1
  ∧ Go.sortSlice dateGreater keys = Dates Sample.sessionsIdxDays
  ∧ Dates Sample.sessionsIdxDays = [Sample.dayLater; Sample.day; Sample.dayEarlier].
Proof.
  intros keys.
  assert (keys ≡ₚ (map_to_list (byDate Sample.sessionsIdxDays)).*1) as Hp.
  { apply (bool_decide_unpack _). vm_compute. reflexivity. }
  split; [exact sample_Refresh_days|]. split; [exact Hp|].
  split; [|vm_compute; reflexivity].
  apply (@Dates_any_order asciiText Sample.systemDays 7 (sessions.NewIndex "/s")
           Sample.sessionsIdxDays keys sample_Refresh_days Hp).
Defined.

Lemma ParseSessionMeta_no_header_witness :
  @Open Sample.files "/s/2024/01/02/a.jsonl" = inr (Sample.contentA, None)
  ∧ (@header.ParseSessionMeta asciiText Sample.json Sample.files Sample.helpers
       "/s/2024/01/02/a.jsonl" = inr None
     ↔ Forall (λ line, @header.metaFromLine Sample.json Sample.helpers line = None)
         (lines Sample.contentA)).
Proof.
  split; [reflexivity|].
  apply (@ParseSessionMeta_no_header asciiText Sample.json Sample.files Sample.helpers
           "/s/2024/01/02/a.jsonl" Sample.contentA).
  reflexivity.
Defined.

(** The session [a.jsonl] has no header line; the stray file has one in
    its first line. *)
Example ParseSessionMeta_sample :
  @header.ParseSessionMeta asciiText Sample.json Sample.files Sample.helpers
    "/s/2024/01/02/a.jsonl" = inr None
  ∧ (ID <$> match @header.ParseSessionMeta asciiText Sample.json Sample.files
                    Sample.helpers "/s/stray.jsonl" with
            | inr meta => meta
            | inl _ => None
            end) = Some "abc".
Proof. vm_compute. done. Qed.

End MoreWitnesses.
